(** * marble-race: the sequential load controller

    A shallow embedding of [MB_AsyncLoadOperation] and
    [MB_AsyncLoadController] (constructor and [initLoadOperation]) together
    with the part of the JavaScript run time the method relies on: promises,
    the microtask queue, interval timers and the DOM writes made through the
    controller's element fields.

    Caller supplied functions (a step's [func], the completion [callback])
    are state transformers over an application state [U] that either return
    a value or throw; they do not reach into the promise store or the
    timers. *)

From Stdlib Require Import ZArith List String Lia Bool PeanoNat.
From Stdlib Require Import SpecFloat DecimalString.
From stdpp Require Import base list.
From stdpp Require gmap strings.

Local Open Scope string_scope.
Local Open Scope list_scope.

(** ** JavaScript values, errors and completions *)

Inductive JsError :=
| TypeError (msg : string)
| Error (msg : string).

(** What a caller supplied function may hand back.  The controller never
    looks at it. *)
Inductive JsValue :=
| VUndefined
| VString (s : string)
| VThenable.   (* a promise made by the caller's own code, still pending *)

Inductive Completion (A : Type) :=
| Normal (a : A)
| Throw (e : JsError).
Arguments Normal {A} a.
Arguments Throw {A} e.

(** ** Numbers: IEEE 754 binary64 *)

Module Number.

Definition prec : Z := 53.
Definition emax : Z := 1024.

Definition ofZ (z : Z) : spec_float := binary_normalize prec emax z 0 false.
Definition ofNat (n : nat) : spec_float := ofZ (Z.of_nat n).

Definition div : spec_float -> spec_float -> spec_float := SFdiv prec emax.
Definition mul : spec_float -> spec_float -> spec_float := SFmul prec emax.

(** An integral Number, or one of the values that have no integer part. *)
Inductive Integral :=
| Int (z : Z)
| NaN
| Infinity (negative : bool).

(** [Math.floor]: the largest integer not above the argument. *)
Definition floor (x : spec_float) : Integral :=
  match x with
  | S754_zero _ => Int 0
  | S754_infinity s => Infinity s
  | S754_nan => NaN
  | S754_finite s m e =>
      let sm := if s then Z.neg m else Z.pos m in
      Int (if (0 <=? e)%Z then sm * 2 ^ e else sm / 2 ^ (- e))%Z
  end.

(** [Math.round]: the nearest integer, a tie going towards +∞, that is
    floor (x + 1/2) computed without rounding. *)
Definition round (x : spec_float) : Integral :=
  match x with
  | S754_zero _ => Int 0
  | S754_infinity s => Infinity s
  | S754_nan => NaN
  | S754_finite s m e =>
      let sm := if s then Z.neg m else Z.pos m in
      Int (if (0 <=? e)%Z then sm * 2 ^ e
           else (2 * sm + 2 ^ (- e)) / 2 ^ (- e + 1))%Z
  end.

(** What [Math.random()] may return: a binary64 number of positive sign,
    at least 0 and below 1. *)
Definition unitDraw (u : spec_float) : bool :=
  match u with
  | S754_zero false => true
  | S754_finite false m e =>
      bounded prec emax m e && (Z.pos m <? 2 ^ (- e))%Z
  | _ => false
  end.

(** Number to String, on integral values (all that the controller
    prints). *)
Definition toString (r : Integral) : string :=
  match r with
  | Int z => NilZero.string_of_int (Z.to_int z)
  | NaN => "NaN"
  | Infinity false => "Infinity"
  | Infinity true => "-Infinity"
  end.

End Number.

(** ** The DOM surface and the observable trace *)

(** An element handle (its id). *)
Definition HTMLElement := string.

(** The controller field through which an element is written. *)
Inductive Sink :=
| LoadingScreen
| LoadingText
| LoadingPercentage
| LoadingProgressBar
| LoadingTips.

Abbreviation TimerId := positive (only parsing).
Abbreviation PromiseId := nat (only parsing).

Inductive Event :=
| SetTextContent (k : Sink) (s : string)     (* this.k.textContent = s *)
| SetStyleWidth (k : Sink) (s : string)      (* this.k.style.width = s *)
| ClassListRemove (k : Sink) (cls : string)  (* this.k.classList.remove(cls) *)
| ClassListAdd (k : Sink) (cls : string)     (* this.k.classList.add(cls) *)
| SetStyleDisplay (k : Sink) (s : string)    (* this.k.style.display = s *)
| SetIntervalCalled (id : TimerId) (ms : Z)
| ClearIntervalCalled (id : TimerId)
| FuncCalled (idx : nat)                     (* func() of step idx entered *)
| FuncReturned (idx : nat)
| FuncThrew (idx : nat) (e : JsError)
| CallbackCalled
| UnhandledRejection (e : JsError).

Section Loader.

(** The application state the caller's functions work on. *)
Context {U : Type}.

Definition JsFunction := U -> U * Completion JsValue.

(** ** The two classes *)

Record MB_AsyncLoadOperation := mkOperation {
  text : string;
  func : JsFunction
}.

(** The [options] object handed to the controller's constructor; an absent
    property reads as [undefined]. *)
Record Options := mkOptions {
  opt_loadingScreen : option HTMLElement;
  opt_loadingText : option HTMLElement;
  opt_loadingPercentage : option HTMLElement;
  opt_loadingProgressBar : option HTMLElement;
  opt_loadingTips : option HTMLElement;
  opt_tips : option (list string)
}.

Record MB_AsyncLoadController := mkController {
  loadingScreen : option HTMLElement;
  loadingText : option HTMLElement;
  loadingPercentage : option HTMLElement;
  loadingProgressBar : option HTMLElement;
  loadingTips : option HTMLElement;
  tips : list string
}.

(** [constructor (options)]: six field assignments, [tips] defaulting to
    the empty array. *)
Definition constructor (options : Options)
  : Completion MB_AsyncLoadController :=
  Normal {|
    loadingScreen := opt_loadingScreen options;
    loadingText := opt_loadingText options;
    loadingPercentage := opt_loadingPercentage options;
    loadingProgressBar := opt_loadingProgressBar options;
    loadingTips := opt_loadingTips options;
    tips := match opt_tips options with Some t => t | None => [] end
  |}.

(** ** Closures, promises, jobs, timers *)

(** The two arrow functions passed to [then], with what they close over;
    those of the class in [js/index.js] come last. *)
Inductive Handler :=
| StepThen (this : MB_AsyncLoadController)
           (funcList : list MB_AsyncLoadOperation)
           (func : JsFunction) (idx : nat)
| FinalThen (this : MB_AsyncLoadController)
            (tipInterval : option TimerId)
            (callback : option JsFunction)
| StepThenIndexJs (this : MB_AsyncLoadController)
                  (funcList : list MB_AsyncLoadOperation)
                  (func : JsFunction) (idx : nat)
| FinalThenIndexJs (this : MB_AsyncLoadController)
                   (callback : option JsFunction).

(** The arrow function passed to [setInterval]. *)
Inductive TimerHandler :=
| TipTick (this : MB_AsyncLoadController).

(** A reaction registered by [p.then(onFulfilled)]: the handler and the
    promise [then] returned. *)
Abbreviation Reaction := (Handler * PromiseId)%type (only parsing).

Inductive PromiseState :=
| Pending (reactions : list Reaction)
| Fulfilled (v : JsValue)
| Rejected (e : JsError).

Record Job := mkJob {
  handler : Handler;
  argument : Completion JsValue;   (* how the parent promise settled *)
  derived : PromiseId
}.

Record Timer := mkTimer {
  timer_id : TimerId;
  timer_ms : Z;
  timer_handler : TimerHandler
}.

(** What the page's own code can see and change: the application state,
    the intervals that are alive, and the trace of what happened. *)
Record Page := mkPage {
  user : U;
  timers : list Timer;
  nextTimerId : TimerId;
  trace : list Event
}.

(** The page together with the engine's job machinery. *)
Record World := mkWorld {
  page : Page;
  promises : list PromiseState;    (* a promise's id is its position *)
  microtasks : list Job
}.

Definition initialWorld (u : U) : World :=
  {| page := {| user := u; timers := []; nextTimerId := 1%positive;
                trace := [] |};
     promises := []; microtasks := [] |}.

Definition set_user (u : U) (pg : Page) : Page :=
  mkPage u (timers pg) (nextTimerId pg) (trace pg).
Definition set_timers (ts : list Timer) (pg : Page) : Page :=
  mkPage (user pg) ts (nextTimerId pg) (trace pg).
Definition set_nextTimerId (i : TimerId) (pg : Page) : Page :=
  mkPage (user pg) (timers pg) i (trace pg).
Definition set_trace (t : list Event) (pg : Page) : Page :=
  mkPage (user pg) (timers pg) (nextTimerId pg) t.

Definition set_page (pg : Page) (w : World) : World :=
  mkWorld pg (promises w) (microtasks w).
Definition set_promises (ps : list PromiseState) (w : World) : World :=
  mkWorld (page w) ps (microtasks w).
Definition set_microtasks (q : list Job) (w : World) : World :=
  mkWorld (page w) (promises w) q.

(** ** Statements: state passing with exceptions *)

Definition St (Σ A : Type) := Σ -> Σ * Completion A.

Definition ret {Σ A} (a : A) : St Σ A := fun s => (s, Normal a).
Definition throw {Σ A} (e : JsError) : St Σ A := fun s => (s, Throw e).
Definition bind {Σ A B} (c : St Σ A) (k : A -> St Σ B) : St Σ B :=
  fun s => match c s with
           | (s', Normal a) => k a s'
           | (s', Throw e) => (s', Throw e)
           end.

(** Code that touches the page only, and code that also uses promises. *)
Definition Eff := St Page.
Definition Js := St World.

Definition lift {A} (c : Eff A) : Js A :=
  fun w => let '(pg, r) := c (page w) in (set_page pg w, r).

Notation "x <- c1 ;; c2" := (bind c1 (fun x => c2))
  (at level 100, c1 at next level, c2 at level 200, right associativity).
Notation "c1 ;; c2" := (bind c1 (fun _ => c2))
  (at level 100, c2 at level 200, right associativity).

Definition emit (e : Event) : Eff unit :=
  fun pg => (set_trace (trace pg ++ [e]) pg, Normal tt).

(** An assignment to (or a method call on) a property of an element held
    in a controller field: a [TypeError] when the field is [undefined]. *)
Definition onElement (field : option HTMLElement) (e : Event) : Eff unit :=
  match field with
  | Some _ => emit e
  | None => throw (TypeError "Cannot read properties of undefined")
  end.

(** A truthiness test of a controller field. *)
Definition truthy {A} (field : option A) : bool :=
  match field with Some _ => true | None => false end.

(** [a[i]] on an array of strings assigned to [textContent]: [undefined]
    is written as the empty text. *)
Definition stringAt (a : list string) (i : nat) : string :=
  match a !! i with Some s => s | None => "" end.

(** *** Timers *)

Definition setInterval (h : TimerHandler) (ms : Z) : Eff TimerId :=
  fun pg =>
    let id := nextTimerId pg in
    (set_trace (trace pg ++ [SetIntervalCalled id ms])
       (set_nextTimerId (Pos.succ id)
          (set_timers (timers pg ++ [mkTimer id ms h]) pg)),
     Normal id).

Definition clearInterval (id : TimerId) : Eff unit :=
  fun pg =>
    (set_trace (trace pg ++ [ClearIntervalCalled id])
       (set_timers
          (List.filter (fun t => negb (Pos.eqb (timer_id t) id))
             (timers pg))
          pg),
     Normal tt).

(** *** Promises *)

Definition newPromise (st : PromiseState) : Js PromiseId :=
  fun w => (set_promises (promises w ++ [st]) w,
            Normal (length (promises w))).

Definition enqueue (j : Job) (w : World) : World :=
  set_microtasks (microtasks w ++ [j]) w.

Definition reactionJobs (arg : Completion JsValue) (rs : list Reaction)
  : list Job :=
  map (fun r => mkJob (fst r) arg (snd r)) rs.

(** [Promise.resolve()] *)
Definition promiseResolve (v : JsValue) : Js PromiseId :=
  newPromise (Fulfilled v).

(** [p.then(onFulfilled)]: a new promise is made; the reaction is stored
    on a pending [p], or queued at once when [p] is already settled. *)
Definition promiseThen (p : PromiseId) (h : Handler) : Js PromiseId :=
  d <- newPromise (Pending []) ;;
  fun w =>
    match promises w !! p with
    | Some (Pending rs) =>
        (set_promises (<[p := Pending (rs ++ [(h, d)])]> (promises w)) w,
         Normal d)
    | Some (Fulfilled v) => (enqueue (mkJob h (Normal v) d) w, Normal d)
    | Some (Rejected e) => (enqueue (mkJob h (Throw e) d) w, Normal d)
    | None => (w, Normal d)
    end.

Definition fulfillPromise (p : PromiseId) (v : JsValue) (w : World)
  : World :=
  match promises w !! p with
  | Some (Pending rs) =>
      set_microtasks (microtasks w ++ reactionJobs (Normal v) rs)
        (set_promises (<[p := Fulfilled v]> (promises w)) w)
  | _ => w
  end.

(** A rejection nobody listens to is reported by the host. *)
Definition rejectPromise (p : PromiseId) (e : JsError) (w : World)
  : World :=
  match promises w !! p with
  | Some (Pending rs) =>
      let w' :=
        set_microtasks (microtasks w ++ reactionJobs (Throw e) rs)
          (set_promises (<[p := Rejected e]> (promises w)) w) in
      match rs with
      | [] => set_page (fst (emit (UnhandledRejection e) (page w'))) w'
      | _ :: _ => w'
      end
  | _ => w
  end.

(** Resolving with a thenable makes the promise follow it; a thenable of
    the caller's is pending for good here, so nothing is queued. *)
Definition resolvePromise (p : PromiseId) (v : JsValue) (w : World)
  : World :=
  match v with
  | VThenable => w
  | _ => fulfillPromise p v w
  end.

Definition settle (p : PromiseId) (r : Completion JsValue) (w : World)
  : World :=
  match r with
  | Normal v => resolvePromise p v w
  | Throw e => rejectPromise p e w
  end.

(** ** The controller's code *)

(** [`${Math.round((100 / funcList.length) * idx)}%`] *)
Definition progressText (len idx : nat) : string :=
  Number.toString
    (Number.round
       (Number.mul (Number.div (Number.ofNat 100) (Number.ofNat len))
          (Number.ofNat idx))) ++ "%".

(** [funcList[idx]], read for its [text]. *)
Definition operationAt (funcList : list MB_AsyncLoadOperation) (idx : nat)
  : Eff MB_AsyncLoadOperation :=
  match funcList !! idx with
  | Some op => ret op
  | None => throw (TypeError "Cannot read properties of undefined")
  end.

(** [func()] of step [idx]: the call is bracketed in the trace. *)
Definition callFunc (idx : nat) (f : JsFunction) : Eff JsValue :=
  emit (FuncCalled idx) ;;
  fun pg =>
    match f (user pg) with
    | (u', Normal v) =>
        (set_trace (trace pg ++ [FuncReturned idx]) (set_user u' pg),
         Normal v)
    | (u', Throw e) =>
        (set_trace (trace pg ++ [FuncThrew idx e]) (set_user u' pg),
         Throw e)
    end.

(** [callback()] *)
Definition callCallback (f : JsFunction) : Eff JsValue :=
  emit CallbackCalled ;;
  fun pg => let '(u', r) := f (user pg) in (set_user u' pg, r).

(** The arrow function given to [promise.then] inside [reduce]:
    three writes, then the step's function; its value is dropped. *)
Definition stepThen (this : MB_AsyncLoadController)
    (funcList : list MB_AsyncLoadOperation) (func : JsFunction) (idx : nat)
  : Eff JsValue :=
  op <- operationAt funcList idx ;;
  onElement (loadingText this) (SetTextContent LoadingText (text op)) ;;
  onElement (loadingProgressBar this)
    (SetStyleWidth LoadingProgressBar
       (progressText (length funcList) idx)) ;;
  onElement (loadingPercentage this)
    (SetTextContent LoadingPercentage
       (progressText (length funcList) idx)) ;;
  _ <- callFunc idx func ;;
  ret VUndefined.

(** The arrow function given to [promiseSequence.then]. *)
Definition finalThen (this : MB_AsyncLoadController)
    (tipInterval : option TimerId) (callback : option JsFunction)
  : Eff JsValue :=
  onElement (loadingPercentage this)
    (SetTextContent LoadingPercentage "100%") ;;
  onElement (loadingProgressBar this)
    (SetStyleWidth LoadingProgressBar "100%") ;;
  onElement (loadingScreen this) (ClassListAdd LoadingScreen "hidden") ;;
  (if truthy (loadingTips this)
   then onElement (loadingTips this) (SetTextContent LoadingTips "")
   else ret tt) ;;
  match tipInterval with
  | Some id => clearInterval id
  | None => ret tt
  end ;;
  match callback with
  | Some f => _ <- callCallback f ;; ret tt
  | None => ret tt
  end ;;
  ret VUndefined.

(** The same two arrow functions as [js/index.js] has them: the
    percentage element is not written, nothing is set to 100%, the screen is
    hidden through its style, and the interval is not cleared. *)
Definition stepThenIndexJs (this : MB_AsyncLoadController)
    (funcList : list MB_AsyncLoadOperation) (func : JsFunction) (idx : nat)
  : Eff JsValue :=
  op <- operationAt funcList idx ;;
  onElement (loadingText this) (SetTextContent LoadingText (text op)) ;;
  onElement (loadingProgressBar this)
    (SetStyleWidth LoadingProgressBar
       (progressText (length funcList) idx)) ;;
  _ <- callFunc idx func ;;
  ret VUndefined.

Definition finalThenIndexJs (this : MB_AsyncLoadController)
    (callback : option JsFunction) : Eff JsValue :=
  onElement (loadingScreen this) (SetStyleDisplay LoadingScreen "none") ;;
  (if truthy (loadingTips this)
   then onElement (loadingTips this) (SetTextContent LoadingTips "")
   else ret tt) ;;
  match callback with
  | Some f => _ <- callCallback f ;; ret tt
  | None => ret tt
  end ;;
  ret VUndefined.

Definition runHandler (h : Handler) : Eff JsValue :=
  match h with
  | StepThen this funcList func idx => stepThen this funcList func idx
  | FinalThen this tipInterval callback =>
      finalThen this tipInterval callback
  | StepThenIndexJs this funcList func idx =>
      stepThenIndexJs this funcList func idx
  | FinalThenIndexJs this callback => finalThenIndexJs this callback
  end.

(** [Math.floor(Math.random() * this.tips.length)], for the draw [u]. *)
Definition randomTipIndex (this : MB_AsyncLoadController) (u : spec_float)
  : Number.Integral :=
  Number.floor (Number.mul u (Number.ofNat (length (tips this)))).

(** [a[i]] for a Number index: a property that is not an array index
    reads as [undefined]. *)
Definition stringAtNumber (a : list string) (i : Number.Integral)
  : string :=
  match i with
  | Number.Int z => if (0 <=? z)%Z then stringAt a (Z.to_nat z) else ""
  | _ => ""
  end.

(** The arrow function given to [setInterval]. *)
Definition tipTick (this : MB_AsyncLoadController) (u : spec_float)
  : Eff unit :=
  onElement (loadingTips this)
    (SetTextContent LoadingTips
       (stringAtNumber (tips this) (randomTipIndex this u))).

(** [funcs.reduce((promise, func, idx) => ..., initial)] *)
Fixpoint reduce {Σ A B} (f : B -> A -> nat -> St Σ B) (l : list A)
    (idx : nat) (acc : B) : St Σ B :=
  match l with
  | [] => ret acc
  | x :: l' => acc' <- f acc x idx ;; reduce f l' (S idx) acc'
  end.

(** [initLoadOperation (funcList, callback)]: everything up to the
    method's return. *)
Definition initLoadOperation (this : MB_AsyncLoadController)
    (funcList : list MB_AsyncLoadOperation) (callback : option JsFunction)
  : Js unit :=
  tipInterval <-
    lift (if truthy (loadingTips this) && (0 <? length (tips this))%nat
          then
            id <- setInterval (TipTick this) 10000 ;;
            onElement (loadingTips this)
              (SetTextContent LoadingTips (stringAt (tips this) 0)) ;;
            ret (Some id)
          else ret None) ;;
  lift (if truthy (loadingScreen this)
        then onElement (loadingScreen this)
               (ClassListRemove LoadingScreen "hidden")
        else ret tt) ;;
  let funcs := map func funcList in
  p0 <- promiseResolve VUndefined ;;
  promiseSequence <-
    reduce (fun promise func idx =>
              promiseThen promise (StepThen this funcList func idx))
      funcs 0%nat p0 ;;
  _ <- promiseThen promiseSequence (FinalThen this tipInterval callback) ;;
  ret tt.

(** [initLoadOperation] of the class in [js/index.js]; [funcs] is filled
    by [forEach] and [push]. *)
Definition initLoadOperationIndexJs (this : MB_AsyncLoadController)
    (funcList : list MB_AsyncLoadOperation) (callback : option JsFunction)
  : Js unit :=
  tipInterval <-
    lift (if truthy (loadingTips this) && (0 <? length (tips this))%nat
          then
            id <- setInterval (TipTick this) 10000 ;;
            onElement (loadingTips this)
              (SetTextContent LoadingTips (stringAt (tips this) 0)) ;;
            ret (Some id)
          else ret None) ;;
  lift (if truthy (loadingScreen this)
        then onElement (loadingScreen this)
               (SetStyleDisplay LoadingScreen "block")
        else ret tt) ;;
  let funcs := map func funcList in
  p0 <- promiseResolve VUndefined ;;
  promiseSequence <-
    reduce (fun promise func idx =>
              promiseThen promise (StepThenIndexJs this funcList func idx))
      funcs 0%nat p0 ;;
  _ <- promiseThen promiseSequence (FinalThenIndexJs this callback) ;;
  ret tt.

(** ** The event loop *)

(** One promise reaction job.  Only [onFulfilled] handlers are ever
    registered, so a rejection is handed on to the derived promise. *)
Definition runJob (j : Job) (w : World) : World :=
  match argument j with
  | Normal _ =>
      let '(pg, r) := runHandler (handler j) (page w) in
      settle (derived j) r (set_page pg w)
  | Throw e => settle (derived j) (Throw e) w
  end.

Definition microtaskStep (w : World) : World :=
  match microtasks w with
  | [] => w
  | j :: q => runJob j (set_microtasks q w)
  end.

Fixpoint drain (fuel : nat) (w : World) : World :=
  match fuel with
  | O => w
  | S fuel' =>
      match microtasks w with
      | [] => w
      | _ :: _ => drain fuel' (microtaskStep w)
      end
  end.

Definition pendingReactions (ps : list PromiseState) : nat :=
  list_sum (map (fun st => match st with
                           | Pending rs => length rs
                           | _ => 0%nat
                           end) ps).

(** A bound on the number of jobs still to run: every queued job, and
    every stored reaction, once to be queued and once to be run. *)
Definition jobsBound (w : World) : nat :=
  length (microtasks w) + 2 * pendingReactions (promises w).

(** The microtask checkpoint: run jobs until the queue is empty. *)
Definition runMicrotasks (w : World) : World := drain (jobsBound w) w.

(** What the host starts when the microtask queue is empty. *)
Inductive Task :=
| CallInit (this : MB_AsyncLoadController)
           (funcList : list MB_AsyncLoadOperation)
           (callback : option JsFunction)
| CallInitIndexJs (this : MB_AsyncLoadController)
                  (funcList : list MB_AsyncLoadOperation)
                  (callback : option JsFunction)
| TimerFires (id : TimerId) (u : spec_float).

Definition findTimer (id : TimerId) (ts : list Timer) : option Timer :=
  List.find (fun t => Pos.eqb (timer_id t) id) ts.

Definition performTask (t : Task) (w : World) : World :=
  match t with
  | CallInit this funcList callback =>
      fst (initLoadOperation this funcList callback w)
  | CallInitIndexJs this funcList callback =>
      fst (initLoadOperationIndexJs this funcList callback w)
  | TimerFires id u =>
      match findTimer id (timers (page w)) with
      | Some (mkTimer _ _ (TipTick this)) => fst (lift (tipTick this u) w)
      | None => w
      end
  end.

Definition runTask (t : Task) (w : World) : World :=
  runMicrotasks (performTask t w).

Definition eventLoop (ts : list Task) (w : World) : World :=
  fold_left (fun w t => runTask t w) ts w.

(** The events a stretch of execution added to the trace. *)
Definition eventsSince (w w' : World) : list Event :=
  drop (length (trace (page w))) (trace (page w')).

End Loader.

Arguments MB_AsyncLoadOperation : clear implicits.
Arguments Page : clear implicits.
Arguments World : clear implicits.
Arguments Handler : clear implicits.
Arguments Job : clear implicits.
Arguments PromiseState : clear implicits.
Abbreviation Reaction U := (Handler U * PromiseId)%type (only parsing).
Arguments JsFunction : clear implicits.
Arguments Eff : clear implicits.
Arguments Js : clear implicits.
Arguments Task : clear implicits.

Notation "x <- c1 ;; c2" := (bind c1 (fun x => c2))
  (at level 100, c1 at next level, c2 at level 200, right associativity).
Notation "c1 ;; c2" := (bind c1 (fun _ => c2))
  (at level 100, c2 at level 200, right associativity).

(** * Reasoning about the model *)

(** ** Vocabulary *)

Section Vocabulary.

Context {U : Type}.

(** The handlers [initLoadOperation] chains, in order: one per step, then
    the final one. *)
Fixpoint stepHandlers (this : MB_AsyncLoadController)
    (funcList : list (MB_AsyncLoadOperation U))
    (funcs : list (JsFunction U)) (idx : nat) : list (Handler U) :=
  match funcs with
  | [] => []
  | f :: fs =>
      StepThen this funcList f idx :: stepHandlers this funcList fs (S idx)
  end.

Definition allHandlers (this : MB_AsyncLoadController)
    (funcList : list (MB_AsyncLoadOperation U))
    (tipInterval : option TimerId) (callback : option (JsFunction U))
  : list (Handler U) :=
  stepHandlers this funcList (map func funcList) 0
    ++ [FinalThen this tipInterval callback].

(** [p.then(h1).then(h2)...] *)
Fixpoint thenAll (hs : list (Handler U)) (p : PromiseId)
  : Js U PromiseId :=
  match hs with
  | [] => ret p
  | h :: hs' => p' <- promiseThen p h ;; thenAll hs' p'
  end.

(** The promises such a chain leaves behind, from promise [p] on: each
    waits with one reaction whose derived promise is the next one; the
    last has none. *)
Fixpoint chainTail (hs : list (Handler U)) (p : PromiseId)
  : list (PromiseState U) :=
  match hs with
  | [] => [Pending []]
  | h :: hs' => Pending [(h, S p)] :: chainTail hs' (S p)
  end.

(** Handlers run one after the other on the page, up to the first that
    throws. *)
Fixpoint runHandlers (hs : list (Handler U)) (pg : Page U)
  : Page U * option JsError :=
  match hs with
  | [] => (pg, None)
  | h :: hs' =>
      match runHandler h pg with
      | (pg', Normal _) => runHandlers hs' pg'
      | (pg', Throw e) => (pg', Some e)
      end
  end.

(** The page as the chain leaves it: an error that ends the chain is
    reported as an unhandled rejection. *)
Definition chainOutcome (r : Page U * option JsError) : Page U :=
  match r with
  | (pg, None) => pg
  | (pg, Some e) => fst (emit (UnhandledRejection e) pg)
  end.

(** Does the run start a tip timer? *)
Definition startsTimer (this : MB_AsyncLoadController) : bool :=
  truthy (loadingTips this) && (0 <? length (tips this))%nat.

Definition startEvents (this : MB_AsyncLoadController) (id : TimerId)
  : list Event :=
  (if startsTimer this
   then [SetIntervalCalled id 10000;
         SetTextContent LoadingTips (stringAt (tips this) 0)]
   else [])
  ++ (if truthy (loadingScreen this)
      then [ClassListRemove LoadingScreen "hidden"] else []).

(** The page when [initLoadOperation] returns. *)
Definition startPage (this : MB_AsyncLoadController) (pg : Page U)
  : Page U :=
  {| user := user pg;
     timers := timers pg ++
               (if startsTimer this
                then [mkTimer (nextTimerId pg) 10000 (TipTick this)]
                else []);
     nextTimerId := if startsTimer this then Pos.succ (nextTimerId pg)
                    else nextTimerId pg;
     trace := trace pg ++ startEvents this (nextTimerId pg) |}.

Definition startTimerId (this : MB_AsyncLoadController) (pg : Page U)
  : option TimerId :=
  if startsTimer this then Some (nextTimerId pg) else None.

(** *** What a run is expected to write *)

(** The sinks a step's handler writes, and those the final handler
    writes. *)
Definition stepSinksPresent (this : MB_AsyncLoadController) : bool :=
  truthy (loadingText this) && truthy (loadingProgressBar this)
  && truthy (loadingPercentage this).

Definition finishSinksPresent (this : MB_AsyncLoadController) : bool :=
  truthy (loadingPercentage this) && truthy (loadingProgressBar this)
  && truthy (loadingScreen this).

Definition configured (this : MB_AsyncLoadController) : bool :=
  stepSinksPresent this && finishSinksPresent this.

(** A function that returns (whatever value) in every state. *)
Definition returns (f : JsFunction U) : Prop :=
  forall u, exists v, snd (f u) = Normal v.

Definition allReturn (funcList : list (MB_AsyncLoadOperation U)) : Prop :=
  Forall (fun op => returns (func op)) funcList.

(** The application state after the functions of [ops] ran in order. *)
Definition runUser (ops : list (MB_AsyncLoadOperation U)) (u : U) : U :=
  fold_left (fun u op => fst (func op u)) ops u.

Definition preStepEvents (n idx : nat) (op : MB_AsyncLoadOperation U)
  : list Event :=
  [SetTextContent LoadingText (text op);
   SetStyleWidth LoadingProgressBar (progressText n idx);
   SetTextContent LoadingPercentage (progressText n idx)].

Definition stepEvents (n idx : nat) (op : MB_AsyncLoadOperation U)
  : list Event :=
  preStepEvents n idx op ++ [FuncCalled idx; FuncReturned idx].

Fixpoint stepsEvents (n idx : nat) (ops : list (MB_AsyncLoadOperation U))
  : list Event :=
  match ops with
  | [] => []
  | op :: ops' => stepEvents n idx op ++ stepsEvents n (S idx) ops'
  end.

Definition finishEvents (this : MB_AsyncLoadController)
    (tipInterval : option TimerId) : list Event :=
  [SetTextContent LoadingPercentage "100%";
   SetStyleWidth LoadingProgressBar "100%";
   ClassListAdd LoadingScreen "hidden"]
  ++ (if truthy (loadingTips this)
      then [SetTextContent LoadingTips ""] else [])
  ++ match tipInterval with
     | Some id => [ClearIntervalCalled id]
     | None => []
     end.

Definition callbackEvents (callback : option (JsFunction U)) (u : U)
  : list Event :=
  match callback with
  | None => []
  | Some f =>
      CallbackCalled
        :: match snd (f u) with
           | Normal _ => []
           | Throw e => [UnhandledRejection e]
           end
  end.

Definition afterCallback (callback : option (JsFunction U)) (u : U) : U :=
  match callback with
  | None => u
  | Some f => fst (f u)
  end.

Definition withoutTimer (tipInterval : option TimerId) (ts : list Timer)
  : list Timer :=
  match tipInterval with
  | Some id => List.filter (fun t => negb (Pos.eqb (timer_id t) id)) ts
  | None => ts
  end.

(** *** Views of a trace *)

Definition isInvocation (e : Event) : bool :=
  match e with
  | FuncCalled _ | FuncReturned _ | FuncThrew _ _ | CallbackCalled => true
  | _ => false
  end.

(** The calls into the caller's functions, and how each ended. *)
Definition invocations (E : list Event) : list Event :=
  List.filter isInvocation E.

(** Steps [0 .. n-1] each called once and returned, one after the
    other. *)
Definition callsInOrder (n : nat) : list Event :=
  flat_map (fun i => [FuncCalled i; FuncReturned i]) (seq 0 n).

Definition callbackCall (callback : option (JsFunction U)) : list Event :=
  match callback with
  | Some _ => [CallbackCalled]
  | None => []
  end.

Definition isProgressOrCall (e : Event) : bool :=
  match e with
  | SetStyleWidth LoadingProgressBar _
  | SetTextContent LoadingPercentage _
  | FuncCalled _ => true
  | _ => false
  end.

(** The writes to the progress bar and the percentage element, and the
    calls of the steps between them. *)
Definition progressView (E : list Event) : list Event :=
  List.filter isProgressOrCall E.

(** Before each step [i] is called, the bar and the percentage are set
    to [pct n i]. *)
Definition preStepProgress (pct : nat -> nat -> string) (n : nat)
  : list Event :=
  flat_map (fun i => [SetStyleWidth LoadingProgressBar (pct n i);
                      SetTextContent LoadingPercentage (pct n i);
                      FuncCalled i]) (seq 0 n).

Definition finalProgress : list Event :=
  [SetTextContent LoadingPercentage "100%";
   SetStyleWidth LoadingProgressBar "100%"].

Definition isProgressWrite (e : Event) : bool :=
  match e with
  | SetStyleWidth LoadingProgressBar _
  | SetTextContent LoadingPercentage _ => true
  | _ => false
  end.

Definition isLabelWrite (e : Event) : bool :=
  match e with
  | SetTextContent LoadingText _ => true
  | _ => false
  end.

Definition isTipWrite (e : Event) : bool :=
  match e with
  | SetTextContent LoadingTips _ => true
  | _ => false
  end.

(** *** Histories *)

(** The worlds the machine can be in, when the tasks the host starts on
    an empty queue are taken from [allowed]. *)
Inductive reachable (allowed : Task U -> Prop) (u0 : U)
  : World U -> Prop :=
| reach_start : reachable allowed u0 (initialWorld u0)
| reach_job w :
    reachable allowed u0 w -> microtasks w <> [] ->
    reachable allowed u0 (microtaskStep w)
| reach_task w t :
    reachable allowed u0 w -> microtasks w = [] -> allowed t ->
    reachable allowed u0 (performTask t w).

Definition anyTask (t : Task U) : Prop := True.

(** A timer firing, or a run on a fully configured controller whose
    steps all return. *)
Inductive completingTask : Task U -> Prop :=
| completing_run this funcList callback :
    configured this = true -> allReturn funcList ->
    completingTask (CallInit this funcList callback)
| completing_tick id u : completingTask (TimerFires id u).

(** A chain of handlers that will run to its end and leave no timer of
    [ts] alive. *)
Inductive chainCompletes (ts : list Timer) : list (Handler U) -> Prop :=
| chain_final this tipInterval callback :
    finishSinksPresent this = true ->
    withoutTimer tipInterval ts = [] ->
    chainCompletes ts [FinalThen this tipInterval callback]
| chain_step this funcList f idx hs :
    stepSinksPresent this = true ->
    is_Some (funcList !! idx) ->
    returns f ->
    chainCompletes ts hs ->
    chainCompletes ts (StepThen this funcList f idx :: hs).

(** Between tasks no timer is alive; during a run at most the run's own
    is, and the chain in the store is going to stop it. *)
Definition timerInvariant (w : World U) : Prop :=
  (microtasks w = [] /\ timers (page w) = [])
  \/ (exists pre h hs v,
        promises w = pre ++ chainTail hs (length pre)
        /\ microtasks w = [mkJob h (Normal v) (length pre)]
        /\ (length (timers (page w)) <= 1)%nat
        /\ chainCompletes (timers (page w)) (h :: hs)).

End Vocabulary.

(** The percentage as the specification words it: floor (100 * i / n). *)
Definition floorProgressText (n i : nat) : string :=
  Number.toString (Number.Int (100 * Z.of_nat i / Z.of_nat n)) ++ "%".

(** The nearest integer to 100 * i / n in exact arithmetic, a tie going
    up. *)
Definition halfUpProgressText (n i : nat) : string :=
  Number.toString
    (Number.Int ((200 * Z.of_nat i + Z.of_nat n) / (2 * Z.of_nat n)))
  ++ "%".

Definition halfUpAgrees (n : nat) : bool :=
  List.forallb
    (fun i => String.eqb (progressText n i) (halfUpProgressText n i))
    (seq 0 n).

(** [mrs] is [P] after [j] right shifts: the quotient is kept, and the
    round bit is set only when the part shifted out is at least half. *)
Definition shifted (P j : Z) (mrs : shr_record) : Prop :=
  (0 <= j)%Z /\ shr_m mrs = (P / 2 ^ j)%Z
  /\ (shr_r mrs = true -> (2 ^ j <= 2 * (P mod 2 ^ j))%Z).

(** A draw that selects index [j] of [n]: the least multiple of 2^-d that
    is not below j / n, where d is the number of bits of [n]. *)
Definition drawSelecting (n j : nat) : spec_float :=
  let d := Zdigits2 (Z.of_nat n) in
  binary_normalize Number.prec Number.emax
    ((Z.of_nat j * 2 ^ d + Z.of_nat n - 1) / Z.of_nat n)%Z (- d)%Z false.

(** ** A page to try the controller on *)

Module Demo.

(** The application state: a log the steps append to. *)
Definition Log := list string.

Definition appendToLog (s : string) : JsFunction Log :=
  fun l => (l ++ [s], Normal VUndefined).

Definition failing (msg : string) : JsFunction Log :=
  fun l => (l, Throw (Error msg)).

(** A step whose function hands back a promise of its own. *)
Definition startsAsyncWork (s : string) : JsFunction Log :=
  fun l => (l ++ [s], Normal VThenable).

Definition options : Options :=
  {| opt_loadingScreen := Some "loadingScreen";
     opt_loadingText := Some "loadingTextLeft";
     opt_loadingPercentage := Some "loadingTextRight";
     opt_loadingProgressBar := Some "loadingProgressBar";
     opt_loadingTips := Some "loadingTips";
     opt_tips := Some ["In some levels, you can jump using the spacebar.";
                       "Be careful not to touch the spikes!"] |}.

Definition controller : MB_AsyncLoadController :=
  {| loadingScreen := opt_loadingScreen options;
     loadingText := opt_loadingText options;
     loadingPercentage := opt_loadingPercentage options;
     loadingProgressBar := opt_loadingProgressBar options;
     loadingTips := opt_loadingTips options;
     tips := ["In some levels, you can jump using the spacebar.";
              "Be careful not to touch the spikes!"] |}.

Definition abc : list (MB_AsyncLoadOperation Log) :=
  [mkOperation "A" (appendToLog "A");
   mkOperation "B" (appendToLog "B");
   mkOperation "C" (appendToLog "C")].

Definition aFailsC : list (MB_AsyncLoadOperation Log) :=
  [mkOperation "A" (appendToLog "A");
   mkOperation "B" (failing "B failed");
   mkOperation "C" (appendToLog "C")].

Definition asyncSteps : list (MB_AsyncLoadOperation Log) :=
  [mkOperation "Loading level..." (startsAsyncWork "level");
   mkOperation "Loading editor..." (startsAsyncWork "editor")].

Definition done : JsFunction Log := appendToLog "done".

(** Controllers with one element left out of the options. *)
Definition withoutLabel : Options :=
  {| opt_loadingScreen := Some "loadingScreen";
     opt_loadingText := None;
     opt_loadingPercentage := Some "loadingTextRight";
     opt_loadingProgressBar := Some "loadingProgressBar";
     opt_loadingTips := Some "loadingTips";
     opt_tips := opt_tips options |}.

Definition withoutPercentage : MB_AsyncLoadController :=
  {| loadingScreen := Some "loadingScreen";
     loadingText := Some "loadingTextLeft";
     loadingPercentage := None;
     loadingProgressBar := Some "loadingProgressBar";
     loadingTips := Some "loadingTips";
     tips := tips controller |}.

Definition withoutProgressBar : MB_AsyncLoadController :=
  {| loadingScreen := Some "loadingScreen";
     loadingText := Some "loadingTextLeft";
     loadingPercentage := Some "loadingTextRight";
     loadingProgressBar := None;
     loadingTips := Some "loadingTips";
     tips := tips controller |}.

Definition withoutScreen : MB_AsyncLoadController :=
  {| loadingScreen := None;
     loadingText := Some "loadingTextLeft";
     loadingPercentage := Some "loadingTextRight";
     loadingProgressBar := Some "loadingProgressBar";
     loadingTips := Some "loadingTips";
     tips := tips controller |}.

(** The tip element is there, but no tips were given. *)
Definition withEmptyTipList : MB_AsyncLoadController :=
  {| loadingScreen := Some "loadingScreen";
     loadingText := Some "loadingTextLeft";
     loadingPercentage := Some "loadingTextRight";
     loadingProgressBar := Some "loadingProgressBar";
     loadingTips := Some "loadingTips";
     tips := [] |}.

(** The draw 0.75. *)
Definition threeQuarters : spec_float :=
  S754_finite false 6755399441055744 (-53).

Definition withoutTips : MB_AsyncLoadController :=
  {| loadingScreen := Some "loadingScreen";
     loadingText := Some "loadingTextLeft";
     loadingPercentage := Some "loadingTextRight";
     loadingProgressBar := Some "loadingProgressBar";
     loadingTips := None;
     tips := [] |}.

Definition start : World Log := initialWorld [].

End Demo.

(** * The rest of the page's code

    The other copy of the controller (js/index.js), the callers of
    [initLoadOperation] and the utility classes of the page. *)

(** ** Vocabulary for the class in js/index.js *)

Section VocabularyIndexJs.

Context {U : Type}.

Fixpoint stepHandlersIndexJs (this : MB_AsyncLoadController)
    (funcList : list (MB_AsyncLoadOperation U))
    (funcs : list (JsFunction U)) (idx : nat) : list (Handler U) :=
  match funcs with
  | [] => []
  | f :: fs =>
      StepThenIndexJs this funcList f idx
        :: stepHandlersIndexJs this funcList fs (S idx)
  end.

Definition allHandlersIndexJs (this : MB_AsyncLoadController)
    (funcList : list (MB_AsyncLoadOperation U))
    (callback : option (JsFunction U)) : list (Handler U) :=
  stepHandlersIndexJs this funcList (map func funcList) 0
    ++ [FinalThenIndexJs this callback].

Definition startEventsIndexJs (this : MB_AsyncLoadController)
    (id : TimerId) : list Event :=
  (if startsTimer this
   then [SetIntervalCalled id 10000;
         SetTextContent LoadingTips (stringAt (tips this) 0)]
   else [])
  ++ (if truthy (loadingScreen this)
      then [SetStyleDisplay LoadingScreen "block"] else []).

(** The timers a call adds to the page: the tip interval, if any. *)
Definition startedTimers (this : MB_AsyncLoadController) (id : TimerId)
  : list Timer :=
  if startsTimer this then [mkTimer id 10000 (TipTick this)] else [].

(** The page when [initLoadOperation] of js/index.js returns. *)
Definition startPageIndexJs (this : MB_AsyncLoadController) (pg : Page U)
  : Page U :=
  {| user := user pg;
     timers := timers pg ++ startedTimers this (nextTimerId pg);
     nextTimerId := if startsTimer this then Pos.succ (nextTimerId pg)
                    else nextTimerId pg;
     trace := trace pg ++ startEventsIndexJs this (nextTimerId pg) |}.

Definition stepEventsIndexJs (n idx : nat) (op : MB_AsyncLoadOperation U)
  : list Event :=
  [SetTextContent LoadingText (text op);
   SetStyleWidth LoadingProgressBar (progressText n idx);
   FuncCalled idx; FuncReturned idx].

Fixpoint stepsEventsIndexJs (n idx : nat)
    (ops : list (MB_AsyncLoadOperation U)) : list Event :=
  match ops with
  | [] => []
  | op :: ops' =>
      stepEventsIndexJs n idx op ++ stepsEventsIndexJs n (S idx) ops'
  end.

Definition finishEventsIndexJs (this : MB_AsyncLoadController)
  : list Event :=
  SetStyleDisplay LoadingScreen "none"
    :: (if truthy (loadingTips this)
        then [SetTextContent LoadingTips ""] else []).

(** The sinks the two handlers of js/index.js write without a guard. *)
Definition sinksPresentIndexJs (this : MB_AsyncLoadController) : bool :=
  truthy (loadingText this) && truthy (loadingProgressBar this)
  && truthy (loadingScreen this).

(** A call of [initLoadOperation]: the controller and the arguments. *)
Definition Call : Type :=
  MB_AsyncLoadController * list (MB_AsyncLoadOperation U)
  * option (JsFunction U).

Definition callTaskIndexJs (c : Call) : Task U :=
  CallInitIndexJs (fst (fst c)) (snd (fst c)) (snd c).

Definition isClearInterval (e : Event) : bool :=
  match e with
  | ClearIntervalCalled _ => true
  | _ => false
  end.

Definition writesPercentage (e : Event) : bool :=
  match e with
  | SetTextContent LoadingPercentage _ => true
  | _ => false
  end.

(** A stretch of execution that leaves the timers alone: the page has
    the same timers afterwards, and the events added hold no call of
    [clearInterval]. *)
Definition keepsTimers (pg pg' : Page U) : Prop :=
  timers pg' = timers pg
  /\ exists E, trace pg' = trace pg ++ E
               /\ List.filter isClearInterval E = [].

End VocabularyIndexJs.

(** ** The call at the end of js/index.js *)

Section Bootstrap.

Context {U : Type}.

(** What a caller hands over as [funcList]: an array of operations, or,
    as the call at the end of js/index.js does, one operation. *)
Inductive FuncListArgument :=
| ArrayOf (operations : list (MB_AsyncLoadOperation U))
| Operation (operation : MB_AsyncLoadOperation U).

(** [initLoadOperation] of js/index.js on such an argument: an operation
    has no method [forEach]. *)
Definition initLoadOperationIndexJsOn (this : MB_AsyncLoadController)
    (funcList : FuncListArgument) (callback : option (JsFunction U))
  : Js U unit :=
  match funcList with
  | ArrayOf operations => initLoadOperationIndexJs this operations callback
  | Operation _ =>
      tipInterval <-
        lift (if truthy (loadingTips this) && (0 <? length (tips this))%nat
              then
                id <- setInterval (TipTick this) 10000 ;;
                onElement (loadingTips this)
                  (SetTextContent LoadingTips (stringAt (tips this) 0)) ;;
                ret (Some id)
              else ret None) ;;
      lift (if truthy (loadingScreen this)
            then onElement (loadingScreen this)
                   (SetStyleDisplay LoadingScreen "block")
            else ret tt) ;;
      throw (TypeError "funcList.forEach is not a function")
  end.

End Bootstrap.

(** ** Timer identifiers *)

Section TimerIds.

Context {U : Type}.

(** Every interval alive was handed out before the next identifier. *)
Definition timersKnown (pg : Page U) : Prop :=
  Forall (fun t => (timer_id t < nextTimerId pg)%positive) (timers pg).

End TimerIds.

(** ** Start-up: the compatibility check of [window.onload] *)

Module Startup.

(** What the check asks of the host. *)
Record Browser := mkBrowser {
  (* is [window.WebGLRenderingContext] truthy? *)
  webGLRenderingContext : bool;
  (* [canvas.getContext(id)]: a context, [null], or an exception *)
  getContext : string -> Completion (option string);
  (* ["WebSocket" in window] *)
  webSocket : bool;
  (* [navigator.getGamepads]: absent, or whether what it returns is
     truthy *)
  getGamepads : option bool;
  userAgent : string;
  (* [document.getElementById("noSupport")] *)
  noSupport : option HTMLElement
}.

(** What [webGLSupported] hands back: [false], [null] or a context. *)
Inductive Support :=
| SupportFalse
| SupportNull
| SupportContext (c : string).

Definition isTruthy (s : Support) : bool :=
  match s with
  | SupportContext _ => true
  | _ => false
  end.

(** [!!window.WebGLRenderingContext && (canvas.getContext("webgl") ||
    canvas.getContext("experimental-webgl"))], [false] on an exception. *)
Definition webGLSupported (b : Browser) : Support :=
  if webGLRenderingContext b
  then
    match getContext b "webgl" with
    | Throw _ => SupportFalse
    | Normal (Some c) => SupportContext c
    | Normal None =>
        match getContext b "experimental-webgl" with
        | Throw _ => SupportFalse
        | Normal (Some c) => SupportContext c
        | Normal None => SupportNull
        end
    end
  else SupportFalse.

Definition webSocketsSupported (b : Browser) : bool := webSocket b.

(** What the check leaves behind: the console warnings, and the value
    written to the [display] style of the "noSupport" element. *)
Record Report := mkReport {
  warnings : list string;
  noSupportDisplay : option string
}.

Definition warn (msg : string) (r : Report) : Report :=
  mkReport (warnings r ++ [msg]) (noSupportDisplay r).

(** [s.indexOf(t) > -1] *)
Definition includes (s t : string) : bool :=
  match String.index 0 t s with
  | Some _ => true
  | None => false
  end.

Definition consoleWarn (msg : string) : St Report unit :=
  fun r => (warn msg r, Normal tt).

(** [document.getElementById("noSupport").style.display = d] *)
Definition setNoSupportDisplay (b : Browser) (d : string)
  : St Report unit :=
  match noSupport b with
  | Some _ => fun r => (mkReport (warnings r) (Some d), Normal tt)
  | None => throw (TypeError "Cannot read properties of null")
  end.

(** An assignment to a binding declared [const]. *)
Definition assignToConst : St Report unit :=
  throw (TypeError "Assignment to constant variable.").

(** [navigator.getGamepads()], as the truthiness of what it returns. *)
Definition callGetGamepads (b : Browser) : St Report bool :=
  match getGamepads b with
  | Some v => ret v
  | None => throw (TypeError "navigator.getGamepads is not a function")
  end.

(** The function of the step "Checking compatibility...";
    [onlinePlayEnabled] and [gamepadSupported] are declared [const]. *)
Definition checkCompatibility (b : Browser) : JsFunction Report :=
  (if negb (isTruthy (webGLSupported b))
   then
     setNoSupportDisplay b "flex" ;;
     throw (Error "Current browser does not support WebGL.")
   else ret tt) ;;
  (if negb (webSocketsSupported b)
   then
     consoleWarn "The current browser does not support WebSockets. The game will still be playable, but online play is disabled." ;;
     assignToConst
   else ret tt) ;;
  gamepads <- callGetGamepads b ;;
  (if negb gamepads
   then
     consoleWarn "The current browser does not support Gamepad API. The game will still be playable, but use of gamepads is disabled." ;;
     assignToConst
   else ret tt) ;;
  (if includes (userAgent b) "MSIE" || includes (userAgent b) "Trident/"
   then consoleWarn "Internet Explorer is not supported. The game will still be playable, but some features may not work as expected."
   else ret tt) ;;
  ret VUndefined.

(** Everything the check looks for is there. *)
Definition compatible (b : Browser) : bool :=
  isTruthy (webGLSupported b) && webSocketsSupported b
  && match getGamepads b with Some true => true | _ => false end.

(** The list [window.onload] hands to [initLoadOperation]: the check, then
    the other steps. *)
Definition onloadOperations (b : Browser)
    (others : list (MB_AsyncLoadOperation Report))
  : list (MB_AsyncLoadOperation Report) :=
  mkOperation "Checking compatibility..." (checkCompatibility b) :: others.

(** A browser that has everything but WebSockets. *)
Definition withoutWebSockets : Browser :=
  {| webGLRenderingContext := true;
     getContext := fun id => Normal (Some id);
     webSocket := false;
     getGamepads := Some true;
     userAgent := "Mozilla/5.0";
     noSupport := Some "noSupport" |}.

End Startup.

(** ** More of the Number operations *)

Module Float64.

Definition add : spec_float -> spec_float -> spec_float :=
  SFadd Number.prec Number.emax.
Definition sub : spec_float -> spec_float -> spec_float :=
  SFsub Number.prec Number.emax.
Definition neg : spec_float -> spec_float := SFopp.

(** [x >= y] *)
Definition geb (x y : spec_float) : bool := SFleb y x.

(** [x < y] *)
Definition ltb (x y : spec_float) : bool := SFltb x y.

End Float64.

(** ** [MB_StringUtility] *)

Module MB_StringUtility.

Definition uppercaseChars : string := "ABCDEFGHIJKLMNOPQRSTUVWXYZ".
Definition lowercaseChars : string := "abcdefghijklmnopqrstuvwxyz".
Definition numberChars : string := "0123456789".
Definition specialChars : string := "!@#$%^&*()-_=+[]{}|;:,.<>?".

(** [s.charAt(i)]: the character at an index inside the string, the empty
    string at any other; [NaN] is taken as 0. *)
Definition charAt (s : string) (i : Number.Integral) : string :=
  let at_ (n : nat) :=
    match String.get n s with
    | Some c => String c EmptyString
    | None => ""
    end in
  match i with
  | Number.Int z => if (0 <=? z)%Z then at_ (Z.to_nat z) else ""
  | Number.NaN => at_ 0%nat
  | Number.Infinity _ => ""
  end.

(** [charset += chars] where [charset] is declared [const]: the
    assignment throws. *)
Definition appendToConst (charset chars : string) : Completion string :=
  Throw (TypeError "Assignment to constant variable.").

(** The loop [for (let i = 0; i < length; i++) result +=
    charset.charAt(Math.floor(Math.random() * charset.length))], from
    the test [i < length] on.  The counter [i] is a Number, as in the
    source, and so is [length]; [random n] is what the call of
    [Math.random()] returns after [n] earlier calls.  [fuel] bounds the
    number of tests made: the answer is [None] when the loop has not
    ended by then. *)
Fixpoint appendRandomChars (fuel : nat) (charset : string)
    (random : nat -> spec_float) (length i : spec_float) (n : nat)
    (result : string) : option string :=
  match fuel with
  | O => None
  | S fuel' =>
      if Float64.ltb i length
      then
        appendRandomChars fuel' charset random length
          (Float64.add i (Number.ofZ 1)) (S n)
          (result
             ++ charAt charset
                  (Number.floor
                     (Number.mul (random n)
                        (Number.ofNat (String.length charset)))))%string
      else Some result
  end.

(** [randomString(length, useUppercase = false, useNumbers = true,
    useLowercase = true, useSpecialChars = false)]; an argument left out
    is [None].  The result is [None] when the loop is still running after
    [fuel] tests. *)
Definition randomString (fuel : nat) (length : spec_float)
    (useUppercase useNumbers useLowercase useSpecialChars : option bool)
    (random : nat -> spec_float) : option (Completion string) :=
  let useUppercase := default false useUppercase in
  let useNumbers := default true useNumbers in
  let useLowercase := default true useLowercase in
  let useSpecialChars := default false useSpecialChars in
  let charset := "" in
  if useUppercase then Some (appendToConst charset uppercaseChars)
  else if useNumbers then Some (appendToConst charset numberChars)
  else if useLowercase then Some (appendToConst charset lowercaseChars)
  else if useSpecialChars then Some (appendToConst charset specialChars)
  else
    match appendRandomChars fuel charset random length (Number.ofZ 0) 0 ""
    with
    | Some result => Some (Normal result)
    | None => None
    end.

End MB_StringUtility.

(** ** [MB_NetworkManager.openRoom] *)

Module MB_NetworkManager.

(** The five callbacks of the [callbacks] argument. *)
Inductive Callback :=
| onmessage
| onicecandidate
| onerror
| onopen
| onclose.

(** A data channel: the label it was created with and the handlers
    assigned to it, each forwarding to the callback of the same name. *)
Record DataChannel := mkDataChannel {
  label : string;
  forwards : list Callback
}.

(** The state [openRoom] works on: the labels with which
    [peerConnection.createDataChannel] was called, and the field
    [currentDataChannel]. *)
Record MB_NetworkManager := mkNetworkManager {
  createdDataChannels : list string;
  currentDataChannel : option DataChannel
}.

(** [openRoom(callbacks)]: the label is computed before the channel is
    created; [None] when [randomString] has not returned within [fuel]
    tests of its loop. *)
Definition openRoom (fuel : nat) (this : MB_NetworkManager)
    (random : nat -> spec_float)
  : option (MB_NetworkManager * Completion unit) :=
  match MB_StringUtility.randomString fuel (Number.ofZ 10) (Some false)
          (Some true) (Some true) (Some false) random with
  | None => None
  | Some (Throw e) => Some (this, Throw e)
  | Some (Normal s) =>
      let label := ("MB_GameStateChannel_" ++ s)%string in
      Some (mkNetworkManager (createdDataChannels this ++ [label])
              (Some (mkDataChannel label
                       [onmessage; onicecandidate; onerror; onopen;
                        onclose])),
            Normal tt)
  end.

End MB_NetworkManager.

(** ** [MB_HTMLElementUtility]: hiding and showing elements *)

Module MB_HTMLElementUtility.

(** An element of the page, and the [style.display] of every element. *)
Definition Element := nat.
Definition Styles := Element -> string.

(** [element.style.display = display]; [null] stands where the page has
    no such element. *)
Definition setStyleDisplay (element : option Element) (display : string)
  : St Styles unit :=
  match element with
  | Some e =>
      fun σ => (fun e' => if Nat.eqb e' e then display else σ e', Normal tt)
  | None => throw (TypeError "Cannot read properties of null")
  end.

(** [for (const x of l) body] *)
Fixpoint forOf {Σ A} (l : list A) (body : A -> St Σ unit) : St Σ unit :=
  match l with
  | [] => ret tt
  | x :: l' => body x ;; forOf l' body
  end.

Definition hideElements (elements : list (option Element))
  : St Styles unit :=
  forOf elements (fun element => setStyleDisplay element "none").


(** The elements of an array up to its first [null]. *)
Fixpoint beforeNull (elements : list (option Element)) : list Element :=
  match elements with
  | Some e :: rest => e :: beforeNull rest
  | _ => []
  end.

Definition noNull (elements : list (option Element)) : bool :=
  List.forallb (fun x => match x with Some _ => true | None => false end)
    elements.

Definition listed (e : Element) (l : list Element) : bool :=
  List.existsb (Nat.eqb e) l.

End MB_HTMLElementUtility.

(** ** [MB_HTMLElementUtility.createTreeView] *)

Module TreeView.

(** A function handed over as a listener, by name. *)
Definition Listener := string.

(** [MB_TreeViewItem]: [children] and the three listeners are optional. *)
#[warnings="-register-all"]
Inductive MB_TreeViewItem :=
| mkTreeViewItem (text : string)
    (children : option (list MB_TreeViewItem))
    (onclick ondblclick oncontextmenu : option Listener).

(** An element of the document: its tag, its text, its child elements and
    the listeners added to it, each with its event type. *)
Record Node := mkNode {
  tagName : string;
  textContent : string;
  childNodes : list nat;
  listeners : list (string * Listener)
}.

(** The elements made so far; an element is referred to by its
    position. *)
Abbreviation Document := (list Node) (only parsing).

(** [document.createElement(tag)] *)
Definition createElement (tag : string) : St Document nat :=
  fun d => (d ++ [mkNode tag "" [] []], Normal (length d)).

(** A write to an element; a reference that is no element of the document
    stands for [null]. *)
Definition update (e : nat) (f : Node -> Node) : St Document unit :=
  fun d =>
    match d !! e with
    | Some n => (<[e := f n]> d, Normal tt)
    | None => (d, Throw (TypeError "Cannot read properties of null"))
    end.

(** [e.textContent = s]: the text replaces whatever the element held. *)
Definition setTextContent (e : nat) (s : string) : St Document unit :=
  update e (fun n => mkNode (tagName n) s [] (listeners n)).

(** [parent.appendChild(child)] *)
Definition appendChild (parent child : nat) : St Document unit :=
  update parent
    (fun n => mkNode (tagName n) (textContent n) (childNodes n ++ [child])
                (listeners n)).

(** [e.addEventListener(type, listener)] *)
Definition addEventListener (e : nat) (type : string) (l : Listener)
  : St Document unit :=
  update e
    (fun n => mkNode (tagName n) (textContent n) (childNodes n)
                (listeners n ++ [(type, l)])).

(** [if (listener) li.addEventListener(type, listener)] *)
Definition addIfGiven (li : nat) (type : string) (l : option Listener)
  : St Document unit :=
  match l with
  | Some l => addEventListener li type l
  | None => ret tt
  end.

(** [l.forEach(body)] *)
Definition forEach {Σ A} (body : A -> St Σ unit) : list A -> St Σ unit :=
  fix go (l : list A) : St Σ unit :=
    match l with
    | [] => ret tt
    | x :: l' => body x ;; go l'
    end.

(** The arrow function given to [items.forEach]. *)
Fixpoint createTreeViewItem (targetElement : nat) (item : MB_TreeViewItem)
  : St Document unit :=
  match item with
  | mkTreeViewItem text children onclick ondblclick oncontextmenu =>
      li <- createElement "li" ;;
      setTextContent li text ;;
      appendChild targetElement li ;;
      match children with
      | Some children =>
          ul <- createElement "ul" ;;
          forEach (createTreeViewItem ul) children ;;
          appendChild li ul
      | None => ret tt
      end ;;
      addIfGiven li "click" onclick ;;
      addIfGiven li "dblclick" ondblclick ;;
      addIfGiven li "contextmenu" oncontextmenu
  end.

(** [createTreeView(targetElement, items)] *)
Definition createTreeView (targetElement : nat)
    (items : list MB_TreeViewItem) : St Document unit :=
  forEach (createTreeViewItem targetElement) items.

(** *** What the tree view is to look like *)

(** The elements made for an item: its [li], and a [ul] if it has a
    [children] array, with the elements made for the children. *)
Fixpoint size (item : MB_TreeViewItem) : nat :=
  match item with
  | mkTreeViewItem _ children _ _ _ =>
      S (match children with
         | None => 0
         | Some cs => S (list_sum (map size cs))
         end)
  end.

Definition sizes (items : list MB_TreeViewItem) : nat :=
  list_sum (map size items).

(** The listeners an item gives, in the order they are added. *)
Definition givenListeners (onclick ondblclick oncontextmenu : option Listener)
  : list (string * Listener) :=
  match onclick with Some l => [("click", l)] | None => [] end
  ++ match ondblclick with Some l => [("dblclick", l)] | None => [] end
  ++ match oncontextmenu with Some l => [("contextmenu", l)] | None => [] end.

(** [P] holds of the elements of two lists of the same length, pair by
    pair. *)
Definition pairwise {A B} (P : A -> B -> Prop)
  : list A -> list B -> Prop :=
  fix go (la : list A) (lb : list B) {struct lb} : Prop :=
    match lb, la with
    | [], [] => True
    | b :: lb', a :: la' => P a b /\ go la' lb'
    | _, _ => False
    end.

(** In the document [d] the element [li] shows [item]: it is an [li]
    with the item's text and listeners; it has no child element when the
    item has no [children] array, and otherwise one, a [ul] whose children
    show the item's children in order. *)
Fixpoint shows (d : Document) (li : nat) (item : MB_TreeViewItem) : Prop :=
  match item with
  | mkTreeViewItem text children onclick ondblclick oncontextmenu =>
      match children with
      | None =>
          d !! li
          = Some (mkNode "li" text []
                    (givenListeners onclick ondblclick oncontextmenu))
      | Some cs =>
          exists ul lis,
            d !! li
            = Some (mkNode "li" text [ul]
                      (givenListeners onclick ondblclick oncontextmenu))
            /\ d !! ul = Some (mkNode "ul" "" lis [])
            /\ pairwise (shows d) lis cs
      end
  end.

(** Where the elements of consecutive items are made, from [base] on. *)
Fixpoint place (base : nat) (items : list MB_TreeViewItem) : list nat :=
  match items with
  | [] => []
  | item :: items' => base :: place (base + size item) items'
  end.

(** [shows], with the positions of the elements made explicit. *)
Fixpoint laidOut (d : Document) (li : nat) (item : MB_TreeViewItem)
  : Prop :=
  match item with
  | mkTreeViewItem text children onclick ondblclick oncontextmenu =>
      match children with
      | None =>
          d !! li
          = Some (mkNode "li" text []
                    (givenListeners onclick ondblclick oncontextmenu))
      | Some cs =>
          d !! li
          = Some (mkNode "li" text [S li]
                    (givenListeners onclick ondblclick oncontextmenu))
          /\ d !! S li = Some (mkNode "ul" "" (place (S (S li)) cs) [])
          /\ pairwise (laidOut d) (place (S (S li)) cs) cs
      end
  end.

End TreeView.

(** ** [MB_LevelManager]: [displayLevel] and [playLevel] *)

Module MB_LevelManager.

Import MB_HTMLElementUtility.

Record MB_Level := mkLevel {
  name : string;
  thumbnail_url : string;
  id : string;
  data : string;
  type : string;
  description : string
}.

(** The fields [displayLevel] and [playLevel] read, as the constructor
    takes them from its options; an element the page does not have is
    [null].  The class never assigns a field [networkManager]. *)
Record MB_LevelManager := mkLevelManager {
  levelScreen : option Element;
  levelImageHolder : option Element;
  levelInfoContainer : option Element;
  levelHostBtn : option Element;
  levelCloseHostBtn : option Element;
  levelJoinCodeDisplay : option Element;
  levelJoinCodeInput : option Element;
  levelPlayBtn : option Element;
  levelPlayersAmountContainer : option Element;
  levelJoinedPlayersList : option Element;
  asyncLoadController : option MB_AsyncLoadController
}.

(** What [displayLevel] writes, element by element: the [display] style,
    the [src] of an image, the [innerHTML], and the level the [onclick]
    listener is going to play. *)
Record Screen := mkScreen {
  styles : Styles;
  src : Element -> string;
  innerHTML : Element -> string;
  onclick : Element -> option MB_Level
}.

Definition assign {A} (e : Element) (v : A) (f : Element -> A)
  : Element -> A :=
  fun e' => if Nat.eqb e' e then v else f e'.

(** A write to a property of an element held in a field. *)
Definition write (element : option Element) (f : Element -> Screen -> Screen)
  : St Screen unit :=
  match element with
  | Some e => fun s => (f e s, Normal tt)
  | None => throw (TypeError "Cannot read properties of null")
  end.

(** A utility that works on the styles, run on the screen. *)
Definition onStyles (c : St Styles unit) : St Screen unit :=
  fun s =>
    let '(σ, r) := c (styles s) in
    (mkScreen σ (src s) (innerHTML s) (onclick s), r).

(** The template literal of [displayLevel]. *)
Definition levelInfo (level : MB_Level) : string :=
  ("
            <h1>" ++ name level ++ "</h1>
            <p>" ++ description level ++ "</p>
        ")%string.

Definition multiplayerElements (this : MB_LevelManager)
  : list (option Element) :=
  [levelHostBtn this; levelCloseHostBtn this; levelJoinCodeDisplay this;
   levelJoinCodeInput this; levelPlayersAmountContainer this;
   levelJoinedPlayersList this].

(** [displayLevel(level)] *)
Definition displayLevel (this : MB_LevelManager) (level : MB_Level)
  : St Screen unit :=
  write (levelScreen this)
    (fun e s => mkScreen (assign e "block" (styles s)) (src s)
                  (innerHTML s) (onclick s)) ;;
  write (levelImageHolder this)
    (fun e s => mkScreen (styles s) (assign e (thumbnail_url level) (src s))
                  (innerHTML s) (onclick s)) ;;
  write (levelInfoContainer this)
    (fun e s => mkScreen (styles s) (src s)
                  (assign e (levelInfo level) (innerHTML s)) (onclick s)) ;;
  onStyles (hideElements (multiplayerElements this)) ;;
  write (levelPlayBtn this)
    (fun e s => mkScreen (styles s) (src s) (innerHTML s)
                  (assign e (Some level) (onclick s))).

Section PlayLevel.

Context {U : Type}.

(** [() => { this.networkManager.init(level); }] *)
Definition loadLevel (this : MB_LevelManager) (level : MB_Level)
  : JsFunction U :=
  throw (TypeError "Cannot read properties of undefined").

Definition playLevelOperations (this : MB_LevelManager) (level : MB_Level)
  : list (MB_AsyncLoadOperation U) :=
  [mkOperation "Loading level..." (loadLevel this level)].

(** [playLevel(level)]: one call of [initLoadOperation], without a
    callback. *)
Definition playLevel (this : MB_LevelManager) (level : MB_Level)
  : Js U unit :=
  match asyncLoadController this with
  | None => throw (TypeError "Cannot read properties of undefined")
  | Some c => initLoadOperation c (playLevelOperations this level) None
  end.

End PlayLevel.

(** The level manager of the page, on the demo controller. *)
Definition levelManager : MB_LevelManager :=
  {| levelScreen := Some 0%nat;
     levelImageHolder := Some 1%nat;
     levelInfoContainer := Some 2%nat;
     levelHostBtn := Some 3%nat;
     levelCloseHostBtn := Some 4%nat;
     levelJoinCodeDisplay := Some 5%nat;
     levelJoinCodeInput := Some 6%nat;
     levelPlayBtn := Some 7%nat;
     levelPlayersAmountContainer := Some 8%nat;
     levelJoinedPlayersList := Some 9%nat;
     asyncLoadController := Some Demo.controller |}.

End MB_LevelManager.

(** ** [MB_StorageManager.localStorageAvailable] *)

Module MB_StorageManager.

Import stdpp.strings stdpp.gmap.

(** The items of a [Storage] object. *)
Abbreviation Items := (gmap string string) (only parsing).

(** What the probe can be thrown: a [DOMException] with its name, or a
    [TypeError]. *)
Inductive Exception :=
| DOMException (name : string)
| TypeError.

Inductive Outcome (A : Type) :=
| Returned (a : A)
| Thrown (e : Exception).
Arguments Returned {A} a.
Arguments Thrown {A} e.

(** How the host answers [window[type]]. *)
Inductive Access :=
| Denied     (* the getter throws a "SecurityError" [DOMException] *)
| Missing    (* the property is [undefined] or [null] *)
| Granted.   (* a [Storage] object *)

Record Host := mkHost {
  access : Access;
  (* can the host store this value under this key, given the items? *)
  accepts : Items -> string -> string -> bool
}.

(** [window[type]] *)
Definition windowStorage (h : Host) : Outcome bool :=
  match access h with
  | Denied => Thrown (DOMException "SecurityError")
  | Missing => Returned false
  | Granted => Returned true
  end.

(** [storage.setItem(key, value)] *)
Definition setItem (h : Host) (key value : string) (items : Items)
  : Items * Outcome unit :=
  if accepts h items key value
  then (<[key := value]> items, Returned tt)
  else (items, Thrown (DOMException "QuotaExceededError")).

(** [storage.removeItem(key)] *)
Definition removeItem (key : string) (items : Items) : Items :=
  delete key items.

Definition x : string := "__storage_test__".

(** [storageAvailable(type)]: the [try] block, then the [catch] clause
    with the value the variable [storage] has by then. *)
Definition storageAvailable (h : Host) (items : Items) : Items * bool :=
  let catch (storage : bool) (e : Exception) (items' : Items) :=
    (items',
     match e with
     | DOMException name =>
         String.eqb name "QuotaExceededError" && storage
         && negb (size items' =? 0)%nat
     | TypeError => false
     end) in
  match windowStorage h with
  | Thrown e => catch false e items
  | Returned false => catch false TypeError items
  | Returned true =>
      match setItem h x x items with
      | (items1, Thrown e) => catch true e items1
      | (items1, Returned _) => (removeItem x items1, true)
      end
  end.

(** [localStorageAvailable()]; [storageAvailable] does not throw. *)
Definition localStorageAvailable (h : Host) (items : Items)
  : Items * bool :=
  storageAvailable h items.

End MB_StorageManager.

(** ** [MB_PerformanceManager.tick] *)

Module MB_PerformanceManager.

(** The settings object [tick] reads: [display] may be missing. *)
Record DisplaySettings := mkDisplaySettings {
  debugMode : bool
}.

Record Settings := mkSettings {
  display : option DisplaySettings
}.

(** The text written to the overlay, by the four values substituted into
    the template. *)
Record DebugText := mkDebugText {
  shownFps : nat;
  shownSeconds : spec_float;
  shownFrameCount : nat;
  shownPlayerMovement : string
}.

(** The manager's fields and the two properties of the overlay element it
    writes. *)
Record MB_PerformanceManager := mkPerformanceManager {
  (* [options.debugOverlay], [null] when the page has no such element *)
  debugOverlay : option HTMLElement;
  (* [options.inputManager], as the text of its [playerMovementInput] *)
  inputManager : option string;
  lastFrame : spec_float;
  frameCount : nat;
  fps : option nat;
  overlayDisplay : option string;
  overlayInnerText : option DebugText
}.

Definition constructor (debugOverlay : option HTMLElement)
    (inputManager : option string) (now : spec_float)
  : MB_PerformanceManager :=
  mkPerformanceManager debugOverlay inputManager now 0 None None None.

(** Has a second passed since [$lastFrame]?  [$deltaTime >= 1000] *)
Definition deltaTime (this : MB_PerformanceManager) (now : spec_float)
  : spec_float :=
  Float64.sub now (lastFrame this).


(** [tick()]: [now] is what [performance.now()] returns, [settings] how
    [JSON.parse(localStorage.getItem("MB_Settings")) || mb_defaultSettings]
    ends. *)
Definition tick (now : spec_float) (settings : Completion Settings)
  : St MB_PerformanceManager unit :=
  fun this =>
    let currentFrame := now in
    let deltaTime := deltaTime this now in
    match settings with
    | Throw e => (this, Throw e)
    | Normal settings =>
        let this1 :=
          mkPerformanceManager (debugOverlay this) (inputManager this)
            (lastFrame this) (S (frameCount this)) (fps this)
            (overlayDisplay this) (overlayInnerText this) in
        if Float64.geb deltaTime (Number.ofZ 1000)
        then
          let this2 :=
            mkPerformanceManager (debugOverlay this) (inputManager this)
              currentFrame 0 (Some (frameCount this1))
              (overlayDisplay this) (overlayInnerText this) in
          match debugOverlay this, display settings with
          | None, _ | _, None =>
              (this2, Throw (TypeError "Cannot read properties of undefined"))
          | Some _, Some d =>
              let this3 :=
                mkPerformanceManager (debugOverlay this) (inputManager this)
                  currentFrame 0 (Some (frameCount this1))
                  (Some (if debugMode d then "block" else "none"))
                  (overlayInnerText this) in
              match inputManager this with
              | None =>
                  (this3,
                   Throw (TypeError "Cannot read properties of undefined"))
              | Some movement =>
                  (mkPerformanceManager (debugOverlay this)
                     (inputManager this) currentFrame 0
                     (Some (frameCount this1))
                     (Some (if debugMode d then "block" else "none"))
                     (Some (mkDebugText (frameCount this1)
                              (Number.div deltaTime (Number.ofZ 1000))
                              0 movement)),
                   Normal tt)
              end
          end
        else (this1, Normal tt)
    end.

(** Frames rendered one after the other: each is a reading of the clock
    and the settings found. *)
Fixpoint ticks (frames : list (spec_float * Settings))
  : St MB_PerformanceManager unit :=
  match frames with
  | [] => ret tt
  | (now, settings) :: rest => tick now (Normal settings) ;; ticks rest
  end.

End MB_PerformanceManager.

(** ** [THREE.Vector2] *)

Module THREE.

(** A vector of the library, by its two components. *)
Record Vector2 := mkVector2 {
  x : spec_float;
  y : spec_float
}.

End THREE.

(** ** [MB_InputManager]: the keyboard *)

Module MB_InputManager.

Record MB_InputManager := mkInputManager {
  playerMovementInput : THREE.Vector2;
  inputThreshold : spec_float
}.

(** [constructor(inputThreshold = 1)] *)
Definition constructor (inputThreshold : option spec_float)
  : MB_InputManager :=
  mkInputManager (THREE.mkVector2 (Number.ofZ 0) (Number.ofZ 0))
    (default (Number.ofZ 1) inputThreshold).

(** A "keydown" event: the key, and whether
    [event.target.matches("input,textarea")]. *)
Record KeyboardEvent := mkKeyboardEvent {
  key : string;
  inField : bool
}.

Definition isOneOf (k : string) (keys : list string) : bool :=
  List.existsb (String.eqb k) keys.

Definition set_x (v : spec_float) (this : MB_InputManager)
  : MB_InputManager :=
  mkInputManager (THREE.mkVector2 v (THREE.y (playerMovementInput this)))
    (inputThreshold this).

Definition set_y (v : spec_float) (this : MB_InputManager)
  : MB_InputManager :=
  mkInputManager (THREE.mkVector2 (THREE.x (playerMovementInput this)) v)
    (inputThreshold this).

(** The "keydown" listener of [subscribeToEvents], up to the call of
    [onMovementChange]: the [switch] on [event.key]. *)
Definition keydown (event : KeyboardEvent) (this : MB_InputManager)
  : MB_InputManager :=
  if negb (inField event)
  then
    if isOneOf (key event) ["W"; "w"; "ArrowUp"]
    then set_y (inputThreshold this) this
    else if isOneOf (key event) ["A"; "a"; "ArrowLeft"]
    then set_x (Float64.neg (inputThreshold this)) this
    else if isOneOf (key event) ["S"; "s"; "ArrowDown"]
    then set_y (Float64.neg (inputThreshold this)) this
    else if isOneOf (key event) ["D"; "d"; "ArrowRight"]
    then set_x (inputThreshold this) this
    else this
  else this.

(** The manager after a series of key presses. *)
Definition keydowns (events : list KeyboardEvent) (this : MB_InputManager)
  : MB_InputManager :=
  fold_left (fun this event => keydown event this) events this.

(** A press, outside a text field, of one of the keys of an axis. *)
Definition horizontalKey (event : KeyboardEvent) : bool :=
  negb (inField event)
  && isOneOf (key event) ["A"; "a"; "ArrowLeft"; "D"; "d"; "ArrowRight"].

Definition verticalKey (event : KeyboardEvent) : bool :=
  negb (inField event)
  && isOneOf (key event) ["W"; "w"; "ArrowUp"; "S"; "s"; "ArrowDown"].

End MB_InputManager.

(** ** [MB_GamepadManager]: sticks and triggers *)

Module MB_GamepadManager.

Record GamepadButton := mkGamepadButton {
  value : spec_float
}.

Record Gamepad := mkGamepad {
  axes : list spec_float;
  buttons : list GamepadButton
}.

(** What [navigator.getGamepads()] returns: an array whose entries are a
    gamepad or [null]. *)
Definition Gamepads := list (option Gamepad).

(** A getter works on the console; it returns a value or [undefined]. *)
Definition Console := list string.

Definition consoleError (msg : string) : St Console unit :=
  fun c => (c ++ [msg], Normal tt).

(** [a[i] * t]: an index outside the array reads [undefined], and the
    product is [NaN]. *)
Definition scaled (a : list spec_float) (i : nat) (t : spec_float)
  : spec_float :=
  match a !! i with
  | Some v => Number.mul v t
  | None => S754_nan
  end.

(** [getRightStick()], [inputThreshold] being that of the input
    manager. *)
Definition getRightStick (inputThreshold : spec_float)
    (gamepads : Gamepads) : St Console (option THREE.Vector2) :=
  if (0 <? length gamepads)%nat
  then
    match gamepads !! 0%nat with
    | Some (Some gamepad) =>
        if (0 <? length (axes gamepad))%nat
        then ret (Some (THREE.mkVector2 (scaled (axes gamepad) 2 inputThreshold)
                          (scaled (axes gamepad) 3 inputThreshold)))
        else consoleError "Gamepad axes are not available." ;; ret None
    | _ => throw (TypeError "Cannot read properties of null")
    end
  else consoleError "No gamepads found." ;; ret None.

(** [getLeftTrigger()] *)
Definition getLeftTrigger (gamepads : Gamepads)
  : St Console (option spec_float) :=
  if (0 <? length gamepads)%nat
  then
    match gamepads !! 0%nat with
    | Some (Some gamepad) =>
        if (0 <? length (buttons gamepad))%nat
        then
          match buttons gamepad !! 0%nat with
          | Some b => ret (Some (value b))
          | None => throw (TypeError "Cannot read properties of undefined")
          end
        else consoleError "Gamepad buttons are not available." ;; ret None
    | _ => throw (TypeError "Cannot read properties of null")
    end
  else consoleError "No gamepads found." ;; ret None.

(** [getRightTrigger()] *)
Definition getRightTrigger (gamepads : Gamepads)
  : St Console (option spec_float) :=
  if (0 <? length gamepads)%nat
  then
    match gamepads !! 0%nat with
    | Some (Some gamepad) =>
        if (0 <? length (buttons gamepad))%nat
        then
          match buttons gamepad !! 1%nat with
          | Some b => ret (Some (value b))
          | None => throw (TypeError "Cannot read properties of undefined")
          end
        else consoleError "Gamepad buttons are not available." ;; ret None
    | _ => throw (TypeError "Cannot read properties of null")
    end
  else consoleError "No gamepads found." ;; ret None.

End MB_GamepadManager.

(** ** [MB_MathUtility] *)

Module MB_MathUtility.

(** [a + (b - a) * t] *)
Definition lerp (a b t : spec_float) : spec_float :=
  Float64.add a (Number.mul (Float64.sub b a) t).

(** [Math.random() * (max - min) + min], for the draw [u]. *)
Definition randomArbitrary (min max : spec_float) (u : spec_float)
  : spec_float :=
  Float64.add (Number.mul u (Float64.sub max min)) min.

(** A Number that is neither [NaN] nor an infinity. *)
Definition isFinite (x : spec_float) : bool :=
  match x with
  | S754_zero _ | S754_finite _ _ _ => true
  | _ => false
  end.

Definition isZero (x : spec_float) : bool :=
  match x with
  | S754_zero _ => true
  | _ => false
  end.

End MB_MathUtility.

(** ** The microtask checkpoint *)

Section Engine.

Context {U : Type}.
Implicit Types (w : World U) (pg : Page U) (h : Handler U).
Implicit Types (hs : list (Handler U)) (ps : list (PromiseState U)).

Lemma drain_idle fuel w : microtasks w = [] -> drain fuel w = w.
Proof. destruct fuel; simpl; [reflexivity|]. intros ->. reflexivity. Qed.

Lemma drain_S fuel w :
  microtasks w <> [] -> drain (S fuel) w = drain fuel (microtaskStep w).
Proof. simpl. destruct (microtasks w); congruence. Qed.

Lemma drain_stable fuel : forall w fuel',
  microtasks (drain fuel w) = [] -> (fuel <= fuel')%nat ->
  drain fuel' w = drain fuel w.
Proof.
  induction fuel as [|fuel IH]; intros w fuel' Hq Hle.
  - simpl in *. now apply drain_idle.
  - destruct fuel' as [|fuel']; [lia|].
    simpl in *. destruct (microtasks w); [reflexivity|].
    apply IH; [assumption|lia].
Qed.

Lemma pendingReactions_app ps1 ps2 :
  pendingReactions (ps1 ++ ps2)
  = (pendingReactions ps1 + pendingReactions ps2)%nat.
Proof.
  unfold pendingReactions. rewrite map_app.
  induction (map _ ps1) as [|x l IH]; simpl; [reflexivity|].
  rewrite IH. lia.
Qed.

Lemma pendingReactions_settled ps p (rs : list (Reaction U)) st :
  ps !! p = Some (Pending rs) ->
  (forall rs', st <> Pending rs') ->
  (pendingReactions (<[p := st]> ps) + length rs)%nat
  = pendingReactions ps.
Proof.
  intros Hp Hst.
  apply list_elem_of_split_length in Hp as (l1 & l2 & -> & ->).
  rewrite insert_app_r_alt by lia. rewrite Nat.sub_diag. simpl.
  rewrite !pendingReactions_app. unfold pendingReactions at 2 4. simpl.
  destruct st; [exfalso; eapply Hst; reflexivity | lia | lia].
Qed.

Lemma fulfillPromise_bound p v w :
  (jobsBound (fulfillPromise p v w) <= jobsBound w)%nat.
Proof.
  unfold fulfillPromise.
  destruct (promises w !! p) as [[rs| |]|] eqn:Hp; try lia.
  unfold jobsBound. simpl.
  rewrite length_app. unfold reactionJobs. rewrite length_map.
  pose proof (pendingReactions_settled _ _ rs (Fulfilled v) Hp) as H.
  specialize (H ltac:(congruence)). lia.
Qed.

Lemma rejectPromise_bound p e w :
  (jobsBound (rejectPromise p e w) <= jobsBound w)%nat.
Proof.
  unfold rejectPromise.
  destruct (promises w !! p) as [[rs| |]|] eqn:Hp; try lia.
  pose proof (pendingReactions_settled _ _ rs (Rejected e) Hp) as H.
  specialize (H ltac:(congruence)).
  assert (length (microtasks w ++ reactionJobs (Throw e) rs)
          = (length (microtasks w) + length rs)%nat) as Hlen.
  { rewrite length_app. unfold reactionJobs. now rewrite length_map. }
  destruct rs; unfold jobsBound; cbn [promises microtasks set_page
    set_microtasks set_promises]; rewrite Hlen; lia.
Qed.

Lemma settle_bound p r w : (jobsBound (settle p r w) <= jobsBound w)%nat.
Proof.
  destruct r as [v|e]; simpl.
  - unfold resolvePromise. destruct v; auto using fulfillPromise_bound.
  - apply rejectPromise_bound.
Qed.

Lemma microtaskStep_bound w :
  microtasks w <> [] -> (jobsBound (microtaskStep w) < jobsBound w)%nat.
Proof.
  unfold microtaskStep. destruct (microtasks w) as [|j q] eqn:Hq;
    [congruence|]. intros _.
  assert (jobsBound w = S (jobsBound (set_microtasks q w))) as ->.
  { unfold jobsBound. rewrite Hq. reflexivity. }
  unfold runJob. destruct (argument j).
  - destruct (runHandler (handler j) (page (set_microtasks q w)))
      as [pg r].
    eapply Nat.le_lt_trans; [apply settle_bound|].
    unfold jobsBound. simpl. lia.
  - eapply Nat.le_lt_trans; [apply settle_bound|]. lia.
Qed.

Lemma drain_quiescent fuel : forall w,
  (jobsBound w <= fuel)%nat -> microtasks (drain fuel w) = [].
Proof.
  induction fuel as [|fuel IH]; intros w Hb.
  - simpl. unfold jobsBound in Hb. destruct (microtasks w); simpl in *;
      [reflexivity|lia].
  - simpl. destruct (microtasks w) eqn:Hq; [assumption|].
    apply IH. assert (microtasks w <> []) as Hne by congruence.
    apply microtaskStep_bound in Hne. lia.
Qed.

(** The checkpoint always ends with an empty queue. *)
Lemma runMicrotasks_quiescent w : microtasks (runMicrotasks w) = [].
Proof. apply drain_quiescent. reflexivity. Qed.

(** Any run of jobs that empties the queue is the checkpoint. *)
Lemma runMicrotasks_drain fuel w :
  microtasks (drain fuel w) = [] -> runMicrotasks w = drain fuel w.
Proof.
  intros Hq. unfold runMicrotasks.
  destruct (Nat.le_gt_cases fuel (jobsBound w)) as [Hle|Hgt].
  - now apply drain_stable.
  - symmetry. apply drain_stable; [apply runMicrotasks_quiescent|lia].
Qed.

End Engine.

(** ** From the promise chain to handlers run in sequence *)

Section Chain.

Context {U : Type}.
Implicit Types (w : World U) (pg : Page U) (h : Handler U).
Implicit Types (hs : list (Handler U)) (ps pre : list (PromiseState U)).

(** Both arrow functions have a block body without [return]. *)
Lemma runHandler_value h pg pg' v :
  runHandler h pg = (pg', Normal v) -> v = VUndefined.
Proof.
  destruct h;
    unfold runHandler, stepThen, finalThen, stepThenIndexJs,
      finalThenIndexJs, bind, ret;
    repeat case_match; intros; simplify_eq; reflexivity.
Qed.

Lemma reduce_thenAll this (fl : list (MB_AsyncLoadOperation U)) funcs :
  forall idx p w,
    reduce (fun promise func idx =>
              promiseThen promise (StepThen this fl func idx))
      funcs idx p w
    = thenAll (stepHandlers this fl funcs idx) p w.
Proof.
  induction funcs as [|f fs IH]; intros idx p w; simpl; [reflexivity|].
  unfold bind. destruct (promiseThen _ _ w) as [w' [p'|e]];
    [apply IH|reflexivity].
Qed.

Lemma thenAll_snoc_bind {B} hs h (k : nat -> Js U B) : forall p w,
  bind (thenAll hs p) (fun q => bind (promiseThen q h) k) w
  = bind (thenAll (hs ++ [h]) p) k w.
Proof.
  induction hs as [|h' hs IH]; intros p w; simpl.
  - unfold bind, ret. destruct (promiseThen p h w) as [w' [p'|e]];
      reflexivity.
  - unfold bind at 1 2 4 5.
    destruct (promiseThen p h' w) as [w' [p'|e]]; [|reflexivity].
    apply (IH p' w').
Qed.

(** [then] on the newest promise, still pending and without reactions. *)
Lemma promiseThen_pending pre h w :
  promises w = pre ++ [Pending []] ->
  promiseThen (length pre) h w
  = (mkWorld (page w)
       ((pre ++ [Pending [(h, S (length pre))]]) ++ [Pending []])
       (microtasks w),
     Normal (S (length pre))).
Proof.
  intros Hps. unfold promiseThen, bind, newPromise. simpl. rewrite Hps.
  replace ((pre ++ [Pending []]) ++ [Pending []])
    with (pre ++ Pending [] :: [@Pending U []])
    by (now rewrite <- app_assoc).
  rewrite list_lookup_middle by reflexivity.
  rewrite insert_app_r_alt by lia. rewrite Nat.sub_diag.
  rewrite length_app, Nat.add_1_r. simpl.
  rewrite <- app_assoc. reflexivity.
Qed.

Lemma thenAll_pending hs : forall pre w,
  promises w = pre ++ [Pending []] ->
  thenAll hs (length pre) w
  = (mkWorld (page w) (pre ++ chainTail hs (length pre)) (microtasks w),
     Normal (length pre + length hs)%nat).
Proof.
  induction hs as [|h hs IH]; intros pre w Hps; simpl.
  - unfold ret. rewrite Nat.add_0_r. destruct w; simpl in *. now subst.
  - unfold bind. rewrite (promiseThen_pending _ _ _ Hps).
    specialize (IH (pre ++ [Pending [(h, S (length pre))]])).
    rewrite length_app in IH. simpl in IH.
    rewrite Nat.add_1_r in IH. rewrite IH by reflexivity. simpl.
    rewrite <- app_assoc. simpl.
    replace (length pre + S (length hs))%nat
      with (S (length pre + length hs)) by lia.
    reflexivity.
Qed.

(** The whole chain, started on a promise that is already fulfilled. *)
Lemma thenAll_fulfilled h hs pre v w :
  promises w = pre ++ [Fulfilled v] ->
  thenAll (h :: hs) (length pre) w
  = (mkWorld (page w)
       (pre ++ Fulfilled v :: chainTail hs (S (length pre)))
       (microtasks w ++ [mkJob h (Normal v) (S (length pre))]),
     Normal (S (length pre) + length hs)%nat).
Proof.
  intros Hps. simpl. unfold bind at 1.
  unfold promiseThen, bind, newPromise. simpl. rewrite Hps.
  replace ((pre ++ [Fulfilled v]) ++ [Pending []])
    with (pre ++ Fulfilled v :: [@Pending U []])
    by (now rewrite <- app_assoc).
  rewrite list_lookup_middle by reflexivity.
  rewrite length_app, Nat.add_1_r.
  pose proof (thenAll_pending hs (pre ++ [Fulfilled v])) as H.
  rewrite length_app, Nat.add_1_r in H.
  rewrite H by (simpl; now rewrite <- app_assoc).
  simpl. rewrite <- app_assoc. reflexivity.
Qed.

Lemma allHandlers_cons this (fl : list (MB_AsyncLoadOperation U)) ti cb :
  exists h hs, allHandlers this fl ti cb = h :: hs.
Proof.
  unfold allHandlers. destruct fl; simpl; eauto.
Qed.

(** The first two statements of [initLoadOperation]: the tip timer and
    the loading screen. *)
Lemma initLoadOperation_start {B} this (K : option TimerId -> Js U B) w :
  bind
    (lift (if truthy (loadingTips this) && (0 <? length (tips this))%nat
           then
             bind (setInterval (TipTick this) 10000)
               (fun id =>
                  bind (onElement (loadingTips this)
                          (SetTextContent LoadingTips
                             (stringAt (tips this) 0)))
                    (fun _ => ret (Some id)))
           else ret None))
    (fun tipInterval =>
       bind (lift (if truthy (loadingScreen this)
                   then onElement (loadingScreen this)
                          (ClassListRemove LoadingScreen "hidden")
                   else ret tt))
         (fun _ => K tipInterval)) w
  = K (startTimerId this (page w)) (set_page (startPage this (page w)) w).
Proof.
  destruct w as [[u ts nid tr] ps q].
  unfold startTimerId, startPage, startEvents, startsTimer.
  destruct this as [sc tx pc pb tp tl]; simpl.
  destruct tp as [tp|], tl as [|t0 tl], sc as [sc|]; simpl;
    unfold bind, lift, set_page; simpl;
    rewrite ?app_nil_r, <- ?app_assoc; reflexivity.
Qed.

(** What [initLoadOperation] has done when it returns: the page shows the
    start of the run, the chain of promises is in the store, and the first
    handler's job is queued. *)
Lemma initLoadOperation_sync this fl cb w h hs :
  allHandlers this fl (startTimerId this (page w)) cb = h :: hs ->
  initLoadOperation this fl cb w
  = (mkWorld (startPage this (page w))
       (promises w ++ Fulfilled VUndefined
          :: chainTail hs (S (length (promises w))))
       (microtasks w
          ++ [mkJob h (Normal VUndefined) (S (length (promises w)))]),
     Normal tt).
Proof.
  intros Hall. unfold initLoadOperation.
  match goal with
  | |- bind _ (fun ti => bind _ (fun _ => @?k ti)) w = _ =>
      etransitivity; [exact (initLoadOperation_start this k w)|]
  end.
  cbv beta zeta.
  unfold bind at 1, promiseResolve, newPromise.
  cbn [promises set_promises set_page page microtasks].
  unfold bind at 1. rewrite reduce_thenAll.
  pose proof (thenAll_snoc_bind
                (stepHandlers this fl (map func fl) 0)
                (FinalThen this (startTimerId this (page w)) cb)
                (fun _ => ret tt)) as Hsnoc.
  unfold bind at 1 in Hsnoc. rewrite Hsnoc. clear Hsnoc.
  fold (allHandlers this fl (startTimerId this (page w)) cb).
  rewrite Hall. unfold bind.
  rewrite (thenAll_fulfilled h hs (promises w) VUndefined)
    by reflexivity.
  reflexivity.
Qed.

(** Settling the head of a chain: its one reaction (if any) is queued;
    a rejection at the end of the chain has no listener. *)
Lemma fulfill_chain hs pre w :
  promises w = pre ++ chainTail hs (length pre) ->
  microtasks w = [] ->
  settle (length pre) (Normal VUndefined) w
  = match hs with
    | [] => mkWorld (page w) (pre ++ [Fulfilled VUndefined]) []
    | h1 :: hs' =>
        mkWorld (page w)
          (pre ++ Fulfilled VUndefined :: chainTail hs' (S (length pre)))
          [mkJob h1 (Normal VUndefined) (S (length pre))]
    end.
Proof.
  intros Hps Hq. unfold settle, resolvePromise, fulfillPromise.
  rewrite Hps, Hq.
  destruct hs as [|h1 hs']; simpl chainTail;
    rewrite list_lookup_middle by reflexivity;
    rewrite insert_app_r_alt by lia; rewrite Nat.sub_diag; reflexivity.
Qed.

Lemma reject_chain hs pre e w :
  promises w = pre ++ chainTail hs (length pre) ->
  microtasks w = [] ->
  settle (length pre) (Throw e) w
  = match hs with
    | [] => mkWorld (fst (emit (UnhandledRejection e) (page w)))
              (pre ++ [Rejected e]) []
    | h1 :: hs' =>
        mkWorld (page w)
          (pre ++ Rejected e :: chainTail hs' (S (length pre)))
          [mkJob h1 (Throw e) (S (length pre))]
    end.
Proof.
  intros Hps Hq. unfold settle, rejectPromise.
  rewrite Hps, Hq.
  destruct hs as [|h1 hs']; simpl chainTail;
    rewrite list_lookup_middle by reflexivity;
    rewrite insert_app_r_alt by lia; rewrite Nat.sub_diag; reflexivity.
Qed.

(** A rejection travels down the chain without running any handler. *)
Lemma drain_rejected hs : forall pre h e w,
  promises w = pre ++ chainTail hs (length pre) ->
  microtasks w = [mkJob h (Throw e) (length pre)] ->
  microtasks (drain (S (length hs)) w) = []
  /\ page (drain (S (length hs)) w)
     = fst (emit (UnhandledRejection e) (page w)).
Proof.
  induction hs as [|h1 hs IH]; intros pre h e w Hps Hq.
  - rewrite drain_S by (rewrite Hq; discriminate).
    unfold microtaskStep, runJob. rewrite Hq. cbn [argument derived].
    rewrite (reject_chain [] pre) by (assumption || reflexivity).
    split; reflexivity.
  - rewrite drain_S by (rewrite Hq; discriminate).
    unfold microtaskStep, runJob. rewrite Hq. cbn [argument derived].
    rewrite (reject_chain (h1 :: hs) pre) by (assumption || reflexivity).
    specialize (IH (pre ++ [Rejected e]) h1 e).
    rewrite length_app, Nat.add_1_r in IH.
    match goal with |- context [drain _ ?w1] => apply (IH w1) end;
      [|reflexivity].
    cbn [promises]. now rewrite <- app_assoc.
Qed.

(** The promise chain runs its handlers one after the other, in one
    checkpoint, until one of them throws. *)
Lemma drain_chain hs : forall pre h v w,
  promises w = pre ++ chainTail hs (length pre) ->
  microtasks w = [mkJob h (Normal v) (length pre)] ->
  microtasks (drain (S (length hs)) w) = []
  /\ page (drain (S (length hs)) w)
     = chainOutcome (runHandlers (h :: hs) (page w)).
Proof.
  induction hs as [|h1 hs IH]; intros pre h v w Hps Hq;
    rewrite drain_S by (rewrite Hq; discriminate);
    unfold microtaskStep, runJob; rewrite Hq;
    cbn [argument derived handler page set_microtasks runHandlers length];
    destruct (runHandler h (page w)) as [pg [v'|e]] eqn:Hrun.
  - apply runHandler_value in Hrun as ->.
    rewrite (fulfill_chain [] pre) by (assumption || reflexivity).
    split; reflexivity.
  - rewrite (reject_chain [] pre) by (assumption || reflexivity).
    split; reflexivity.
  - apply runHandler_value in Hrun as ->.
    rewrite (fulfill_chain (h1 :: hs) pre) by (assumption || reflexivity).
    specialize (IH (pre ++ [Fulfilled VUndefined]) h1 VUndefined).
    rewrite length_app, Nat.add_1_r in IH.
    match goal with
    | |- context [drain _ ?w1] => destruct (IH w1) as [H1 H2]
    end; [cbn [promises]; now rewrite <- app_assoc | reflexivity |].
    split; [exact H1|]. rewrite H2. cbn [page]. reflexivity.
  - rewrite (reject_chain (h1 :: hs) pre) by (assumption || reflexivity).
    pose proof (drain_rejected hs (pre ++ [Rejected e]) h1 e) as H.
    rewrite length_app, Nat.add_1_r in H.
    match goal with
    | |- context [drain _ ?w1] => destruct (H w1) as [H1 H2]
    end; [cbn [promises]; now rewrite <- app_assoc | reflexivity |].
    split; [exact H1|]. rewrite H2. reflexivity.
Qed.

(** A whole run, started when no job is waiting: [initLoadOperation]
    prepares the page and returns; the checkpoint that follows runs the
    handlers in sequence and leaves the queue empty. *)
Lemma runTask_CallInit this fl cb w :
  microtasks w = [] ->
  microtasks (runTask (CallInit this fl cb) w) = []
  /\ page (runTask (CallInit this fl cb) w)
     = chainOutcome
         (runHandlers (allHandlers this fl (startTimerId this (page w)) cb)
            (startPage this (page w))).
Proof.
  intros Hq.
  destruct (allHandlers_cons this fl (startTimerId this (page w)) cb)
    as (h & hs & Hall).
  unfold runTask, performTask.
  rewrite (initLoadOperation_sync this fl cb w h hs Hall). cbn [fst].
  rewrite Hq, Hall. cbn [app].
  set (w1 := mkWorld _ _ _).
  pose proof (drain_chain hs (promises w ++ [Fulfilled VUndefined]) h
                VUndefined w1) as H.
  rewrite length_app, Nat.add_1_r in H.
  destruct H as [H1 H2].
  { subst w1. cbn [promises]. now rewrite <- app_assoc. }
  { reflexivity. }
  rewrite (runMicrotasks_drain _ _ H1). split; assumption.
Qed.

Lemma performTask_CallInit this fl cb w :
  page (performTask (CallInit this fl cb) w) = startPage this (page w)
  /\ length (microtasks (performTask (CallInit this fl cb) w))
     = S (length (microtasks w)).
Proof.
  destruct (allHandlers_cons this fl (startTimerId this (page w)) cb)
    as (h & hs & Hall).
  unfold performTask.
  rewrite (initLoadOperation_sync this fl cb w h hs Hall). cbn.
  split; [reflexivity|]. rewrite length_app. simpl. lia.
Qed.

End Chain.

(** ** The two handlers on the page *)

Section Handlers.

Context {U : Type}.
Implicit Types (w : World U) (pg : Page U) (h : Handler U).
Implicit Types (fl ops : list (MB_AsyncLoadOperation U)).
Implicit Types (this : MB_AsyncLoadController).

Lemma runHandlers_app (hs1 hs2 : list (Handler U)) : forall pg,
  runHandlers (hs1 ++ hs2) pg
  = match runHandlers hs1 pg with
    | (pg', None) => runHandlers hs2 pg'
    | r => r
    end.
Proof.
  induction hs1 as [|h hs1 IH]; intros pg; simpl; [reflexivity|].
  destruct (runHandler h pg) as [pg' [v|e]]; [apply IH|reflexivity].
Qed.

Lemma stepThen_returns this fl f idx op pg u' v :
  stepSinksPresent this = true ->
  fl !! idx = Some op ->
  f (user pg) = (u', Normal v) ->
  runHandler (StepThen this fl f idx) pg
  = (mkPage u' (timers pg) (nextTimerId pg)
       (trace pg ++ stepEvents (length fl) idx op),
     Normal VUndefined).
Proof.
  unfold stepSinksPresent. intros Hs Hop Hf.
  destruct this as [sc [tx|] [pc|] [pb|] tp tl]; try discriminate.
  destruct pg as [u ts nid tr]. simpl in Hf.
  unfold runHandler, stepThen, operationAt, bind. rewrite Hop.
  cbn. rewrite Hf. cbn. rewrite <- !app_assoc. reflexivity.
Qed.

Lemma stepThen_throws this fl f idx op pg u' e :
  stepSinksPresent this = true ->
  fl !! idx = Some op ->
  f (user pg) = (u', Throw e) ->
  runHandler (StepThen this fl f idx) pg
  = (mkPage u' (timers pg) (nextTimerId pg)
       (trace pg ++ preStepEvents (length fl) idx op
          ++ [FuncCalled idx; FuncThrew idx e]),
     Throw e).
Proof.
  unfold stepSinksPresent. intros Hs Hop Hf.
  destruct this as [sc [tx|] [pc|] [pb|] tp tl]; try discriminate.
  destruct pg as [u ts nid tr]. simpl in Hf.
  unfold runHandler, stepThen, operationAt, bind. rewrite Hop.
  cbn. rewrite Hf. cbn. rewrite <- !app_assoc. reflexivity.
Qed.

(** The steps that return, run in order. *)
Lemma runHandlers_steps this fl (rest : list (Handler U)) tail ops :
  forall idx pg,
    stepSinksPresent this = true ->
    drop idx fl = ops ++ tail ->
    allReturn ops ->
    runHandlers (stepHandlers this fl (map func ops) idx ++ rest) pg
    = runHandlers rest
        (mkPage (runUser ops (user pg)) (timers pg) (nextTimerId pg)
           (trace pg ++ stepsEvents (length fl) idx ops)).
Proof.
  induction ops as [|op ops IH]; intros idx pg Hs Hdrop Hret.
  - simpl. rewrite app_nil_r. destruct pg; reflexivity.
  - assert (fl !! idx = Some op) as Hop.
    { rewrite <- (Nat.add_0_r idx), <- lookup_drop, Hdrop. reflexivity. }
    assert (drop (S idx) fl = ops ++ tail) as Hdrop'.
    { rewrite <- Nat.add_1_r, <- drop_drop, Hdrop. reflexivity. }
    apply Forall_cons in Hret as [Hop_ret Hret'].
    destruct (func op (user pg)) as [u' r] eqn:Hf.
    destruct (Hop_ret (user pg)) as [v Hv]. rewrite Hf in Hv.
    simpl in Hv. subst r.
    cbn [map stepHandlers app runHandlers].
    rewrite (stepThen_returns this fl _ idx op pg u' v Hs Hop Hf).
    rewrite (IH (S idx) _ Hs Hdrop' Hret'). cbn.
    unfold runUser. cbn. rewrite Hf. cbn.
    rewrite <- app_assoc. reflexivity.
Qed.

Lemma stepHandlers_app this fl (fs1 fs2 : list (JsFunction U)) :
  forall idx,
    stepHandlers this fl (fs1 ++ fs2) idx
    = stepHandlers this fl fs1 idx
        ++ stepHandlers this fl fs2 (idx + length fs1).
Proof.
  induction fs1 as [|f fs1 IH]; intros idx; simpl.
  - now rewrite Nat.add_0_r.
  - rewrite IH. now rewrite Nat.add_succ_r.
Qed.

Lemma finalThen_runs this ti cb pg :
  finishSinksPresent this = true ->
  chainOutcome (runHandlers [FinalThen this ti cb] pg)
  = mkPage (afterCallback cb (user pg))
      (withoutTimer ti (timers pg)) (nextTimerId pg)
      (trace pg ++ finishEvents this ti ++ callbackEvents cb (user pg)).
Proof.
  unfold finishSinksPresent. intros Hs.
  destruct this as [[sc|] tx [pc|] [pb|] tp tl]; try discriminate.
  destruct pg as [u ts nid tr].
  unfold runHandlers, runHandler, finalThen, finishEvents, callbackEvents,
    afterCallback, withoutTimer, bind.
  destruct tp as [tp|], ti as [id|], cb as [f|]; cbn;
    try destruct (f u) as [u' [v|e]]; cbn;
    rewrite <- ?app_assoc; cbn; rewrite ?app_nil_r; reflexivity.
Qed.

Lemma eventsSince_app w w' (E : list Event) :
  trace (page w') = trace (page w) ++ E -> eventsSince w w' = E.
Proof. unfold eventsSince. intros ->. apply drop_app_length. Qed.

(** *** A run in which every step returns *)

Lemma run_success this fl cb w :
  microtasks w = [] ->
  configured this = true ->
  allReturn fl ->
  page (runTask (CallInit this fl cb) w)
  = mkPage (afterCallback cb (runUser fl (user (page w))))
      (withoutTimer (startTimerId this (page w))
         (timers (startPage this (page w))))
      (nextTimerId (startPage this (page w)))
      (trace (page w)
         ++ startEvents this (nextTimerId (page w))
         ++ stepsEvents (length fl) 0 fl
         ++ finishEvents this (startTimerId this (page w))
         ++ callbackEvents cb (runUser fl (user (page w)))).
Proof.
  intros Hq Hc Hret. unfold configured in Hc.
  apply andb_true_iff in Hc as [Hs Hf].
  destruct (runTask_CallInit this fl cb w Hq) as [_ ->].
  unfold allHandlers.
  rewrite (runHandlers_steps this fl _ [] fl 0)
    by (assumption || (rewrite app_nil_r; reflexivity)).
  rewrite (finalThen_runs _ _ _ _ Hf). cbn.
  rewrite <- !app_assoc. reflexivity.
Qed.

(** *** A run in which a step throws *)

Lemma run_failure this before op after cb w u' e :
  microtasks w = [] ->
  stepSinksPresent this = true ->
  allReturn before ->
  func op (runUser before (user (page w))) = (u', Throw e) ->
  let fl := before ++ op :: after in
  page (runTask (CallInit this fl cb) w)
  = mkPage u'
      (timers (startPage this (page w)))
      (nextTimerId (startPage this (page w)))
      (trace (page w)
         ++ startEvents this (nextTimerId (page w))
         ++ stepsEvents (length fl) 0 before
         ++ preStepEvents (length fl) (length before) op
         ++ [FuncCalled (length before);
             FuncThrew (length before) e;
             UnhandledRejection e]).
Proof.
  intros Hq Hs Hret Hf fl.
  destruct (runTask_CallInit this fl cb w Hq) as [_ ->].
  unfold allHandlers. subst fl.
  rewrite map_app, stepHandlers_app, <- app_assoc.
  rewrite (runHandlers_steps this _ _ (op :: after) before 0)
    by (assumption || reflexivity).
  cbn [map stepHandlers app runHandlers]. rewrite length_map.
  erewrite stepThen_throws; [|exact Hs| |exact Hf].
  2:{ apply list_lookup_middle. reflexivity. }
  cbn. rewrite <- !app_assoc. reflexivity.
Qed.

(** *** A run whose first handler finds a sink missing *)

Lemma run_without_label this op fl cb w :
  microtasks w = [] ->
  loadingText this = None ->
  page (runTask (CallInit this (op :: fl) cb) w)
  = fst (emit (UnhandledRejection
                 (TypeError "Cannot read properties of undefined"))
           (startPage this (page w))).
Proof.
  intros Hq Hl.
  destruct (runTask_CallInit this (op :: fl) cb w Hq) as [_ ->].
  unfold allHandlers. cbn [map stepHandlers app runHandlers].
  unfold runHandler, stepThen, operationAt, bind. cbn.
  rewrite Hl. reflexivity.
Qed.

End Handlers.

(** ** Binary64 products of a draw and a length *)

Section Binary64.

Local Open Scope Z_scope.

Lemma digits2_pos_bounds (p : positive) :
  2 ^ (Z.pos (digits2_pos p) - 1) <= Z.pos p < 2 ^ Z.pos (digits2_pos p).
Proof.
  induction p as [p IH|p IH|]; cbn [digits2_pos].
  - rewrite Pos2Z.inj_succ.
    replace (Z.succ (Z.pos (digits2_pos p)) - 1)
      with (Z.succ (Z.pos (digits2_pos p) - 1)) by lia.
    rewrite !Z.pow_succ_r by lia. lia.
  - rewrite Pos2Z.inj_succ.
    replace (Z.succ (Z.pos (digits2_pos p)) - 1)
      with (Z.succ (Z.pos (digits2_pos p) - 1)) by lia.
    rewrite !Z.pow_succ_r by lia. lia.
  - simpl. lia.
Qed.

Lemma shr_1_shifted P j mrs :
  0 <= P -> shifted P j mrs -> shifted P (j + 1) (shr_1 mrs).
Proof.
  intros HP (Hj & Hm & Hr).
  assert (0 < 2 ^ j) as Hpow by (apply Z.pow_pos_nonneg; lia).
  assert (2 ^ (j + 1) = 2 * 2 ^ j) as Hpow1
    by (rewrite Z.pow_add_r by lia; lia).
  assert (P / 2 ^ (j + 1) = P / 2 ^ j / 2) as Hdiv.
  { rewrite Hpow1, (Z.mul_comm 2), Z.div_div by lia. reflexivity. }
  assert (P mod 2 ^ (j + 1) = P mod 2 ^ j + 2 ^ j * ((P / 2 ^ j) mod 2))
    as Hmod.
  { rewrite Hpow1, (Z.mul_comm 2). rewrite Z.rem_mul_r by lia. reflexivity. }
  assert (0 <= P / 2 ^ j) as Hq by (apply Z.div_pos; lia).
  assert (0 <= P mod 2 ^ j) as Hrem by (apply Z.mod_pos_bound; lia).
  destruct mrs as [m r s]. cbn [shr_m shr_r] in *. subst m.
  split; [lia|]. rewrite Hdiv, Hmod, Hpow1.
  destruct (P / 2 ^ j) as [|[q|q|]|q] eqn:E; cbn [shr_1 shr_m shr_r];
    try lia.
  - split; [reflexivity|]. discriminate.
  - rewrite Pos2Z.inj_xI. split; [Z.div_mod_to_equations; lia|]. intros _.
    assert ((2 * Z.pos q + 1) mod 2 = 1) as ->
      by (Z.div_mod_to_equations; lia). lia.
  - rewrite Pos2Z.inj_xO. split; [Z.div_mod_to_equations; lia|].
    discriminate.
  - split; [reflexivity|]. intros _. change (1 mod 2) with 1. lia.
Qed.

Lemma iter_shr_1_shifted P (p : positive) : forall j mrs,
  0 <= P -> shifted P j mrs ->
  shifted P (j + Z.pos p) (SpecFloat.iter_pos shr_1 p mrs).
Proof.
  induction p as [p IH|p IH|]; intros j mrs HP H; cbn [SpecFloat.iter_pos].
  - replace (j + Z.pos p~1) with (j + 1 + Z.pos p + Z.pos p) by lia.
    apply IH; [assumption|]. apply IH; [assumption|].
    now apply shr_1_shifted.
  - replace (j + Z.pos p~0) with (j + Z.pos p + Z.pos p) by lia.
    apply IH; [assumption|]. now apply IH.
  - now apply shr_1_shifted.
Qed.

Lemma shr_nonpos mrs e n : n <= 0 -> shr mrs e n = (mrs, e).
Proof. destruct n; [reflexivity|lia|reflexivity]. Qed.

Lemma shr_pos P e n :
  0 <= P -> 0 < n ->
  exists mrs,
    shr (Build_shr_record P false false) e n = (mrs, e + n)
    /\ shifted P n mrs.
Proof.
  intros HP Hn. destruct n as [|p|p]; try lia.
  eexists. split; [reflexivity|].
  replace (Z.pos p) with (0 + Z.pos p) by lia.
  apply iter_shr_1_shifted; [assumption|].
  split; [lia|]. cbn. rewrite Z.div_1_r. split; [reflexivity|discriminate].
Qed.

Lemma round_nearest_even_bounds mrs :
  shr_m mrs <= round_nearest_even (shr_m mrs) (loc_of_shr_record mrs)
            <= shr_m mrs + 1
  /\ (shr_r mrs = false ->
      round_nearest_even (shr_m mrs) (loc_of_shr_record mrs) = shr_m mrs).
Proof.
  destruct mrs as [m [|] [|]]; cbn; try destruct (Z.even m); lia.
Qed.

Lemma fexp64 e : fexp 53 1024 e = Z.max (e - 53) (-1074).
Proof. reflexivity. Qed.

(** Dividing both sides of a strict bound by a power of two. *)
Lemma pow2_cancel a b k : 0 <= k -> a * 2 ^ k < b * 2 ^ k -> a < b.
Proof.
  intros Hk H. assert (0 < 2 ^ k) by (apply Z.pow_pos_nonneg; lia). nia.
Qed.

Lemma binary_round_aux_below (X : positive) (E B : Z) :
  E <= 0 -> 1 <= B < 2 ^ 53 ->
  Z.pos X * (2 ^ 53 + 1) < B * 2 ^ (53 - E) ->
  binary_round_aux 53 1024 false (Z.pos X) E loc_Exact = S754_zero false
  \/ exists m e,
       binary_round_aux 53 1024 false (Z.pos X) E loc_Exact
       = S754_finite false m e
       /\ e <= 0 /\ Z.pos m < B * 2 ^ (- e).
Proof.
  intros HE HB HX.
  pose proof (digits2_pos_bounds X) as Hd.
  set (d := Z.pos (digits2_pos X)) in *.
  assert (0 < d) as Hdpos by (subst d; lia).
  assert (2 ^ (53 - E) = 2 ^ 53 * 2 ^ (- E)) as Hsplit.
  { rewrite <- Z.pow_add_r by lia. f_equal; lia. }
  assert (0 < 2 ^ (- E)) as HpE by (apply Z.pow_pos_nonneg; lia).
  assert (0 < 2 ^ 53) as Hp53 by (apply Z.pow_pos_nonneg; lia).
  assert (Z.pos X < B * 2 ^ (- E)) as HXB.
  { rewrite Hsplit in HX. nia. }
  assert (d + E <= 53) as HdE.
  { assert (2 ^ (d - 1) < 2 ^ (53 - E)) as Hlt.
    { rewrite Hsplit. nia. }
    apply Z.pow_lt_mono_r_iff in Hlt; lia. }
  unfold binary_round_aux, shr_fexp. cbn [Zdigits2]. fold d.
  rewrite fexp64.
  set (g := Z.max (d + E - 53) (-1074)).
  assert (-1074 <= g <= 0) as Hg by (subst g; lia).
  destruct (Z_le_gt_dec (g - E) 0) as [Hn|Hn].
  - (* the product fits: nothing is shifted out *)
    rewrite shr_nonpos by assumption. cbn [shr_record_of_loc
      loc_of_shr_record shr_m round_nearest_even Zdigits2]. fold d.
    rewrite fexp64. fold g. rewrite shr_nonpos by assumption.
    cbn [shr_m]. replace (E <=? 1024 - 53) with true
      by (symmetry; apply Z.leb_le; lia).
    right. exists X, E. repeat split; assumption.
  - destruct (shr_pos (Z.pos X) E (g - E)) as (mrs & Hshr & Hs);
      [lia|lia|].
    cbn [shr_record_of_loc]. rewrite Hshr.
    replace (E + (g - E)) with g by lia.
    destruct Hs as (_ & Hm1 & Hr).
    pose proof (round_nearest_even_bounds mrs) as [Hm2 Hm2'].
    set (m2 := round_nearest_even (shr_m mrs) (loc_of_shr_record mrs)) in *.
    set (n := g - E) in *.
    assert (0 < 2 ^ n) as Hpn by (apply Z.pow_pos_nonneg; lia).
    assert (2 ^ (- E) = 2 ^ n * 2 ^ (- g)) as HsplitE.
    { rewrite <- Z.pow_add_r by lia. f_equal; lia. }
    assert (0 < 2 ^ (- g)) as Hpg by (apply Z.pow_pos_nonneg; lia).
    assert (0 <= shr_m mrs) as Hm1pos
      by (rewrite Hm1; apply Z.div_pos; lia).
    assert (m2 * 2 ^ n * 2 <= 2 * Z.pos X + 2 ^ n) as Hhalf.
    { pose proof (Z.div_mod (Z.pos X) (2 ^ n) ltac:(lia)) as Hdm.
      pose proof (Z.mod_pos_bound (Z.pos X) (2 ^ n) Hpn) as Hrem.
      rewrite <- Hm1 in Hdm.
      destruct (shr_r mrs) eqn:Hrb.
      - specialize (Hr eq_refl). nia.
      - rewrite (Hm2' eq_refl). nia. }
    assert (m2 < B * 2 ^ (- g)) as Hm2B.
    { destruct (Z_le_gt_dec (-1074) (d + E - 53)) as [Hnorm|Hsub].
      - (* normal range: half an ulp is at most X / 2^53 *)
        assert (g = d + E - 53) as Hgeq by (subst g; lia).
        assert (2 ^ n * 2 ^ 53 = 2 * 2 ^ (d - 1)) as Hulp.
        { rewrite <- Z.pow_add_r by lia.
          replace (n + 53) with (Z.succ (d - 1)) by (subst n; lia).
          rewrite Z.pow_succ_r by lia. reflexivity. }
        apply (pow2_cancel _ _ n); [lia|].
        rewrite <- Z.mul_assoc, (Z.mul_comm (2 ^ (- g))), <- HsplitE.
        rewrite Hsplit in HX. nia.
      - (* subnormal range: the result is below 2^-1021 *)
        assert (g = -1074) as Hgeq by (subst g; lia).
        assert (shr_m mrs < 2 ^ 53) as Hsmall.
        { rewrite Hm1. apply Z.div_lt_upper_bound; [lia|].
          rewrite <- Z.pow_add_r by lia.
          eapply Z.lt_le_trans; [apply Hd|].
          apply Z.pow_le_mono_r; subst n; lia. }
        rewrite Hgeq. change (- -1074) with 1074.
        assert (2 ^ 53 < 2 ^ 1074) by (apply Z.pow_lt_mono_r; lia).
        nia. }
    clearbody m2. clear Hhalf Hm2' Hr Hshr Hm1.
    destruct m2 as [|q|q]; [| |lia].
    + (* rounded to zero *)
      cbn [Zdigits2]. rewrite fexp64. rewrite shr_nonpos by lia.
      cbn [shr_m]. left. reflexivity.
    + pose proof (digits2_pos_bounds q) as Hdq.
      cbn [Zdigits2]. set (d2 := Z.pos (digits2_pos q)) in *.
      rewrite fexp64.
      assert (d2 + g <= 53) as Hd2.
      { assert (2 ^ (d2 - 1) < 2 ^ (53 - g)) as Hlt.
        { replace (53 - g) with (53 + - g) by lia.
          rewrite Z.pow_add_r by lia. nia. }
        apply Z.pow_lt_mono_r_iff in Hlt; lia. }
      destruct (Z_le_gt_dec (Z.max (d2 + g - 53) (-1074) - g) 0) as [Hn2|Hn2].
      * rewrite shr_nonpos by assumption. cbn [shr_m].
        replace (g <=? 1024 - 53) with true
          by (symmetry; apply Z.leb_le; lia).
        right. exists q, g. repeat split; [lia|assumption].
      * destruct (shr_pos (Z.pos q) g (Z.max (d2 + g - 53) (-1074) - g))
          as (mrs2 & Hshr2 & _ & Hm3 & _); [lia|lia|].
        rewrite Hshr2.
        set (n2 := Z.max (d2 + g - 53) (-1074) - g) in *.
        assert (0 < 2 ^ n2) as Hpn2 by (apply Z.pow_pos_nonneg; lia).
        assert (0 <= shr_m mrs2) as Hm3pos
          by (rewrite Hm3; apply Z.div_pos; lia).
        destruct (shr_m mrs2) as [|m3|m3] eqn:Em3; [left; reflexivity| |lia].
        replace (g + n2 <=? 1024 - 53) with true
          by (symmetry; apply Z.leb_le; lia).
        right. exists m3, (g + n2). split; [reflexivity|]. split; [lia|].
        assert (2 ^ (- g) = 2 ^ n2 * 2 ^ (- (g + n2))) as Hsplit2.
        { rewrite <- Z.pow_add_r by lia. f_equal; lia. }
        assert (0 < 2 ^ (- (g + n2))) by (apply Z.pow_pos_nonneg; lia).
        pose proof (Z.div_mod (Z.pos q) (2 ^ n2) ltac:(lia)) as Hdm.
        pose proof (Z.mod_pos_bound (Z.pos q) (2 ^ n2) Hpn2) as Hrem.
        rewrite <- Hm3 in Hdm.
        apply (pow2_cancel _ _ n2); [lia|].
        rewrite <- Z.mul_assoc, (Z.mul_comm (2 ^ (- (g + n2)))), <- Hsplit2.
        nia.
Qed.

Lemma binary_round_aux_canonical (X : positive) (E : Z) :
  Z.max (Z.pos (digits2_pos X) + E - 53) (-1074) <= E -> E <= 971 ->
  binary_round_aux 53 1024 false (Z.pos X) E loc_Exact
  = S754_finite false X E.
Proof.
  intros Hc HE. unfold binary_round_aux, shr_fexp. cbn [Zdigits2].
  rewrite fexp64. rewrite shr_nonpos by lia.
  cbn [shr_record_of_loc loc_of_shr_record shr_m round_nearest_even
         Zdigits2].
  rewrite fexp64. rewrite shr_nonpos by lia. cbn [shr_m].
  replace (E <=? 1024 - 53) with true by (symmetry; apply Z.leb_le; lia).
  reflexivity.
Qed.

Lemma digits2_pos_shift (p s : positive) :
  digits2_pos (Pos.iter xO p s) = (digits2_pos p + s)%positive.
Proof.
  induction s as [|s IH] using Pos.peano_ind.
  - cbn. lia.
  - rewrite Pos.iter_succ. cbn [digits2_pos]. rewrite IH. lia.
Qed.

Lemma shift_pos_value (p s : positive) :
  Z.pos (Pos.iter xO p s) = Z.pos p * 2 ^ Z.pos s.
Proof.
  induction s as [|s IH] using Pos.peano_ind.
  - cbn. lia.
  - rewrite Pos.iter_succ, Pos2Z.inj_xO, IH, Pos2Z.inj_succ,
      Z.pow_succ_r by lia. lia.
Qed.

(** An integer below 2^53 is a binary64 number. *)
Lemma binary_normalize_exact (L : Z) :
  1 <= L < 2 ^ 53 ->
  exists ml j,
    binary_normalize 53 1024 L 0 false = S754_finite false ml (- j)
    /\ 0 <= j /\ Z.pos ml = L * 2 ^ j
    /\ Z.pos (digits2_pos ml) = 53.
Proof.
  intros HL. destruct L as [|p|p]; try lia.
  cbn [binary_normalize]. unfold binary_round, shl_align.
  pose proof (digits2_pos_bounds p) as Hd.
  set (d := Z.pos (digits2_pos p)) in *.
  assert (d <= 53) as Hd53.
  { assert (2 ^ (d - 1) < 2 ^ 53) as Hlt by lia.
    apply Z.pow_lt_mono_r_iff in Hlt; lia. }
  rewrite fexp64.
  replace (Z.max (d + 0 - 53) (-1074)) with (d - 53) by lia.
  destruct (d - 53 - 0) as [|s|s] eqn:Hs; try lia.
  - exists p, 0. rewrite binary_round_aux_canonical by (fold d; lia).
    repeat split; first [lia | fold d; lia].
  - exists (Pos.iter xO p s), (Z.pos s).
    replace (d - 53) with (- Z.pos s) by lia.
    assert (Z.pos (digits2_pos (Pos.iter xO p s)) = 53) as Hds.
    { rewrite digits2_pos_shift, Pos2Z.inj_add. fold d. lia. }
    rewrite binary_round_aux_canonical by lia.
    repeat split; [lia|apply shift_pos_value|exact Hds].
Qed.

(** So is an integer below 2^d divided by 2^d. *)
Lemma binary_normalize_dyadic (m d : Z) :
  1 <= m < 2 ^ d -> 0 <= d <= 53 ->
  exists mu s,
    binary_normalize 53 1024 m (- d) false = S754_finite false mu (- d - s)
    /\ 53 - d <= s <= 52 /\ 0 <= s /\ Z.pos mu = m * 2 ^ s
    /\ Z.pos (digits2_pos mu) = 53.
Proof.
  intros Hm Hd. destruct m as [|p|p]; try lia.
  cbn [binary_normalize]. unfold binary_round, shl_align.
  pose proof (digits2_pos_bounds p) as Hp.
  set (dp := Z.pos (digits2_pos p)) in *.
  assert (dp <= d) as Hdp.
  { assert (2 ^ (dp - 1) < 2 ^ d) as Hlt by lia.
    apply Z.pow_lt_mono_r_iff in Hlt; lia. }
  rewrite fexp64.
  replace (Z.max (dp + - d - 53) (-1074)) with (dp - d - 53) by lia.
  destruct (dp - d - 53 - - d) as [|s|s] eqn:Hs; try lia.
  - exists p, 0. rewrite binary_round_aux_canonical by (fold dp; lia).
    rewrite Z.sub_0_r. repeat split; first [lia | fold dp; lia].
  - exists (Pos.iter xO p s), (Z.pos s).
    assert (Z.pos (digits2_pos (Pos.iter xO p s)) = 53) as Hds.
    { rewrite digits2_pos_shift, Pos2Z.inj_add. fold dp. lia. }
    replace (dp - d - 53) with (- d - Z.pos s) by lia.
    rewrite binary_round_aux_canonical by lia.
    repeat split; [lia|lia|lia|apply shift_pos_value|exact Hds].
Qed.

(** The number of bits is determined by the value. *)
Lemma digits2_pos_unique (p : positive) (d : Z) :
  2 ^ (d - 1) <= Z.pos p < 2 ^ d -> Z.pos (digits2_pos p) = d.
Proof.
  intros H. pose proof (digits2_pos_bounds p) as Hd.
  assert (0 < d) as Hdpos.
  { destruct (Z_lt_le_dec 0 d) as [|Hle]; [assumption|exfalso].
    destruct (Z.eq_dec d 0) as [->|]; [cbn in H; lia|].
    rewrite (Z.pow_neg_r 2 d) in H by lia. lia. }
  assert (Z.pos (digits2_pos p) - 1 < d) as H1.
  { apply (Z.pow_lt_mono_r_iff 2); lia. }
  assert (d - 1 < Z.pos (digits2_pos p)) as H2.
  { apply (Z.pow_lt_mono_r_iff 2); lia. }
  lia.
Qed.

(** A product whose bits below the 53 leading ones are zero is not
    rounded. *)
Lemma binary_round_aux_exact (X Y : positive) (k E : Z) :
  0 <= k -> Z.pos X = Z.pos Y * 2 ^ k ->
  Z.pos (digits2_pos Y) = 53 ->
  -1074 <= E + k <= 971 ->
  binary_round_aux 53 1024 false (Z.pos X) E loc_Exact
  = S754_finite false Y (E + k).
Proof.
  intros Hk HX HdY HE.
  assert (0 < 2 ^ k) as Hpk by (apply Z.pow_pos_nonneg; lia).
  pose proof (digits2_pos_bounds Y) as HY. rewrite HdY in HY.
  assert (Z.pos (digits2_pos X) = 53 + k) as HdX.
  { apply digits2_pos_unique. rewrite HX.
    replace (53 + k - 1) with (52 + k) by lia.
    rewrite !Z.pow_add_r by lia. change (53 - 1) with 52 in HY. nia. }
  destruct (Z.eq_dec k 0) as [->|Hk0].
  - rewrite Z.add_0_r in *. change (2 ^ 0) with 1 in HX.
    assert (X = Y) as -> by lia.
    apply binary_round_aux_canonical; lia.
  - unfold binary_round_aux, shr_fexp. cbn [Zdigits2]. rewrite HdX, fexp64.
    replace (Z.max (53 + k + E - 53) (-1074) - E) with k by lia.
    destruct (shr_pos (Z.pos X) E k) as (mrs & Hshr & _ & Hm & Hr);
      [lia|lia|].
    cbn [shr_record_of_loc]. rewrite Hshr.
    assert (shr_m mrs = Z.pos Y) as Hm1.
    { rewrite Hm, HX. apply Z.div_mul. lia. }
    assert (shr_r mrs = false) as Hrf.
    { destruct (shr_r mrs); [|reflexivity].
      specialize (Hr eq_refl). rewrite HX, Z.mod_mul in Hr by lia. lia. }
    destruct (round_nearest_even_bounds mrs) as [_ Hround].
    rewrite (Hround Hrf), Hm1. cbn [Zdigits2]. rewrite HdY, fexp64.
    rewrite shr_nonpos by lia. cbn [shr_m].
    replace (E + k <=? 1024 - 53) with true
      by (symmetry; apply Z.leb_le; lia).
    reflexivity.
Qed.

(** [Math.floor(u * n)] for a draw [u] and a length [n] is an index into
    an array of that length. *)
Lemma floor_unit_draw_times_length (u : spec_float) (n : nat) :
  Number.unitDraw u = true ->
  (0 < n)%nat -> Z.of_nat n < 2 ^ 53 ->
  exists j : nat,
    Number.floor (Number.mul u (Number.ofNat n)) = Number.Int (Z.of_nat j)
    /\ (j < n)%nat.
Proof.
  intros Hu Hn Hn53.
  assert (exists z, Number.floor (Number.mul u (Number.ofNat n))
                    = Number.Int z /\ 0 <= z < Z.of_nat n) as (z & Hz & Hr).
  2:{ exists (Z.to_nat z). rewrite Z2Nat.id by lia. split; [exact Hz|lia]. }
  destruct (binary_normalize_exact (Z.of_nat n))
    as (ml & j & Hml & Hj & Hv & _);
    [lia|].
  unfold Number.ofNat, Number.ofZ, Number.mul, Number.prec, Number.emax.
  rewrite Hml.
  destruct u as [[|]|[|]| |[|] mu eu]; try discriminate.
  - exists 0. split; [reflexivity|lia].
  - cbn [Number.unitDraw] in Hu. apply andb_true_iff in Hu as [Hb Hlt].
    apply Z.ltb_lt in Hlt.
    unfold bounded, canonical_mantissa, Number.prec, Number.emax in Hb.
    apply andb_true_iff in Hb as [Hc _]. apply Z.eqb_eq in Hc.
    rewrite fexp64 in Hc.
    pose proof (digits2_pos_bounds mu) as Hd.
    assert (eu < 0) as Heu.
    { destruct (Z_lt_ge_dec eu 0) as [|Hge]; [assumption|exfalso].
      destruct (Z.eq_dec eu 0) as [->|]; [cbn in Hlt; lia|].
      rewrite Z.pow_neg_r in Hlt by lia. lia. }
    assert (Z.pos mu < 2 ^ 53) as Hmu.
    { eapply Z.lt_le_trans; [apply Hd|]. apply Z.pow_le_mono_r; lia. }
    cbn [SFmul xorb].
    assert (0 < 2 ^ j) as Hpj by (apply Z.pow_pos_nonneg; lia).
    assert (0 < 2 ^ (- eu)) as Hpk by (apply Z.pow_pos_nonneg; lia).
    assert (0 < 2 ^ 53) as Hp53 by (apply Z.pow_pos_nonneg; lia).
    destruct (binary_round_aux_below (mu * ml) (eu + - j) (Z.of_nat n))
      as [Hzero|(m & e & Hfin & He & Hm)]; [lia|lia| | |].
    + rewrite Pos2Z.inj_mul, Hv.
      replace (53 - (eu + - j)) with (53 + - eu + j) by lia.
      rewrite !Z.pow_add_r by lia.
      assert (Z.pos mu * (2 ^ 53 + 1) < 2 ^ 53 * 2 ^ (- eu)) as Hkey by nia.
      nia.
    + rewrite Hzero. exists 0. split; [reflexivity|lia].
    + rewrite Hfin. cbn [Number.floor].
      assert (0 < 2 ^ (- e)) as Hpe by (apply Z.pow_pos_nonneg; lia).
      destruct (0 <=? e) eqn:Hle.
      * apply Z.leb_le in Hle. assert (e = 0) as -> by lia.
        exists (Z.pos m * 2 ^ 0). split; [reflexivity|].
        change (2 ^ (- 0)) with 1 in Hm. change (2 ^ 0) with 1. lia.
      * exists (Z.pos m / 2 ^ (- e)). split; [reflexivity|]. split.
        -- apply Z.div_pos; lia.
        -- apply Z.div_lt_upper_bound; lia.
Qed.

(** Every index is selected by some draw: [drawSelecting n j] is a value
    that [Math.random()] may return, its product with [n] is computed
    without rounding, and the floor of that product is [j]. *)
Lemma drawSelecting_selects (n j : nat) :
  (j < n)%nat -> Z.of_nat n < 2 ^ 26 ->
  Number.unitDraw (drawSelecting n j) = true
  /\ Number.floor (Number.mul (drawSelecting n j) (Number.ofNat n))
     = Number.Int (Z.of_nat j).
Proof.
  intros Hjn HN.
  unfold drawSelecting, Number.ofNat, Number.ofZ, Number.mul, Number.prec,
    Number.emax.
  assert (0 <= Z.of_nat j < Z.of_nat n) as HJ by lia.
  generalize dependent (Z.of_nat j). generalize dependent (Z.of_nat n).
  clear n j Hjn. intros N HN J HJ. cbv zeta.
  destruct N as [|np|np] eqn:EN; try lia. rewrite <- EN in *.
  assert (Zdigits2 N = Z.pos (digits2_pos np)) as -> by (subst N; reflexivity).
  pose proof (digits2_pos_bounds np) as Hd. rewrite <- EN in Hd.
  set (d := Z.pos (digits2_pos np)) in *.
  assert (0 < d <= 26) as Hd26.
  { split; [subst d; lia|].
    assert (2 ^ (d - 1) < 2 ^ 26) as Hlt by lia.
    apply Z.pow_lt_mono_r_iff in Hlt; lia. }
  assert (0 < 2 ^ d) as Hpd by (apply Z.pow_pos_nonneg; lia).
  set (m := (J * 2 ^ d + N - 1) / N).
  assert (J * 2 ^ d <= m * N < J * 2 ^ d + N) as Hm.
  { pose proof (Z.div_mod (J * 2 ^ d + N - 1) N ltac:(lia)) as Hdm.
    pose proof (Z.mod_pos_bound (J * 2 ^ d + N - 1) N ltac:(lia)) as Hr.
    fold m in Hdm. nia. }
  assert (0 <= m < 2 ^ d) as Hm2 by nia.
  destruct (binary_normalize_exact N) as (ml & j' & Hml & Hj' & Hvl & Hdl).
  { split; [lia|]. eapply Z.lt_trans; [apply HN|].
    apply Z.pow_lt_mono_r; lia. }
  rewrite Hml.
  destruct (Z.eq_dec m 0) as [Hm0|Hm0].
  - (* J = 0 and the draw is 0 *)
    rewrite Hm0. cbn. split; [reflexivity|]. f_equal. nia.
  - destruct (binary_normalize_dyadic m d) as (mu & s & Hmu & Hs & Hs0 & Hvu & Hdu);
      [lia|lia|].
    rewrite Hmu.
    assert (0 < 2 ^ s) as Hps by (apply Z.pow_pos_nonneg; lia).
    assert (0 < 2 ^ j') as Hpj by (apply Z.pow_pos_nonneg; lia).
    split.
    + (* the draw is a binary64 number below 1 *)
      cbn [Number.unitDraw]; unfold Number.prec, Number.emax. apply andb_true_iff. split.
      * unfold bounded, canonical_mantissa. apply andb_true_iff. split.
        -- apply Z.eqb_eq. rewrite Hdu, fexp64. lia.
        -- apply Z.leb_le. lia.
      * apply Z.ltb_lt. rewrite Hvu.
        replace (- (- d - s)) with (d + s) by lia.
        rewrite Z.pow_add_r by lia. nia.
    + (* the product is exact: m * N / 2^d *)
      cbn [SFmul xorb].
      pose proof (digits2_pos_bounds ml) as Hbl. rewrite Hdl in Hbl.
      change (53 - 1) with 52 in Hbl.
      assert (27 <= j') as Hj27.
      { assert (2 ^ 26 < 2 ^ j') as Hlt.
        { destruct (Z.lt_ge_cases (2 ^ 26) (2 ^ j')) as [H|H]; [exact H|].
          exfalso.
          assert (N * 2 ^ j' <= N * 2 ^ 26)
            by (apply Z.mul_le_mono_nonneg_l; lia).
          assert (N * 2 ^ 26 < 2 ^ 26 * 2 ^ 26)
            by (apply Z.mul_lt_mono_pos_r; [reflexivity|lia]).
          change (2 ^ 26 * 2 ^ 26) with (2 ^ 52) in *. lia. }
        apply Z.pow_lt_mono_r_iff in Hlt; lia. }
      (* c = m * N, with dc digits *)
      assert (1 <= m * N < 2 ^ 52) as Hc.
      { assert (2 ^ 52 = 2 ^ 26 * 2 ^ 26) as H52 by reflexivity.
        assert (2 ^ d <= 2 ^ 26) by (apply Z.pow_le_mono_r; lia). nia. }
      destruct (m * N) as [|cp|cp] eqn:Ec; try lia.
      pose proof (digits2_pos_bounds cp) as Hcp.
      set (dc := Z.pos (digits2_pos cp)) in *.
      assert (0 < dc <= 52) as Hdc.
      { split; [subst dc; lia|].
        assert (2 ^ (dc - 1) < 2 ^ 52) as Hlt by lia.
        apply Z.pow_lt_mono_r_iff in Hlt; lia. }
      destruct (53 - dc) as [|t|t] eqn:Et; try lia.
      set (Y := Pos.iter xO cp t).
      assert (Z.pos Y = Z.pos cp * 2 ^ Z.pos t) as HvY by apply shift_pos_value.
      assert (Z.pos (digits2_pos Y) = 53) as HdY.
      { subst Y. rewrite digits2_pos_shift, Pos2Z.inj_add. fold dc. lia. }
      set (k := s + j' - Z.pos t).
      assert (0 <= k) as Hk by (subst k; lia).
      assert (Z.pos (mu * ml) = Z.pos Y * 2 ^ k) as HX.
      { rewrite Pos2Z.inj_mul, Hvu, Hvl, HvY.
        replace (m * 2 ^ s * (N * 2 ^ j')) with (m * N * (2 ^ s * 2 ^ j'))
          by ring.
        rewrite Ec, <- Z.mul_assoc. f_equal.
        rewrite <- !Z.pow_add_r by lia. f_equal. subst k. lia. }
      rewrite (binary_round_aux_exact (mu * ml) Y k _ Hk HX HdY)
        by (subst k; lia).
      cbn [Number.floor].
      replace (0 <=? - d - s + - j' + k) with false
        by (symmetry; apply Z.leb_gt; subst k; lia).
      f_equal. rewrite HvY.
      replace (- (- d - s + - j' + k)) with (Z.pos t + d) by (subst k; lia).
      rewrite Z.pow_add_r by lia.
      assert (0 < 2 ^ Z.pos t) by (apply Z.pow_pos_nonneg; lia).
      rewrite (Z.mul_comm (2 ^ Z.pos t) (2 ^ d)).
      rewrite Z.div_mul_cancel_r by lia.
      rewrite <- Ec. symmetry. apply Z.div_unique with (m * N - J * 2 ^ d).
      * lia.
      * lia.
Qed.

End Binary64.

(** ** The percentage text *)

Lemma halfUpAgrees_100 : List.forallb halfUpAgrees (seq 1 100) = true.
Proof. vm_compute. reflexivity. Qed.

(** Up to a hundred steps the binary64 computation gives the nearest
    integer to 100 * i / n. *)
Lemma progressText_half_up (n i : nat) :
  (0 < n <= 100)%nat -> (i < n)%nat ->
  progressText n i = halfUpProgressText n i.
Proof.
  intros Hn Hi. pose proof halfUpAgrees_100 as H.
  rewrite List.forallb_forall in H.
  specialize (H n ltac:(apply in_seq; lia)).
  unfold halfUpAgrees in H. rewrite List.forallb_forall in H.
  apply String.eqb_eq, H, in_seq. lia.
Qed.

(** Rounding in binary64 shows with 232 steps: 100 * 145 / 232 is 62.5,
    but (100 / 232) * 145 falls just below it. *)
Example progressText_232_145 :
  progressText 232 145 = "62%" /\ halfUpProgressText 232 145 = "63%".
Proof. vm_compute. split; reflexivity. Qed.

(** * The claims *)

Section Claims.

Context {U : Type}.
Implicit Types (w : World U) (pg : Page U).
Implicit Types (fl ops : list (MB_AsyncLoadOperation U)).
Implicit Types (this : MB_AsyncLoadController).
Implicit Types (cb : option (JsFunction U)).

Lemma invocations_app (E1 E2 : list Event) :
  invocations (E1 ++ E2) = invocations E1 ++ invocations E2.
Proof. apply List.filter_app. Qed.

Lemma progressView_app (E1 E2 : list Event) :
  progressView (E1 ++ E2) = progressView E1 ++ progressView E2.
Proof. apply List.filter_app. Qed.

Lemma invocations_startEvents this id :
  invocations (startEvents this id) = [].
Proof.
  unfold startEvents.
  destruct (startsTimer this), (truthy (loadingScreen this)); reflexivity.
Qed.

Lemma invocations_finishEvents this ti :
  invocations (finishEvents this ti) = [].
Proof.
  unfold finishEvents.
  destruct (truthy (loadingTips this)), ti; reflexivity.
Qed.

Lemma invocations_callbackEvents cb u :
  invocations (callbackEvents cb u) = callbackCall cb.
Proof.
  destruct cb as [f|]; [|reflexivity]. simpl.
  destruct (snd (f u)); reflexivity.
Qed.

Lemma invocations_stepsEvents n ops : forall idx,
  invocations (stepsEvents n idx ops)
  = flat_map (fun i => [FuncCalled i; FuncReturned i])
      (seq idx (length ops)).
Proof.
  induction ops as [|op ops IH]; intros idx; [reflexivity|].
  cbn [stepsEvents length seq flat_map].
  rewrite invocations_app, IH. reflexivity.
Qed.

Lemma progressView_startEvents this id :
  progressView (startEvents this id) = [].
Proof.
  unfold startEvents.
  destruct (startsTimer this), (truthy (loadingScreen this)); reflexivity.
Qed.

Lemma progressView_finishEvents this ti :
  progressView (finishEvents this ti) = finalProgress.
Proof.
  unfold finishEvents.
  destruct (truthy (loadingTips this)), ti; reflexivity.
Qed.

Lemma progressView_callbackEvents cb u :
  progressView (callbackEvents cb u) = [].
Proof.
  destruct cb as [f|]; [|reflexivity]. simpl.
  destruct (snd (f u)); reflexivity.
Qed.

Lemma progressView_stepsEvents n ops : forall idx,
  progressView (stepsEvents n idx ops)
  = flat_map (fun i => [SetStyleWidth LoadingProgressBar (progressText n i);
                        SetTextContent LoadingPercentage
                          (progressText n i);
                        FuncCalled i]) (seq idx (length ops)).
Proof.
  induction ops as [|op ops IH]; intros idx; [reflexivity|].
  cbn [stepsEvents length seq flat_map].
  rewrite progressView_app, IH. reflexivity.
Qed.

(** C1, as the code has it.  In a run whose steps all return, the
    progress bar width and the percentage written immediately before step
    [i] of [n] is called are both [Math.round((100 / n) * i)] followed by
    a percent sign, the arithmetic being that of binary64; after the last
    step both are set to 100%.  For [n = 3] the values before the steps
    are 0, 33 and 67. *)
Theorem C1_progress_before_each_step this fl cb w :
  microtasks w = [] ->
  configured this = true ->
  allReturn fl ->
  progressView (eventsSince w (runTask (CallInit this fl cb) w))
  = preStepProgress progressText (length fl) ++ finalProgress
  /\ map (progressText 3) [0; 1; 2]%nat = ["0%"; "33%"; "67%"].
Proof.
  intros Hq Hc Hret. split; [|vm_compute; reflexivity].
  erewrite eventsSince_app
    by (rewrite (run_success this fl cb w Hq Hc Hret); reflexivity).
  rewrite !progressView_app, progressView_startEvents,
    progressView_stepsEvents, progressView_finishEvents,
    progressView_callbackEvents.
  rewrite app_nil_r. reflexivity.
Qed.

(** C2.  In a run whose steps all return, each step's function is called
    exactly once, in submission order, each call returning before the next
    one is made; the callback, when given, is called exactly once, after
    the last step returned.  The application state is the one the
    functions produce when applied in that order. *)
Theorem C2_each_step_once_in_order this fl cb w :
  microtasks w = [] ->
  configured this = true ->
  allReturn fl ->
  invocations (eventsSince w (runTask (CallInit this fl cb) w))
  = callsInOrder (length fl) ++ callbackCall cb
  /\ user (page (runTask (CallInit this fl cb) w))
     = afterCallback cb (runUser fl (user (page w))).
Proof.
  intros Hq Hc Hret.
  pose proof (run_success this fl cb w Hq Hc Hret) as Hrun.
  split; [|rewrite Hrun; reflexivity].
  erewrite eventsSince_app by (rewrite Hrun; reflexivity).
  rewrite !invocations_app, invocations_startEvents,
    invocations_stepsEvents, invocations_finishEvents,
    invocations_callbackEvents.
  reflexivity.
Qed.

(** C3.  When the function of step [k] throws [e] (the steps before it
    having returned), the error is not caught: the trace of the run ends
    with the label, bar and percentage written for step [k], its call,
    its throw and the report of the unhandled rejection, so no later step
    is called, the callback is not called and no sink is written after
    the values set for step [k]; the timers are those alive when
    [initLoadOperation] returned, the run's own among them. *)
Theorem C3_failure_stops_the_run this before op after cb w u' e :
  microtasks w = [] ->
  stepSinksPresent this = true ->
  allReturn before ->
  func op (runUser before (user (page w))) = (u', Throw e) ->
  let fl := before ++ op :: after in
  let w' := runTask (CallInit this fl cb) w in
  eventsSince w w'
  = startEvents this (nextTimerId (page w))
      ++ stepsEvents (length fl) 0 before
      ++ preStepEvents (length fl) (length before) op
      ++ [FuncCalled (length before); FuncThrew (length before) e;
          UnhandledRejection e]
  /\ invocations (eventsSince w w')
     = callsInOrder (length before)
         ++ [FuncCalled (length before); FuncThrew (length before) e]
  /\ timers (page w')
     = timers (page w)
         ++ (if startsTimer this
             then [mkTimer (nextTimerId (page w)) 10000 (TipTick this)]
             else [])
  /\ microtasks w' = [].
Proof.
  intros Hq Hs Hret Hf fl w'.
  pose proof (run_failure this before op after cb w u' e Hq Hs Hret Hf)
    as Hrun. cbv zeta in Hrun. fold fl in Hrun. fold w' in Hrun.
  assert (eventsSince w w'
          = startEvents this (nextTimerId (page w))
              ++ stepsEvents (length fl) 0 before
              ++ preStepEvents (length fl) (length before) op
              ++ [FuncCalled (length before); FuncThrew (length before) e;
                  UnhandledRejection e]) as HE.
  { apply eventsSince_app. rewrite Hrun. reflexivity. }
  split; [exact HE|]. split; [|split].
  - rewrite HE, !invocations_app, invocations_startEvents,
      invocations_stepsEvents. reflexivity.
  - rewrite Hrun. reflexivity.
  - apply (runTask_CallInit this fl cb w Hq).
Qed.

(** C6.  A run of no steps is legal.  Its trace is the start of the run,
    then the percentage and the bar set to 100%, the screen hidden, the
    tip text cleared and the timer stopped, then the callback: the only
    progress writes are the two of 100%, the label is never written, no
    step function is called, and the callback is called once when
    given. *)
Theorem C6_zero_steps this cb w :
  microtasks w = [] ->
  finishSinksPresent this = true ->
  let E := eventsSince w (runTask (CallInit this [] cb) w) in
  E = startEvents this (nextTimerId (page w))
        ++ finishEvents this (startTimerId this (page w))
        ++ callbackEvents cb (user (page w))
  /\ List.filter isProgressWrite E = finalProgress
  /\ List.filter isLabelWrite E = []
  /\ invocations E = callbackCall cb
  /\ microtasks (runTask (CallInit this [] cb) w) = [].
Proof.
  intros Hq Hf E.
  destruct (runTask_CallInit this [] cb w Hq) as [Hq' Hpg].
  unfold allHandlers in Hpg. cbn [map stepHandlers app] in Hpg.
  rewrite (finalThen_runs _ _ _ _ Hf) in Hpg.
  assert (E = startEvents this (nextTimerId (page w))
                ++ finishEvents this (startTimerId this (page w))
                ++ callbackEvents cb (user (page w))) as HE.
  { apply eventsSince_app. rewrite Hpg. cbn. rewrite <- !app_assoc.
    reflexivity. }
  split; [exact HE|]. rewrite HE. clear HE Hpg. repeat split.
  - rewrite !List.filter_app. unfold startEvents, finishEvents.
    destruct (startsTimer this), (truthy (loadingScreen this)),
      (truthy (loadingTips this)), (startTimerId this (page w)),
      cb as [f|]; cbn; try destruct (snd (f _)); reflexivity.
  - rewrite !List.filter_app. unfold startEvents, finishEvents.
    destruct (startsTimer this), (truthy (loadingScreen this)),
      (truthy (loadingTips this)), (startTimerId this (page w)),
      cb as [f|]; cbn; try destruct (snd (f _)); reflexivity.
  - rewrite !invocations_app, invocations_startEvents,
      invocations_finishEvents, invocations_callbackEvents. reflexivity.
  - exact Hq'.
Qed.

(** *** Timers across runs *)

Lemma reachable_drain allowed (u0 : U) fuel : forall w,
  reachable allowed u0 w -> reachable allowed u0 (drain fuel w).
Proof.
  induction fuel as [|fuel IH]; intros w Hw; simpl; [assumption|].
  destruct (microtasks w) eqn:Hq; [assumption|].
  apply IH. apply reach_job; [assumption|]. rewrite Hq. discriminate.
Qed.

Lemma reachable_runTask allowed (u0 : U) t w :
  reachable allowed u0 w -> microtasks w = [] -> allowed t ->
  reachable allowed u0 (runTask t w).
Proof.
  intros Hw Hq Ht. unfold runTask, runMicrotasks.
  apply reachable_drain. now apply reach_task.
Qed.

Lemma chainCompletes_allHandlers this fl ts ti cb ops tail : forall idx,
  stepSinksPresent this = true ->
  finishSinksPresent this = true ->
  withoutTimer ti ts = [] ->
  drop idx fl = ops ++ tail ->
  allReturn ops ->
  chainCompletes ts
    (stepHandlers this fl (map func ops) idx ++ [FinalThen this ti cb]).
Proof.
  induction ops as [|op ops IH]; intros idx Hs Hf Hts Hdrop Hret.
  - simpl. now constructor.
  - apply Forall_cons in Hret as [Hop Hret].
    cbn [map stepHandlers app]. constructor; try assumption.
    + exists op.
      rewrite <- (Nat.add_0_r idx), <- lookup_drop, Hdrop. reflexivity.
    + apply IH; try assumption.
      rewrite <- Nat.add_1_r, <- drop_drop, Hdrop. reflexivity.
Qed.

Lemma timerInvariant_job w :
  timerInvariant w -> microtasks w <> [] ->
  timerInvariant (microtaskStep w).
Proof.
  intros [[Hq _]|(pre & h & hs & v & Hps & Hq & Hlen & Hchain)] Hne;
    [congruence|].
  unfold microtaskStep, runJob. rewrite Hq.
  cbn [argument derived handler page set_microtasks].
  inversion Hchain as [this ti cb Hf Hts|this fl f idx hs' Hs Hop Hret Hrest];
    subst.
  - (* the final handler: the timer is stopped, the chain ends *)
    left.
    pose proof (finalThen_runs this ti cb (page w) Hf) as Hfin.
    cbn [runHandlers] in Hfin.
    destruct (runHandler (FinalThen this ti cb) (page w))
      as [pg [v'|e]] eqn:Hrun.
    + apply runHandler_value in Hrun as ->.
      cbn [chainOutcome] in Hfin. subst pg.
      rewrite (fulfill_chain [] pre) by (assumption || reflexivity).
      split; [reflexivity|exact Hts].
    + cbn [chainOutcome] in Hfin.
      rewrite (reject_chain [] pre) by (assumption || reflexivity).
      cbn [page microtasks set_page]. split; [reflexivity|].
      rewrite Hfin. exact Hts.
  - (* a step: it returns, the next handler is queued *)
    right. destruct Hop as [op Hop].
    destruct (f (user (page w))) as [u' r] eqn:Hfu.
    destruct (Hret (user (page w))) as [v' Hv']. rewrite Hfu in Hv'.
    simpl in Hv'. subst r.
    rewrite (stepThen_returns this fl f idx op (page w) u' v' Hs Hop Hfu).
    destruct hs as [|h1 hs1]; [inversion Hrest|].
    rewrite (fulfill_chain (h1 :: hs1) pre)
      by (assumption || reflexivity).
    exists (pre ++ [Fulfilled VUndefined]), h1, hs1, VUndefined.
    rewrite length_app, Nat.add_1_r. cbn [promises microtasks page timers].
    repeat split; try assumption.
    now rewrite <- app_assoc.
Qed.

Lemma timerInvariant_task w t :
  timerInvariant w -> microtasks w = [] -> completingTask t ->
  timerInvariant (performTask t w).
Proof.
  intros [[_ Hts]|(pre & h & hs & v & _ & Hq' & _)] Hq Ht;
    [|congruence].
  destruct Ht as [this fl cb Hc Hret|id u].
  - right.
    destruct (allHandlers_cons this fl (startTimerId this (page w)) cb)
      as (h & hs & Hall).
    unfold performTask.
    rewrite (initLoadOperation_sync this fl cb w h hs Hall). cbn [fst].
    exists (promises w ++ [Fulfilled VUndefined]), h, hs, VUndefined.
    rewrite length_app, Nat.add_1_r, Hq.
    cbn [promises microtasks page app].
    unfold configured in Hc. apply andb_true_iff in Hc as [Hs Hf].
    split; [now rewrite <- app_assoc|]. split; [reflexivity|].
    assert (timers (startPage this (page w))
            = if startsTimer this
              then [mkTimer (nextTimerId (page w)) 10000 (TipTick this)]
              else []) as Htimers.
    { unfold startPage. cbn. rewrite Hts. reflexivity. }
    split.
    + rewrite Htimers. destruct (startsTimer this); simpl; lia.
    + rewrite <- Hall. unfold allHandlers.
      apply (chainCompletes_allHandlers this fl _ _ cb fl []);
        try assumption; [|now rewrite app_nil_r].
      rewrite Htimers. unfold startTimerId.
      destruct (startsTimer this); [|reflexivity].
      cbn. rewrite Pos.eqb_refl. reflexivity.
  - left. unfold performTask. rewrite Hts. cbn. split; assumption.
Qed.

Lemma reachable_timerInvariant (u0 : U) w :
  reachable completingTask u0 w -> timerInvariant w.
Proof.
  induction 1 as [|w Hw IH Hne|w t Hw IH Hq Ht].
  - left. split; reflexivity.
  - now apply timerInvariant_job.
  - now apply timerInvariant_task.
Qed.

(** C5, as the code has it.  On a page whose runs are all made on fully
    configured controllers with steps that return, each started when the
    queue of the previous one is empty, at most one tip timer is alive in
    every state the machine passes through, and none is alive between
    runs. *)
Theorem C5_one_timer_while_runs_complete (u0 : U) w :
  reachable completingTask u0 w ->
  (length (timers (page w)) <= 1)%nat
  /\ (microtasks w = [] -> timers (page w) = []).
Proof.
  intros Hw. apply reachable_timerInvariant in Hw.
  destruct Hw as [[Hq Hts]|(pre & h & hs & v & _ & Hq & Hlen & _)].
  - rewrite Hts. split; [simpl; lia|reflexivity].
  - split; [exact Hlen|]. rewrite Hq. discriminate.
Qed.

(** While every run completes, the interval never gets to fire: a timer
    task finds no interval alive, so tips rotate only after a failed
    run. *)
Lemma no_rotation_while_runs_complete (u0 : U) w id u :
  reachable completingTask u0 w -> microtasks w = [] ->
  performTask (TimerFires id u) w = w.
Proof.
  intros Hw Hq. apply reachable_timerInvariant in Hw.
  destruct Hw as [[_ Hts]|(pre & h & hs & v & _ & Hq' & _)]; [|congruence].
  unfold performTask. rewrite Hts. reflexivity.
Qed.

(** *** After the run *)

Lemma runMicrotasks_idle w : microtasks w = [] -> runMicrotasks w = w.
Proof. intros Hq. unfold runMicrotasks. now apply drain_idle. Qed.

Lemma runTask_no_timers id u w :
  microtasks w = [] -> timers (page w) = [] ->
  runTask (TimerFires id u) w = w.
Proof.
  intros Hq Hts. unfold runTask, performTask. rewrite Hts. cbn.
  now apply runMicrotasks_idle.
Qed.

Lemma eventLoop_no_timers (ticks : list (TimerId * spec_float)) w :
  microtasks w = [] -> timers (page w) = [] ->
  eventLoop (map (fun t => TimerFires (fst t) (snd t)) ticks) w = w.
Proof.
  intros Hq Hts. induction ticks as [|[id u] ticks IH]; [reflexivity|].
  unfold eventLoop in *. cbn [map fold_left fst snd].
  rewrite (runTask_no_timers id u w Hq Hts). exact IH.
Qed.

(** C10.  When [initLoadOperation] returns it has shown the loading
    screen and written the first tip (and registered the interval), and
    nothing else: no step function has run, no label, bar or percentage
    has been written, the application state is untouched and one job is
    waiting.  The steps then run in the checkpoint that follows, each as
    soon as the one before has returned, also when every step function
    hands back a promise of its own: the controller does not wait for
    it. *)
Theorem C10_returns_before_the_first_step this fl cb w :
  let w1 := performTask (CallInit this fl cb) w in
  eventsSince w w1 = startEvents this (nextTimerId (page w))
  /\ invocations (eventsSince w w1) = []
  /\ List.filter isLabelWrite (eventsSince w w1) = []
  /\ List.filter isProgressWrite (eventsSince w w1) = []
  /\ user (page w1) = user (page w)
  /\ length (microtasks w1) = S (length (microtasks w))
  /\ (microtasks w = [] ->
      configured this = true ->
      Forall (fun op => forall u, snd (func op u) = Normal VThenable) fl ->
      eventsSince w1 (runMicrotasks w1)
      = stepsEvents (length fl) 0 fl
          ++ finishEvents this (startTimerId this (page w))
          ++ callbackEvents cb (runUser fl (user (page w)))
      /\ microtasks (runMicrotasks w1) = []).
Proof.
  intros w1.
  destruct (performTask_CallInit this fl cb w) as [Hpg Hlen].
  fold w1 in Hpg, Hlen.
  assert (eventsSince w w1 = startEvents this (nextTimerId (page w))) as HE
    by (apply eventsSince_app; rewrite Hpg; reflexivity).
  rewrite HE.
  split; [reflexivity|]. split; [apply invocations_startEvents|].
  split; [|split; [|split; [|split]]].
  - unfold startEvents.
    destruct (startsTimer this), (truthy (loadingScreen this)); reflexivity.
  - unfold startEvents.
    destruct (startsTimer this), (truthy (loadingScreen this)); reflexivity.
  - rewrite Hpg. reflexivity.
  - exact Hlen.
  - intros Hq Hc Hthen.
    assert (allReturn fl) as Hret.
    { unfold allReturn. eapply Forall_impl; [exact Hthen|].
      intros op Hop u. exists VThenable. apply Hop. }
    pose proof (run_success this fl cb w Hq Hc Hret) as Hrun.
    unfold runTask in Hrun. fold w1 in Hrun.
    split.
    + apply eventsSince_app. rewrite Hrun, Hpg. cbn [trace startPage].
      rewrite <- !app_assoc. reflexivity.
    + apply runMicrotasks_quiescent.
Qed.

(** C4, as the code has it.  With the label, percentage, progress bar and
    loading screen elements configured, a controller without a tip
    element runs every step and completes: nothing is written to the tip
    element, no interval is started, every step function is called once
    in order and the callback is called. *)
Theorem C4_tip_sink_is_optional this fl cb w :
  microtasks w = [] ->
  configured this = true ->
  loadingTips this = None ->
  allReturn fl ->
  let w' := runTask (CallInit this fl cb) w in
  eventsSince w w'
  = [ClassListRemove LoadingScreen "hidden"]
      ++ stepsEvents (length fl) 0 fl
      ++ [SetTextContent LoadingPercentage "100%";
          SetStyleWidth LoadingProgressBar "100%";
          ClassListAdd LoadingScreen "hidden"]
      ++ callbackEvents cb (runUser fl (user (page w)))
  /\ invocations (eventsSince w w') = callsInOrder (length fl)
                                        ++ callbackCall cb
  /\ timers (page w') = timers (page w).
Proof.
  intros Hq Hc Htip Hret w'.
  pose proof (run_success this fl cb w Hq Hc Hret) as Hrun.
  fold w' in Hrun.
  assert (startsTimer this = false) as Hno
    by (unfold startsTimer; rewrite Htip; reflexivity).
  assert (truthy (loadingScreen this) = true) as Hsc.
  { unfold configured in Hc. apply andb_true_iff in Hc as [_ Hf].
    unfold finishSinksPresent in Hf.
    now apply andb_true_iff in Hf as [_ Hf]. }
  assert (eventsSince w w'
          = [ClassListRemove LoadingScreen "hidden"]
              ++ stepsEvents (length fl) 0 fl
              ++ [SetTextContent LoadingPercentage "100%";
                  SetStyleWidth LoadingProgressBar "100%";
                  ClassListAdd LoadingScreen "hidden"]
              ++ callbackEvents cb (runUser fl (user (page w)))) as HE.
  { apply eventsSince_app. rewrite Hrun. cbn [trace].
    unfold startEvents, finishEvents, startTimerId.
    rewrite Hno, Hsc, Htip. reflexivity. }
  split; [exact HE|split].
  - rewrite HE, !invocations_app, invocations_stepsEvents,
      invocations_callbackEvents. reflexivity.
  - rewrite Hrun. cbn. unfold startTimerId. rewrite Hno. cbn.
    apply app_nil_r.
Qed.

(** C9, as the code has it.  The constructor never raises: whatever
    the options, it returns a controller.  When the label element is
    missing the failure comes at first use: a run of at least one step
    starts as usual, then the first handler's write of the label raises a
    [TypeError] that nobody catches; no step function is called. *)
Theorem C9_constructor_accepts_missing_label (options : Options) :
  exists this,
    constructor options = Normal this
    /\ (opt_loadingText options = None ->
        forall op fl cb w,
          microtasks w = [] ->
          eventsSince w (runTask (CallInit this (op :: fl) cb) w)
          = startEvents this (nextTimerId (page w))
              ++ [UnhandledRejection
                    (TypeError "Cannot read properties of undefined")]).
Proof.
  eexists. split; [reflexivity|].
  intros Hl op fl cb w Hq.
  apply eventsSince_app.
  rewrite (run_without_label _ op fl cb w Hq) by exact Hl.
  cbn. rewrite <- app_assoc. reflexivity.
Qed.

(** *** Tips *)

Lemma runTask_TimerFires this el id id' ms u w :
  microtasks w = [] ->
  findTimer id (timers (page w)) = Some (mkTimer id' ms (TipTick this)) ->
  loadingTips this = Some el ->
  eventsSince w (runTask (TimerFires id u) w)
  = [SetTextContent LoadingTips
       (stringAtNumber (tips this) (randomTipIndex this u))].
Proof.
  intros Hq Hfind Htip. apply eventsSince_app. unfold runTask.
  assert (performTask (TimerFires id u) w
          = set_page
              (set_trace
                 (trace (page w)
                    ++ [SetTextContent LoadingTips
                          (stringAtNumber (tips this)
                             (randomTipIndex this u))])
                 (page w)) w) as ->.
  { unfold performTask. rewrite Hfind. unfold lift, tipTick.
    rewrite Htip. reflexivity. }
  rewrite runMicrotasks_idle by exact Hq. reflexivity.
Qed.

(** C7.  With a tip element and a non-empty tip list, [initLoadOperation]
    itself, before it returns and so before any timer can fire, registers
    an interval of 10000 ms and writes the first tip.  Whenever that
    interval fires, the tip element is set to the element of the tip list
    at index [Math.floor(u * length)], [u] being the draw [Math.random()]
    returned; the index is always within the list, and every index of the
    list is the one selected by some draw.  With an empty tip list no
    interval is registered and no tip is written. *)
Theorem C7_first_tip_then_rotation this fl cb w :
  let w1 := performTask (CallInit this fl cb) w in
  (forall el t0 rest,
      loadingTips this = Some el ->
      tips this = t0 :: rest ->
      eventsSince w w1
      = [SetIntervalCalled (nextTimerId (page w)) 10000;
         SetTextContent LoadingTips t0]
          ++ (if truthy (loadingScreen this)
              then [ClassListRemove LoadingScreen "hidden"] else [])
      /\ timers (page w1)
         = timers (page w)
             ++ [mkTimer (nextTimerId (page w)) 10000 (TipTick this)]
      /\ (forall (w2 : World U) id id' ms u,
           microtasks w2 = [] ->
           findTimer id (timers (page w2))
           = Some (mkTimer id' ms (TipTick this)) ->
           Number.unitDraw u = true ->
           (Z.of_nat (length (tips this)) < 2 ^ 53)%Z ->
           exists j t,
             randomTipIndex this u = Number.Int (Z.of_nat j)
             /\ tips this !! j = Some t
             /\ eventsSince w2 (runTask (TimerFires id u) w2)
                = [SetTextContent LoadingTips t])
      /\ (forall j,
           (j < length (tips this))%nat ->
           (Z.of_nat (length (tips this)) < 2 ^ 26)%Z ->
           exists u,
             Number.unitDraw u = true
             /\ randomTipIndex this u = Number.Int (Z.of_nat j)))
  /\ (tips this = [] ->
      eventsSince w w1
      = (if truthy (loadingScreen this)
         then [ClassListRemove LoadingScreen "hidden"] else [])
      /\ timers (page w1) = timers (page w)).
Proof.
  intros w1.
  destruct (performTask_CallInit this fl cb w) as [Hpg _]. fold w1 in Hpg.
  split.
  - intros el t0 rest Htip Htips.
    assert (startsTimer this = true) as Hst
      by (unfold startsTimer; rewrite Htip, Htips; reflexivity).
    split; [|split; [|split]].
    + apply eventsSince_app. rewrite Hpg. cbn [trace startPage].
      unfold startEvents. rewrite Hst, Htips. reflexivity.
    + rewrite Hpg. cbn [timers startPage]. rewrite Hst. reflexivity.
    + intros w2 id id' ms u Hq Hfind Hu Hlen.
      destruct (floor_unit_draw_times_length u (length (tips this)) Hu)
        as (j & Hj & Hlt); [rewrite Htips; simpl; lia|exact Hlen|].
      destruct (lookup_lt_is_Some_2 (tips this) j Hlt) as [t Ht].
      exists j, t. split; [exact Hj|]. split; [exact Ht|].
      rewrite (runTask_TimerFires this el id id' ms u w2 Hq Hfind Htip).
      unfold randomTipIndex in Hj |- *. rewrite Hj.
      unfold stringAtNumber, stringAt.
      replace (0 <=? Z.of_nat j)%Z with true
        by (symmetry; apply Z.leb_le; lia).
      rewrite Nat2Z.id, Ht. reflexivity.
    + intros j Hj Hlen. exists (drawSelecting (length (tips this)) j).
      exact (drawSelecting_selects _ j Hj Hlen).
  - intros Htips.
    assert (startsTimer this = false) as Hst.
    { unfold startsTimer. rewrite Htips. apply andb_false_r. }
    split.
    + apply eventsSince_app. rewrite Hpg. cbn [trace startPage].
      unfold startEvents. rewrite Hst. reflexivity.
    + rewrite Hpg. cbn [timers startPage]. rewrite Hst. apply app_nil_r.
Qed.

End Claims.

(** * The claims on the demo page *)

Lemma abc_return : allReturn Demo.abc.
Proof. repeat constructor; intros u; eexists; reflexivity. Qed.

Lemma asyncSteps_return_thenables :
  Forall (fun op : MB_AsyncLoadOperation Demo.Log =>
            forall u, snd (func op u) = Normal VThenable) Demo.asyncSteps.
Proof. repeat constructor. Qed.

(** C1 on three steps: 0%, 33% and 67% before the steps, 100% at the end. *)
Lemma C1_witness :
  progressView
    (eventsSince Demo.start
       (runTask (CallInit Demo.controller Demo.abc (Some Demo.done))
          Demo.start))
  = preStepProgress progressText 3 ++ finalProgress
  /\ map (progressText 3) [0; 1; 2]%nat = ["0%"; "33%"; "67%"].
Proof.
  apply (C1_progress_before_each_step Demo.controller Demo.abc
           (Some Demo.done) Demo.start);
    [reflexivity | reflexivity | exact abc_return].
Defined.

(** C1 as stated fails on three steps: the values written before the
    steps are not floor (100 * i / 3) = 0, 33, 66; before the third step
    67% is written. *)
Lemma C1_counterexample :
  ~ exists rest,
      progressView
        (eventsSince Demo.start
           (runTask (CallInit Demo.controller Demo.abc (Some Demo.done))
              Demo.start))
      = preStepProgress floorProgressText 3 ++ rest.
Proof.
  intros [rest H]. vm_compute in H. discriminate H.
Qed.

(** C2 on steps A, B, C appending to a shared log. *)
Lemma C2_witness :
  invocations
    (eventsSince Demo.start
       (runTask (CallInit Demo.controller Demo.abc (Some Demo.done))
          Demo.start))
  = [FuncCalled 0; FuncReturned 0; FuncCalled 1; FuncReturned 1;
     FuncCalled 2; FuncReturned 2; CallbackCalled]
  /\ user (page (runTask (CallInit Demo.controller Demo.abc (Some Demo.done))
                  Demo.start))
     = ["A"; "B"; "C"; "done"].
Proof.
  apply (C2_each_step_once_in_order Demo.controller Demo.abc
           (Some Demo.done) Demo.start);
    [reflexivity | reflexivity | exact abc_return].
Defined.

(** C3 on steps A, B, C where B throws. *)
Lemma C3_witness :
  let w' := runTask (CallInit Demo.controller Demo.aFailsC (Some Demo.done))
              Demo.start in
  eventsSince Demo.start w'
  = [SetIntervalCalled 1 10000;
     SetTextContent LoadingTips
       "In some levels, you can jump using the spacebar.";
     ClassListRemove LoadingScreen "hidden";
     SetTextContent LoadingText "A";
     SetStyleWidth LoadingProgressBar "0%";
     SetTextContent LoadingPercentage "0%";
     FuncCalled 0; FuncReturned 0;
     SetTextContent LoadingText "B";
     SetStyleWidth LoadingProgressBar "33%";
     SetTextContent LoadingPercentage "33%";
     FuncCalled 1; FuncThrew 1 (Error "B failed");
     UnhandledRejection (Error "B failed")]
  /\ invocations (eventsSince Demo.start w')
     = [FuncCalled 0; FuncReturned 0;
        FuncCalled 1; FuncThrew 1 (Error "B failed")]
  /\ timers (page w') = [mkTimer 1 10000 (TipTick Demo.controller)]
  /\ microtasks w' = [].
Proof.
  apply (C3_failure_stops_the_run Demo.controller
           [mkOperation "A" (Demo.appendToLog "A")]
           (mkOperation "B" (Demo.failing "B failed"))
           [mkOperation "C" (Demo.appendToLog "C")]
           (Some Demo.done) Demo.start ["A"] (Error "B failed"));
    [reflexivity | reflexivity | | reflexivity].
  repeat constructor; intros u; eexists; reflexivity.
Defined.

(** C4 on a controller without a tip element. *)
Lemma C4_witness :
  let w' := runTask (CallInit Demo.withoutTips Demo.abc (Some Demo.done))
              Demo.start in
  eventsSince Demo.start w'
  = [ClassListRemove LoadingScreen "hidden"]
      ++ stepsEvents 3 0 Demo.abc
      ++ [SetTextContent LoadingPercentage "100%";
          SetStyleWidth LoadingProgressBar "100%";
          ClassListAdd LoadingScreen "hidden"]
      ++ [CallbackCalled]
  /\ invocations (eventsSince Demo.start w')
     = callsInOrder 3 ++ [CallbackCalled]
  /\ timers (page w') = [].
Proof.
  apply (C4_tip_sink_is_optional Demo.withoutTips Demo.abc
           (Some Demo.done) Demo.start);
    [reflexivity | reflexivity | reflexivity | exact abc_return].
Defined.

(** C4 as stated fails when the percentage element is absent: the first
    handler raises at the percentage write, so no step function is ever
    called, the callback is not called, and the error is reported. *)
Lemma C4_counterexample :
  let E := eventsSince Demo.start
             (runTask (CallInit Demo.withoutPercentage Demo.abc
                         (Some Demo.done)) Demo.start) in
  invocations E <> callsInOrder 3 ++ [CallbackCalled]
  /\ invocations E = []
  /\ last E = Some (UnhandledRejection
                      (TypeError "Cannot read properties of undefined")).
Proof.
  vm_compute. repeat split; discriminate.
Qed.

(** What the missing guards do when the progress bar or the loading
    screen is absent. *)
Example progress_bar_absent :
  eventsSince Demo.start
    (runTask (CallInit Demo.withoutProgressBar Demo.abc (Some Demo.done))
       Demo.start)
  = [SetIntervalCalled 1 10000;
     SetTextContent LoadingTips
       "In some levels, you can jump using the spacebar.";
     ClassListRemove LoadingScreen "hidden";
     SetTextContent LoadingText "A";
     UnhandledRejection (TypeError "Cannot read properties of undefined")].
Proof. vm_compute. reflexivity. Qed.

Example loading_screen_absent :
  invocations
    (eventsSince Demo.start
       (runTask (CallInit Demo.withoutScreen Demo.abc (Some Demo.done))
          Demo.start))
  = callsInOrder 3
  /\ last (eventsSince Demo.start
             (runTask (CallInit Demo.withoutScreen Demo.abc (Some Demo.done))
                Demo.start))
     = Some (UnhandledRejection
               (TypeError "Cannot read properties of undefined")).
Proof. vm_compute. split; reflexivity. Qed.

(** C5 during a run: the run's own timer is the only one alive. *)
Lemma C5_witness :
  (length (timers (page (performTask
                           (CallInit Demo.controller Demo.abc None)
                           Demo.start))) <= 1)%nat
  /\ (microtasks (performTask (CallInit Demo.controller Demo.abc None)
                    Demo.start) = [] ->
      timers (page (performTask (CallInit Demo.controller Demo.abc None)
                      Demo.start)) = []).
Proof.
  apply (C5_one_timer_while_runs_complete ([] : Demo.Log)).
  apply reach_task;
    [apply reach_start | reflexivity
    | constructor; [reflexivity | exact abc_return]].
Defined.

(** C5 as stated fails: a run in which a step throws leaves its timer
    alive, and the next run on the same controller starts a second one. *)
Lemma C5_counterexample :
  let failed := runTask (CallInit Demo.controller Demo.aFailsC None)
                  Demo.start in
  let second := performTask (CallInit Demo.controller Demo.abc None)
                  failed in
  reachable anyTask [] second
  /\ microtasks failed = []
  /\ map timer_id (timers (page second)) = [1; 2]%positive
  /\ ~ (length (timers (page second)) <= 1)%nat.
Proof.
  cbv zeta. split; [|vm_compute; repeat split; [lia]].
  apply reach_task; [|reflexivity|exact I].
  apply reachable_runTask; [apply reach_start|reflexivity|exact I].
Qed.

(** C6 on the demo controller. *)
Lemma C6_witness :
  let E := eventsSince Demo.start
             (runTask (CallInit Demo.controller [] (Some Demo.done))
                Demo.start) in
  E = [SetIntervalCalled 1 10000;
       SetTextContent LoadingTips
         "In some levels, you can jump using the spacebar.";
       ClassListRemove LoadingScreen "hidden";
       SetTextContent LoadingPercentage "100%";
       SetStyleWidth LoadingProgressBar "100%";
       ClassListAdd LoadingScreen "hidden";
       SetTextContent LoadingTips "";
       ClearIntervalCalled 1;
       CallbackCalled]
  /\ List.filter isProgressWrite E = finalProgress
  /\ List.filter isLabelWrite E = []
  /\ invocations E = [CallbackCalled]
  /\ microtasks (runTask (CallInit Demo.controller [] (Some Demo.done))
                   Demo.start) = [].
Proof.
  apply (C6_zero_steps Demo.controller (Some Demo.done) Demo.start);
    reflexivity.
Defined.

(** C9 as stated fails: the constructor does not raise when the label
    element is missing. *)
Lemma C9_counterexample :
  ~ exists e, constructor Demo.withoutLabel = Throw e.
Proof. intros [e H]. discriminate H. Qed.

(** C9 on options without a label element. *)
Lemma C9_witness :
  exists this,
    constructor Demo.withoutLabel = Normal this
    /\ eventsSince Demo.start
         (runTask (CallInit this Demo.abc (Some Demo.done)) Demo.start)
       = [SetIntervalCalled 1 10000;
          SetTextContent LoadingTips
            "In some levels, you can jump using the spacebar.";
          ClassListRemove LoadingScreen "hidden";
          UnhandledRejection
            (TypeError "Cannot read properties of undefined")].
Proof.
  destruct (@C9_constructor_accepts_missing_label Demo.Log Demo.withoutLabel)
    as (this & Hc & Hrun).
  exists this. split; [exact Hc|].
  injection Hc as <-.
  exact (Hrun eq_refl _ _ (Some Demo.done) Demo.start eq_refl).
Defined.

(** C10 on steps that hand back promises of their own. *)
Lemma C10_witness :
  let w1 := performTask
              (CallInit Demo.controller Demo.asyncSteps (Some Demo.done))
              Demo.start in
  eventsSince Demo.start w1
  = [SetIntervalCalled 1 10000;
     SetTextContent LoadingTips
       "In some levels, you can jump using the spacebar.";
     ClassListRemove LoadingScreen "hidden"]
  /\ invocations (eventsSince Demo.start w1) = []
  /\ user (page w1) = []
  /\ length (microtasks w1) = 1%nat
  /\ eventsSince w1 (runMicrotasks w1)
     = stepsEvents 2 0 Demo.asyncSteps
         ++ finishEvents Demo.controller (Some 1%positive)
         ++ [CallbackCalled]
  /\ microtasks (runMicrotasks w1) = [].
Proof.
  destruct (C10_returns_before_the_first_step Demo.controller
              Demo.asyncSteps (Some Demo.done) Demo.start)
    as (H1 & H2 & _ & _ & H3 & H4 & H5).
  destruct (H5 eq_refl eq_refl asyncSteps_return_thenables) as [H6 H7].
  repeat split; assumption.
Defined.


(** C7 on the demo controller: the first tip at once; after a failed run
    the interval is still alive and the draw 0.75 selects the second of the
    two tips, which is therefore one that some draw selects.  With no tips
    given, only the screen is shown. *)
Lemma C7_witness :
  let w1 := performTask (CallInit Demo.controller Demo.abc None)
              Demo.start in
  let w2 := runTask (CallInit Demo.controller Demo.aFailsC None)
              Demo.start in
  let w3 := performTask (CallInit Demo.withEmptyTipList Demo.abc None)
              Demo.start in
  (eventsSince Demo.start w1
   = [SetIntervalCalled 1 10000;
      SetTextContent LoadingTips
        "In some levels, you can jump using the spacebar.";
      ClassListRemove LoadingScreen "hidden"]
   /\ timers (page w1) = [mkTimer 1 10000 (TipTick Demo.controller)]
   /\ exists j t,
        randomTipIndex Demo.controller Demo.threeQuarters
        = Number.Int (Z.of_nat j)
        /\ tips Demo.controller !! j = Some t
        /\ eventsSince w2 (runTask (TimerFires 1 Demo.threeQuarters) w2)
           = [SetTextContent LoadingTips t])
  /\ (exists u,
        Number.unitDraw u = true
        /\ randomTipIndex Demo.controller u = Number.Int 1)
  /\ (eventsSince Demo.start w3 = [ClassListRemove LoadingScreen "hidden"]
      /\ timers (page w3) = []).
Proof.
  cbv zeta.
  destruct (C7_first_tip_then_rotation Demo.controller Demo.abc None
              Demo.start) as [Hfirst _].
  destruct (C7_first_tip_then_rotation Demo.withEmptyTipList Demo.abc None
              Demo.start) as [_ Hempty].
  destruct (Hfirst "loadingTips"
              "In some levels, you can jump using the spacebar."
              ["Be careful not to touch the spikes!"] eq_refl eq_refl)
    as (H1 & H2 & Htick & Hdraw).
  split; [split; [exact H1|split; [exact H2|]]
         |split; [|exact (Hempty eq_refl)]].
  2:{ apply (Hdraw 1%nat); [vm_compute; lia|reflexivity]. }
  apply (Htick _ 1%positive 1%positive 10000%Z);
    [reflexivity | reflexivity | reflexivity | reflexivity].
Defined.


(** * The class in js/index.js on the demo page *)

(** A run of three steps: the bar is set to the same rounded values, the
    percentage element is never written, nothing is set to 100%, and the
    interval is not cleared. *)
Example indexjs_run :
  let w' := runTask (CallInitIndexJs Demo.controller Demo.abc
                       (Some Demo.done)) Demo.start in
  eventsSince Demo.start w'
  = [SetIntervalCalled 1 10000;
     SetTextContent LoadingTips
       "In some levels, you can jump using the spacebar.";
     SetStyleDisplay LoadingScreen "block";
     SetTextContent LoadingText "A";
     SetStyleWidth LoadingProgressBar "0%";
     FuncCalled 0; FuncReturned 0;
     SetTextContent LoadingText "B";
     SetStyleWidth LoadingProgressBar "33%";
     FuncCalled 1; FuncReturned 1;
     SetTextContent LoadingText "C";
     SetStyleWidth LoadingProgressBar "67%";
     FuncCalled 2; FuncReturned 2;
     SetStyleDisplay LoadingScreen "none";
     SetTextContent LoadingTips "";
     CallbackCalled]
  /\ map timer_id (timers (page w')) = [1%positive]
  /\ eventsSince w' (runTask (TimerFires 1 Demo.threeQuarters) w')
     = [SetTextContent LoadingTips "Be careful not to touch the spikes!"].
Proof. vm_compute. repeat split. Qed.

(** When it returns, the call has registered the interval, written the
    first tip and shown the screen; no step has run. *)
Example indexjs_returns_before_the_first_step :
  let w1 := performTask (CallInitIndexJs Demo.controller Demo.abc
                           (Some Demo.done)) Demo.start in
  eventsSince Demo.start w1
  = [SetIntervalCalled 1 10000;
     SetTextContent LoadingTips
       "In some levels, you can jump using the spacebar.";
     SetStyleDisplay LoadingScreen "block"]
  /\ user (page w1) = [] /\ length (microtasks w1) = 1%nat.
Proof. vm_compute. repeat split. Qed.

(** There the percentage element is never used, while the progress bar is
    written without a guard. *)
Example indexjs_sinks :
  invocations
    (eventsSince Demo.start
       (runTask (CallInitIndexJs Demo.withoutPercentage Demo.abc
                   (Some Demo.done)) Demo.start))
  = callsInOrder 3 ++ [CallbackCalled]
  /\ invocations
       (eventsSince Demo.start
          (runTask (CallInitIndexJs Demo.withoutProgressBar Demo.abc
                      (Some Demo.done)) Demo.start))
     = [].
Proof. vm_compute. split; reflexivity. Qed.


(** * The rest of the page's code: what it does *)

Section IndexJs.

Context {U : Type}.
Implicit Types (w : World U) (pg : Page U) (h : Handler U).
Implicit Types (fl ops : list (MB_AsyncLoadOperation U)).
Implicit Types (this : MB_AsyncLoadController).

Lemma reduce_thenAllIndexJs this fl (funcs : list (JsFunction U)) :
  forall idx p w,
    reduce (fun promise func idx =>
              promiseThen promise (StepThenIndexJs this fl func idx))
      funcs idx p w
    = thenAll (stepHandlersIndexJs this fl funcs idx) p w.
Proof.
  induction funcs as [|f fs IH]; intros idx p w; simpl; [reflexivity|].
  unfold bind. destruct (promiseThen _ _ w) as [w' [p'|e]];
    [apply IH|reflexivity].
Qed.

Lemma allHandlersIndexJs_cons this fl cb :
  exists h hs, allHandlersIndexJs this fl cb = h :: hs.
Proof. unfold allHandlersIndexJs. destruct fl; simpl; eauto. Qed.

Lemma initLoadOperationIndexJs_start {B} this
    (K : option TimerId -> Js U B) w :
  bind
    (lift (if truthy (loadingTips this) && (0 <? length (tips this))%nat
           then
             bind (setInterval (TipTick this) 10000)
               (fun id =>
                  bind (onElement (loadingTips this)
                          (SetTextContent LoadingTips
                             (stringAt (tips this) 0)))
                    (fun _ => ret (Some id)))
           else ret None))
    (fun tipInterval =>
       bind (lift (if truthy (loadingScreen this)
                   then onElement (loadingScreen this)
                          (SetStyleDisplay LoadingScreen "block")
                   else ret tt))
         (fun _ => K tipInterval)) w
  = K (startTimerId this (page w))
      (set_page (startPageIndexJs this (page w)) w).
Proof.
  destruct w as [[u ts nid tr] ps q].
  unfold startTimerId, startPageIndexJs, startEventsIndexJs, startedTimers,
    startsTimer.
  destruct this as [sc tx pc pb tp tl]; simpl.
  destruct tp as [tp|], tl as [|t0 tl], sc as [sc|]; simpl;
    unfold bind, lift, set_page; simpl;
    rewrite ?app_nil_r, <- ?app_assoc; reflexivity.
Qed.

Lemma initLoadOperationIndexJs_sync this fl cb w h hs :
  allHandlersIndexJs this fl cb = h :: hs ->
  initLoadOperationIndexJs this fl cb w
  = (mkWorld (startPageIndexJs this (page w))
       (promises w ++ Fulfilled VUndefined
          :: chainTail hs (S (length (promises w))))
       (microtasks w
          ++ [mkJob h (Normal VUndefined) (S (length (promises w)))]),
     Normal tt).
Proof.
  intros Hall. unfold initLoadOperationIndexJs.
  match goal with
  | |- bind _ (fun ti => bind _ (fun _ => @?k ti)) w = _ =>
      etransitivity; [exact (initLoadOperationIndexJs_start this k w)|]
  end.
  cbv beta zeta.
  unfold bind at 1, promiseResolve, newPromise.
  cbn [promises set_promises set_page page microtasks].
  unfold bind at 1. rewrite reduce_thenAllIndexJs.
  pose proof (thenAll_snoc_bind
                (stepHandlersIndexJs this fl (map func fl) 0)
                (FinalThenIndexJs this cb)
                (fun _ => ret tt)) as Hsnoc.
  unfold bind at 1 in Hsnoc. rewrite Hsnoc. clear Hsnoc.
  fold (allHandlersIndexJs this fl cb).
  rewrite Hall. unfold bind.
  rewrite (thenAll_fulfilled h hs (promises w) VUndefined)
    by reflexivity.
  reflexivity.
Qed.

(** A whole run of the class in js/index.js. *)
Lemma runTask_CallInitIndexJs this fl cb w :
  microtasks w = [] ->
  microtasks (runTask (CallInitIndexJs this fl cb) w) = []
  /\ page (runTask (CallInitIndexJs this fl cb) w)
     = chainOutcome
         (runHandlers (allHandlersIndexJs this fl cb)
            (startPageIndexJs this (page w))).
Proof.
  intros Hq.
  destruct (allHandlersIndexJs_cons this fl cb) as (h & hs & Hall).
  unfold runTask, performTask.
  rewrite (initLoadOperationIndexJs_sync this fl cb w h hs Hall). cbn [fst].
  rewrite Hq, Hall. cbn [app].
  set (w1 := mkWorld _ _ _).
  pose proof (drain_chain hs (promises w ++ [Fulfilled VUndefined]) h
                VUndefined w1) as H.
  rewrite length_app, Nat.add_1_r in H.
  destruct H as [H1 H2].
  { subst w1. cbn [promises]. now rewrite <- app_assoc. }
  { reflexivity. }
  rewrite (runMicrotasks_drain _ _ H1). split; assumption.
Qed.

(** Neither handler of js/index.js touches the timers. *)
Lemma keepsTimers_refl pg : keepsTimers pg pg.
Proof. split; [reflexivity|]. exists []. now rewrite app_nil_r. Qed.

Lemma keepsTimers_trans pg1 pg2 pg3 :
  keepsTimers pg1 pg2 -> keepsTimers pg2 pg3 -> keepsTimers pg1 pg3.
Proof.
  intros [Ht1 (E1 & He1 & Hc1)] [Ht2 (E2 & He2 & Hc2)].
  split; [congruence|]. exists (E1 ++ E2).
  rewrite He2, He1, <- app_assoc, List.filter_app, Hc1, Hc2.
  split; reflexivity.
Qed.

Ltac keeps_timers :=
  cbn; rewrite <- ?app_assoc; split;
  [reflexivity
  |first [ eexists; split; [reflexivity|reflexivity]
         | exists []; split; [now rewrite app_nil_r|reflexivity] ]].

Lemma runHandlerIndexJs_timers h pg :
  (exists this fl f idx, h = StepThenIndexJs this fl f idx)
  \/ (exists this cb, h = FinalThenIndexJs this cb) ->
  keepsTimers pg (fst (runHandler h pg)).
Proof.
  destruct pg as [u ts nid tr]. unfold keepsTimers.
  intros [(this & fl & f & idx & ->)|(this & cb & ->)];
    unfold runHandler, stepThenIndexJs, finalThenIndexJs, operationAt,
      onElement, callFunc, callCallback, bind, ret, throw, emit.
  - destruct (fl !! idx) as [op|], (loadingText this),
      (loadingProgressBar this); cbn;
      try destruct (f u) as [u' [v|e]]; keeps_timers.
  - destruct (loadingScreen this), (loadingTips this), cb as [f|]; cbn;
      try destruct (f u) as [u' [v|e]]; keeps_timers.
Qed.

Lemma runHandlersIndexJs_timers this fl cb :
  forall (funcs : list (JsFunction U)) idx pg,
    keepsTimers pg
      (chainOutcome
         (runHandlers (stepHandlersIndexJs this fl funcs idx
                         ++ [FinalThenIndexJs this cb]) pg)).
Proof.
  assert (forall pg e, keepsTimers pg (fst (emit (UnhandledRejection e) pg)))
    as Hemit.
  { intros pg e. split; [reflexivity|]. eexists. split; reflexivity. }
  induction funcs as [|f fs IH]; intros idx pg;
    cbn [stepHandlersIndexJs app runHandlers].
  - pose proof (runHandlerIndexJs_timers (FinalThenIndexJs this cb) pg
                  (or_intror (ex_intro _ this (ex_intro _ cb eq_refl))))
      as H.
    destruct (runHandler (FinalThenIndexJs this cb) pg) as [pg' [v|e]];
      cbn [fst chainOutcome runHandlers] in *; [exact H|].
    eapply keepsTimers_trans; [exact H|apply Hemit].
  - pose proof (runHandlerIndexJs_timers (StepThenIndexJs this fl f idx) pg)
      as H.
    destruct (runHandler (StepThenIndexJs this fl f idx) pg)
      as [pg' [v|e]]; cbn [fst chainOutcome] in *.
    + eapply keepsTimers_trans; [apply H; left; eauto 6|apply IH].
    + eapply keepsTimers_trans; [apply H; left; eauto 6|apply Hemit].
Qed.

Lemma runTask_CallInitIndexJs_timers this fl cb w :
  microtasks w = [] ->
  let w' := runTask (CallInitIndexJs this fl cb) w in
  microtasks w' = []
  /\ timers (page w')
     = timers (page w) ++ startedTimers this (nextTimerId (page w))
  /\ exists E, trace (page w') = trace (page w) ++ E
               /\ List.filter isClearInterval E = [].
Proof.
  intros Hq w'. subst w'.
  destruct (runTask_CallInitIndexJs this fl cb w Hq) as [Hq' Hpg].
  split; [exact Hq'|]. rewrite Hpg. unfold allHandlersIndexJs.
  destruct (runHandlersIndexJs_timers this fl cb (map func fl) 0
              (startPageIndexJs this (page w))) as [Ht (E & He & Hc)].
  rewrite Ht, He. split; [reflexivity|].
  cbn [trace startPageIndexJs].
  exists (startEventsIndexJs this (nextTimerId (page w)) ++ E).
  rewrite <- app_assoc, List.filter_app, Hc. split; [reflexivity|].
  unfold startEventsIndexJs.
  destruct (startsTimer this), (truthy (loadingScreen this)); reflexivity.
Qed.

Lemma eventLoop_CallInitIndexJs_timers (calls : list (@Call U)) :
  forall w,
    microtasks w = [] ->
    let w' := eventLoop (map callTaskIndexJs calls) w in
    microtasks w' = []
    /\ (exists added,
          timers (page w') = timers (page w) ++ added
          /\ length added
             = length (List.filter (fun c => startsTimer (fst (fst c)))
                         calls))
    /\ exists E, trace (page w') = trace (page w) ++ E
                 /\ List.filter isClearInterval E = [].
Proof.
  induction calls as [|[[this fl] cb] calls IH]; intros w Hq; cbn zeta.
  - cbn. split; [exact Hq|]. split; exists []; now rewrite app_nil_r.
  - destruct (runTask_CallInitIndexJs_timers this fl cb w Hq)
      as (Hq1 & Ht1 & E1 & He1 & Hc1).
    destruct (IH _ Hq1) as (Hq2 & (added & Ht2 & Hlen) & E2 & He2 & Hc2).
    unfold eventLoop in *. cbn [map fold_left].
    change (callTaskIndexJs (this, fl, cb)) with (CallInitIndexJs this fl cb).
    split; [exact Hq2|]. split.
    + exists (startedTimers this (nextTimerId (page w)) ++ added).
      split; [rewrite Ht2, Ht1; now rewrite app_assoc|].
      rewrite length_app, Hlen. cbn [List.filter fst].
      unfold startedTimers. destruct (startsTimer this); reflexivity.
    + exists (E1 ++ E2). rewrite He2, He1, <- app_assoc, List.filter_app,
        Hc1, Hc2. split; reflexivity.
Qed.

(** X1.  In js/index.js no run stops its tip timer, whatever its steps do:
    every run on a controller that has a tip element and tips adds one
    interval to the page, the intervals that were alive stay alive, and
    [clearInterval] is never called. *)
Theorem indexjs_runs_never_stop_their_timers
    (calls : list (@Call U)) (w : World U) :
  microtasks w = [] ->
  let w' := eventLoop (map callTaskIndexJs calls) w in
  (exists added,
      timers (page w') = timers (page w) ++ added
      /\ length added
         = length (List.filter (fun c => startsTimer (fst (fst c))) calls))
  /\ List.filter isClearInterval (eventsSince w w') = [].
Proof.
  intros Hq w'.
  destruct (eventLoop_CallInitIndexJs_timers calls w Hq)
    as (_ & Hadded & E & He & Hc).
  split; [exact Hadded|].
  rewrite (eventsSince_app w w' E He). exact Hc.
Qed.

(** *** A run of js/index.js in which every step returns *)

Lemma stepThenIndexJs_returns this fl f idx op pg u' v :
  sinksPresentIndexJs this = true ->
  fl !! idx = Some op ->
  f (user pg) = (u', Normal v) ->
  runHandler (StepThenIndexJs this fl f idx) pg
  = (mkPage u' (timers pg) (nextTimerId pg)
       (trace pg ++ stepEventsIndexJs (length fl) idx op),
     Normal VUndefined).
Proof.
  unfold sinksPresentIndexJs. intros Hs Hop Hf.
  destruct this as [[sc|] [tx|] pc [pb|] tp tl]; try discriminate.
  destruct pg as [u ts nid tr]. simpl in Hf.
  unfold runHandler, stepThenIndexJs, operationAt, bind. rewrite Hop.
  cbn. rewrite Hf. cbn. rewrite <- !app_assoc. reflexivity.
Qed.

Lemma runHandlers_stepsIndexJs this fl (rest : list (Handler U)) tail ops :
  forall idx pg,
    sinksPresentIndexJs this = true ->
    drop idx fl = ops ++ tail ->
    allReturn ops ->
    runHandlers (stepHandlersIndexJs this fl (map func ops) idx ++ rest) pg
    = runHandlers rest
        (mkPage (runUser ops (user pg)) (timers pg) (nextTimerId pg)
           (trace pg ++ stepsEventsIndexJs (length fl) idx ops)).
Proof.
  induction ops as [|op ops IH]; intros idx pg Hs Hdrop Hret.
  - simpl. rewrite app_nil_r. destruct pg; reflexivity.
  - assert (fl !! idx = Some op) as Hop.
    { rewrite <- (Nat.add_0_r idx), <- lookup_drop, Hdrop. reflexivity. }
    assert (drop (S idx) fl = ops ++ tail) as Hdrop'.
    { rewrite <- Nat.add_1_r, <- drop_drop, Hdrop. reflexivity. }
    apply Forall_cons in Hret as [Hop_ret Hret'].
    destruct (func op (user pg)) as [u' r] eqn:Hf.
    destruct (Hop_ret (user pg)) as [v Hv]. rewrite Hf in Hv.
    simpl in Hv. subst r.
    cbn [map stepHandlersIndexJs app runHandlers].
    rewrite (stepThenIndexJs_returns this fl _ idx op pg u' v Hs Hop Hf).
    rewrite (IH (S idx) _ Hs Hdrop' Hret'). cbn.
    unfold runUser. cbn. rewrite Hf. cbn.
    rewrite <- app_assoc. reflexivity.
Qed.

Lemma finalThenIndexJs_runs this cb pg :
  sinksPresentIndexJs this = true ->
  chainOutcome (runHandlers [FinalThenIndexJs this cb] pg)
  = mkPage (afterCallback cb (user pg)) (timers pg) (nextTimerId pg)
      (trace pg ++ finishEventsIndexJs this ++ callbackEvents cb (user pg)).
Proof.
  unfold sinksPresentIndexJs. intros Hs.
  destruct this as [[sc|] [tx|] pc [pb|] tp tl]; try discriminate.
  destruct pg as [u ts nid tr].
  unfold runHandlers, runHandler, finalThenIndexJs, finishEventsIndexJs,
    callbackEvents, afterCallback, bind.
  destruct tp as [tp|], cb as [f|]; cbn;
    try destruct (f u) as [u' [v|e]]; cbn;
    rewrite <- ?app_assoc; cbn; rewrite ?app_nil_r; reflexivity.
Qed.

Lemma writesPercentage_stepsEventsIndexJs n (ops : list (MB_AsyncLoadOperation U)) :
  forall idx,
    List.filter writesPercentage (stepsEventsIndexJs n idx ops) = [].
Proof.
  induction ops as [|op ops IH]; intros idx; [reflexivity|].
  cbn [stepsEventsIndexJs]. rewrite List.filter_app, IH. reflexivity.
Qed.

(** X2.  In js/index.js a run whose steps all return needs the label, the
    progress bar and the loading screen, and not the percentage element:
    before each step it writes the label and the bar, at the end it hides
    the screen through its style, clears the tip and calls the callback; the
    percentage element is never written. *)
Theorem indexjs_run_completes this fl cb w :
  microtasks w = [] ->
  sinksPresentIndexJs this = true ->
  allReturn fl ->
  let w' := runTask (CallInitIndexJs this fl cb) w in
  eventsSince w w'
  = startEventsIndexJs this (nextTimerId (page w))
      ++ stepsEventsIndexJs (length fl) 0 fl
      ++ finishEventsIndexJs this
      ++ callbackEvents cb (runUser fl (user (page w)))
  /\ user (page w') = afterCallback cb (runUser fl (user (page w)))
  /\ List.filter writesPercentage (eventsSince w w') = [].
Proof.
  intros Hq Hs Hret w'.
  destruct (runTask_CallInitIndexJs this fl cb w Hq) as [_ Hpg].
  fold w' in Hpg. unfold allHandlersIndexJs in Hpg.
  rewrite (runHandlers_stepsIndexJs this fl _ [] fl 0) in Hpg
    by (assumption || (rewrite app_nil_r; reflexivity)).
  rewrite (finalThenIndexJs_runs _ _ _ Hs) in Hpg. cbn in Hpg.
  assert (eventsSince w w'
          = startEventsIndexJs this (nextTimerId (page w))
              ++ stepsEventsIndexJs (length fl) 0 fl
              ++ finishEventsIndexJs this
              ++ callbackEvents cb (runUser fl (user (page w)))) as HE.
  { apply eventsSince_app. rewrite Hpg. cbn.
    rewrite <- !app_assoc. reflexivity. }
  split; [exact HE|]. split; [rewrite Hpg; reflexivity|].
  rewrite HE, !List.filter_app, writesPercentage_stepsEventsIndexJs.
  unfold startEventsIndexJs, finishEventsIndexJs, callbackEvents.
  destruct (startsTimer this), (truthy (loadingScreen this)),
    (truthy (loadingTips this)), cb as [f|]; cbn;
    try destruct (snd (f _)); reflexivity.
Qed.

End IndexJs.

(** Two runs of js/index.js on the demo page, the first of which fails:
    two intervals are alive afterwards. *)
Lemma indexjs_runs_never_stop_their_timers_witness :
  let calls : list (@Call Demo.Log) :=
    [(Demo.controller, Demo.aFailsC, None);
     (Demo.controller, Demo.abc, Some Demo.done)] in
  let w' := eventLoop (map callTaskIndexJs calls) Demo.start in
  (exists added,
      timers (page w') = timers (page Demo.start) ++ added
      /\ length added = 2%nat)
  /\ List.filter isClearInterval (eventsSince Demo.start w') = [].
Proof.
  exact (indexjs_runs_never_stop_their_timers
           [(Demo.controller, Demo.aFailsC, None);
            (Demo.controller, Demo.abc, Some Demo.done)]
           Demo.start eq_refl).
Defined.

(** A run of js/index.js on the controller that has no percentage
    element. *)
Lemma indexjs_run_completes_witness :
  let this := Demo.withoutPercentage in
  let w' := runTask (CallInitIndexJs this Demo.abc (Some Demo.done))
              Demo.start in
  eventsSince Demo.start w'
  = startEventsIndexJs this 1
      ++ stepsEventsIndexJs 3 0 Demo.abc
      ++ finishEventsIndexJs this
      ++ [CallbackCalled]
  /\ user (page w') = ["A"; "B"; "C"; "done"]
  /\ List.filter writesPercentage (eventsSince Demo.start w') = [].
Proof.
  exact (indexjs_run_completes Demo.withoutPercentage Demo.abc
           (Some Demo.done) Demo.start eq_refl eq_refl abc_return).
Defined.

Section BootstrapFacts.

Context {U : Type}.

(** X3.  The call at the end of js/index.js, made when the page starts,
    hands over one operation where an array is expected: [initLoadOperation]
    throws a [TypeError] after it has started the tip timer, written the
    first tip and displayed the loading screen. No promise is made and no
    job queued, so the operation's function is never called and the screen
    is never hidden; the interval stays alive, and each time it fires it
    writes one of the tips. *)
Theorem indexjs_bootstrap_never_starts (this : MB_AsyncLoadController)
    (op : MB_AsyncLoadOperation U) (cb : option (JsFunction U)) (u0 : U) :
  let w := initialWorld u0 in
  let r := initLoadOperationIndexJsOn this (Operation op) cb w in
  let w1 := fst r in
  snd r = Throw (TypeError "funcList.forEach is not a function")
  /\ eventsSince w w1 = startEventsIndexJs this 1
  /\ promises w1 = [] /\ microtasks w1 = []
  /\ runMicrotasks w1 = w1
  /\ timers (page w1) = startedTimers this 1
  /\ forall el u,
       loadingTips this = Some el ->
       tips this <> [] ->
       (Z.of_nat (length (tips this)) < 2 ^ 53)%Z ->
       Number.unitDraw u = true ->
       exists j t,
         tips this !! j = Some t
         /\ eventsSince w1 (runTask (TimerFires 1 u) w1)
            = [SetTextContent LoadingTips t].
Proof.
  cbn zeta. unfold initLoadOperationIndexJsOn.
  match goal with
  | |- context [bind _ (fun ti => bind _ (fun _ => @?k ti)) ?w] =>
      rewrite (initLoadOperationIndexJs_start this k w)
  end.
  cbn [fst snd throw].
  set (w1 := set_page _ _).
  assert (microtasks w1 = []) as Hq by reflexivity.
  split; [reflexivity|]. split.
  { apply eventsSince_app. reflexivity. }
  split; [reflexivity|]. split; [exact Hq|].
  split; [now apply runMicrotasks_idle|].
  split; [reflexivity|].
  intros el u Htip Htips Hlen Hu.
  assert (startsTimer this = true) as Hst.
  { unfold startsTimer. rewrite Htip. destruct (tips this); [contradiction|].
    reflexivity. }
  destruct (floor_unit_draw_times_length u (length (tips this)) Hu)
    as (j & Hj & Hlt); [destruct (tips this); [contradiction|simpl; lia]
                       |exact Hlen|].
  destruct (lookup_lt_is_Some_2 (tips this) j Hlt) as [t Ht].
  exists j, t. split; [exact Ht|].
  rewrite (runTask_TimerFires this el 1%positive 1%positive 10000%Z u w1 Hq)
    by (try exact Htip; subst w1; cbn; unfold startedTimers;
        rewrite Hst; reflexivity).
  unfold randomTipIndex in Hj |- *. rewrite Hj.
  unfold stringAtNumber, stringAt.
  replace (0 <=? Z.of_nat j)%Z with true
    by (symmetry; apply Z.leb_le; lia).
  rewrite Nat2Z.id, Ht. reflexivity.
Qed.

End BootstrapFacts.

(** The call as js/index.js makes it, on the demo controller; the draw
    0.75 then selects a tip. *)
Lemma indexjs_bootstrap_never_starts_witness :
  let op := mkOperation "Checking compatibility..." (Demo.failing "WebGL") in
  let w := initialWorld ([] : Demo.Log) in
  let r := initLoadOperationIndexJsOn Demo.controller (Operation op) None w in
  let w1 := fst r in
  snd r = Throw (TypeError "funcList.forEach is not a function")
  /\ eventsSince w w1
     = [SetIntervalCalled 1 10000;
        SetTextContent LoadingTips
          "In some levels, you can jump using the spacebar.";
        SetStyleDisplay LoadingScreen "block"]
  /\ exists j t,
       tips Demo.controller !! j = Some t
       /\ eventsSince w1 (runTask (TimerFires 1 Demo.threeQuarters) w1)
          = [SetTextContent LoadingTips t].
Proof.
  cbv zeta.
  pose proof (indexjs_bootstrap_never_starts Demo.controller
                (mkOperation "Checking compatibility..."
                   (Demo.failing "WebGL")) None ([] : Demo.Log)) as H.
  cbv zeta in H. destruct H as (H1 & H2 & _ & _ & _ & _ & H7).
  split; [exact H1|]. split; [exact H2|].
  apply (H7 "loadingTips" Demo.threeQuarters);
    [reflexivity | discriminate | reflexivity | reflexivity].
Defined.

Section TimerIdsFacts.

Context {U : Type}.
Implicit Types (w : World U) (pg : Page U) (h : Handler U).

Lemma timersKnown_trace pg (E : list Event) :
  timersKnown pg -> timersKnown (set_trace E pg).
Proof. trivial. Qed.

Lemma timersKnown_filter pg (f : Timer -> bool) :
  timersKnown pg ->
  timersKnown (set_timers (List.filter f (timers pg)) pg).
Proof.
  unfold timersKnown. cbn. intros H.
  apply List.Forall_forall. intros t Ht.
  apply List.filter_In in Ht as [Ht _].
  rewrite List.Forall_forall in H. now apply H.
Qed.

(** No handler hands out a timer, and none makes one up. *)
Lemma runHandler_timersKnown h pg :
  timersKnown pg -> timersKnown (fst (runHandler h pg)).
Proof.
  intros Hk. destruct pg as [u ts nid tr].
  destruct h as [this fl f idx|this ti cb|this fl f idx|this cb];
    unfold runHandler, stepThen, finalThen, stepThenIndexJs,
      finalThenIndexJs, operationAt, onElement, callFunc, callCallback,
      clearInterval, bind, ret, throw, emit.
  - destruct (fl !! idx), (loadingText this), (loadingProgressBar this),
      (loadingPercentage this); cbn;
      try destruct (f u) as [u' [v|e]]; exact Hk.
  - destruct (loadingPercentage this), (loadingProgressBar this),
      (loadingScreen this), (loadingTips this), ti as [id|], cb as [g|];
      cbn; try destruct (g u) as [u' [v|e]]; cbn;
      first [exact Hk
            | exact (timersKnown_filter (mkPage u ts nid tr) _ Hk)].
  - destruct (fl !! idx), (loadingText this), (loadingProgressBar this);
      cbn; try destruct (f u) as [u' [v|e]]; exact Hk.
  - destruct (loadingScreen this), (loadingTips this), cb as [g|];
      cbn; try destruct (g u) as [u' [v|e]]; exact Hk.
Qed.

Lemma settle_timersKnown p r w :
  timersKnown (page w) -> timersKnown (page (settle p r w)).
Proof.
  intros Hk. unfold settle, resolvePromise, fulfillPromise, rejectPromise.
  destruct r as [[]|e]; try exact Hk;
    destruct (promises w !! p) as [[[|r0 rs]| |]|]; exact Hk.
Qed.

Lemma microtaskStep_timersKnown w :
  timersKnown (page w) -> timersKnown (page (microtaskStep w)).
Proof.
  intros Hk. unfold microtaskStep.
  destruct (microtasks w) as [|j q]; [exact Hk|].
  unfold runJob. destruct (argument j) as [v|e].
  - cbn [page set_microtasks].
    pose proof (runHandler_timersKnown (handler j) (page w) Hk) as H.
    destruct (runHandler (handler j) (page w)) as [pg r].
    now apply settle_timersKnown.
  - now apply settle_timersKnown.
Qed.

Lemma startPage_timersKnown this pg :
  timersKnown pg -> timersKnown (startPage this pg).
Proof.
  unfold timersKnown, startPage. cbn. intros Hk.
  destruct (startsTimer this).
  - apply Forall_app. split.
    + eapply Forall_impl; [exact Hk|]. cbn. intros t Ht. lia.
    + repeat constructor. cbn. lia.
  - now rewrite app_nil_r.
Qed.

Lemma startPageIndexJs_timersKnown this pg :
  timersKnown pg -> timersKnown (startPageIndexJs this pg).
Proof.
  unfold timersKnown, startPageIndexJs, startedTimers. cbn. intros Hk.
  destruct (startsTimer this).
  - apply Forall_app. split.
    + eapply Forall_impl; [exact Hk|]. cbn. intros t Ht. lia.
    + repeat constructor. cbn. lia.
  - now rewrite app_nil_r.
Qed.

Lemma performTask_timersKnown (t : Task U) w :
  timersKnown (page w) -> timersKnown (page (performTask t w)).
Proof.
  intros Hk. destruct t as [this fl cb|this fl cb|id u].
  - rewrite (proj1 (performTask_CallInit this fl cb w)).
    now apply startPage_timersKnown.
  - destruct (allHandlersIndexJs_cons this fl cb) as (h & hs & Hall).
    unfold performTask.
    rewrite (initLoadOperationIndexJs_sync this fl cb w h hs Hall).
    now apply startPageIndexJs_timersKnown.
  - unfold performTask.
    destruct (findTimer id (timers (page w))) as [[id' ms [this]]|];
      [|exact Hk].
    unfold lift, tipTick, onElement, emit, throw.
    destruct (loadingTips this); exact Hk.
Qed.

Lemma reachable_timersKnown (u0 : U) w :
  reachable anyTask u0 w -> timersKnown (page w).
Proof.
  induction 1 as [|w Hw IH Hne|w t Hw IH Hq Ht].
  - constructor.
  - now apply microtaskStep_timersKnown.
  - now apply performTask_timersKnown.
Qed.

(** A timer that is known is not the next one to be handed out. *)
Lemma withoutTimer_known pg :
  timersKnown pg ->
  withoutTimer (Some (nextTimerId pg)) (timers pg) = timers pg.
Proof.
  unfold timersKnown. cbn [withoutTimer].
  induction (timers pg) as [|t ts IH]; intros Hk; [reflexivity|].
  apply Forall_cons in Hk as [Ht Hts]. cbn.
  destruct (Pos.eqb_spec (timer_id t) (nextTimerId pg)) as [Heq|_]; [lia|].
  cbn. now rewrite IH.
Qed.

Lemma findTimer_known pg :
  timersKnown pg -> findTimer (nextTimerId pg) (timers pg) = None.
Proof.
  unfold timersKnown, findTimer.
  induction (timers pg) as [|t ts IH]; intros Hk; [reflexivity|].
  apply Forall_cons in Hk as [Ht Hts]. cbn.
  destruct (Pos.eqb_spec (timer_id t) (nextTimerId pg)) as [Heq|_]; [lia|].
  now apply IH.
Qed.

(** A firing that finds its interval stopped changes nothing. *)
Lemma eventLoop_stopped (id : TimerId) (us : list spec_float) w :
  microtasks w = [] -> findTimer id (timers (page w)) = None ->
  eventLoop (map (TimerFires id) us) w = w.
Proof.
  intros Hq Hf. induction us as [|u us IH]; [reflexivity|].
  unfold eventLoop in *. cbn [map fold_left].
  replace (runTask (TimerFires id u) w) with w; [exact IH|].
  unfold runTask, performTask. rewrite Hf.
  symmetry. now apply runMicrotasks_idle.
Qed.

(** C8, as the code has it.  In any state the page can get into, a run
    whose steps all return clears the tip text and stops the interval it
    started before it calls the callback, and leaves every other interval
    as it was.  So the run's own interval writes no tip after the
    callback, however often the host tries to fire it; and when no
    interval was alive at the start of the run, none is alive after it and
    no firing of any interval changes anything.  An interval that was alive
    at the start, left there by a run that failed, is still alive after the
    callback and writes its tip whenever it fires. *)
Theorem C8_timer_stopped_before_callback (u0 : U) this
    (fl : list (MB_AsyncLoadOperation U)) cb w :
  reachable anyTask u0 w ->
  microtasks w = [] ->
  configured this = true ->
  allReturn fl ->
  let w' := runTask (CallInit this fl cb) w in
  let own := nextTimerId (page w) in
  eventsSince w w'
  = startEvents this own
      ++ stepsEvents (length fl) 0 fl
      ++ [SetTextContent LoadingPercentage "100%";
          SetStyleWidth LoadingProgressBar "100%";
          ClassListAdd LoadingScreen "hidden"]
      ++ (if truthy (loadingTips this)
          then [SetTextContent LoadingTips ""] else [])
      ++ (if startsTimer this then [ClearIntervalCalled own] else [])
      ++ callbackEvents cb (runUser fl (user (page w)))
  /\ timers (page w') = timers (page w)
  /\ findTimer own (timers (page w')) = None
  /\ (forall us : list spec_float,
        eventLoop (map (TimerFires own) us) w' = w')
  /\ (timers (page w) = [] ->
      forall ticks : list (TimerId * spec_float),
        eventLoop (map (fun t => TimerFires (fst t) (snd t)) ticks) w' = w')
  /\ (forall id id' ms that el u,
        findTimer id (timers (page w))
        = Some (mkTimer id' ms (TipTick that)) ->
        loadingTips that = Some el ->
        eventsSince w' (runTask (TimerFires id u) w')
        = [SetTextContent LoadingTips
             (stringAtNumber (tips that) (randomTipIndex that u))]).
Proof.
  intros Hw Hq Hc Hret w' own.
  pose proof (run_success this fl cb w Hq Hc Hret) as Hrun.
  fold w' in Hrun.
  pose proof (reachable_timersKnown u0 w Hw) as Hk.
  assert (microtasks w' = []) as Hq'
    by apply (runTask_CallInit this fl cb w Hq).
  assert (timers (page w') = timers (page w)) as Hts'.
  { rewrite Hrun. cbn [timers]. unfold startTimerId, startPage.
    cbn [timers]. destruct (startsTimer this);
      [|cbn [withoutTimer]; now rewrite app_nil_r].
    cbn [withoutTimer]. rewrite List.filter_app. cbn.
    rewrite Pos.eqb_refl. cbn. rewrite app_nil_r.
    exact (withoutTimer_known (page w) Hk). }
  assert (findTimer own (timers (page w')) = None) as Hown
    by (rewrite Hts'; exact (findTimer_known (page w) Hk)).
  split; [|split; [exact Hts'|split; [exact Hown|split; [|split]]]].
  - apply eventsSince_app. rewrite Hrun. cbn [trace].
    unfold finishEvents, startTimerId. fold own.
    destruct (startsTimer this); rewrite <- ?app_assoc; reflexivity.
  - intros us. now apply eventLoop_stopped.
  - intros Hts ticks. apply eventLoop_no_timers; [exact Hq'|].
    now rewrite Hts'.
  - intros id id' ms that el u Hfind Htip.
    apply (runTask_TimerFires that el id id' ms u w' Hq');
      [now rewrite Hts'|exact Htip].
Qed.

(** X4.  A run that completes stops its own interval and no other: in any
    state the page can get into, runs of either class that fail included, a
    run on a fully configured controller whose steps all return leaves the
    intervals exactly as it found them. So the interval left behind by a
    failed run is never stopped by a later run. *)
Theorem completed_run_leaves_other_timers (u0 : U) w this
    (fl : list (MB_AsyncLoadOperation U)) cb :
  reachable anyTask u0 w ->
  microtasks w = [] ->
  configured this = true ->
  allReturn fl ->
  timers (page (runTask (CallInit this fl cb) w)) = timers (page w).
Proof.
  intros Hw Hq Hc Hret.
  rewrite (run_success this fl cb w Hq Hc Hret). cbn [timers].
  apply reachable_timersKnown in Hw. unfold timersKnown in Hw.
  unfold startTimerId, startPage. cbn [timers].
  destruct (startsTimer this); cbn [withoutTimer];
    [|now rewrite app_nil_r].
  rewrite List.filter_app. cbn. rewrite Pos.eqb_refl. cbn.
  rewrite app_nil_r.
  induction (timers (page w)) as [|t ts IH]; [reflexivity|].
  apply Forall_cons in Hw as [Ht Hts]. cbn.
  destruct (Pos.eqb_spec (timer_id t) (nextTimerId (page w))) as [Heq|_];
    [lia|].
  cbn. now rewrite IH.
Qed.

End TimerIdsFacts.

(** After a failed run on the demo page one interval is alive; the run
    that follows and completes leaves it alive. *)
Lemma completed_run_leaves_other_timers_witness :
  let w := runTask (CallInit Demo.controller Demo.aFailsC None) Demo.start in
  timers (page (runTask (CallInit Demo.controller Demo.abc (Some Demo.done))
                  w))
  = timers (page w).
Proof.
  apply (completed_run_leaves_other_timers []).
  - unfold runTask.
    apply reachable_drain, reach_task;
      [apply reach_start|reflexivity|exact I].
  - apply runMicrotasks_quiescent.
  - reflexivity.
  - exact abc_return.
Defined.

(** C8 on the demo controller, from the start of the page. *)
Lemma C8_witness :
  let w' := runTask (CallInit Demo.controller Demo.abc (Some Demo.done))
              Demo.start in
  eventsSince Demo.start w'
  = startEvents Demo.controller 1
      ++ stepsEvents 3 0 Demo.abc
      ++ [SetTextContent LoadingPercentage "100%";
          SetStyleWidth LoadingProgressBar "100%";
          ClassListAdd LoadingScreen "hidden"]
      ++ [SetTextContent LoadingTips ""]
      ++ [ClearIntervalCalled 1]
      ++ [CallbackCalled]
  /\ timers (page w') = []
  /\ findTimer 1 (timers (page w')) = None
  /\ (forall us : list spec_float,
        eventLoop (map (TimerFires 1) us) w' = w')
  /\ forall ticks : list (positive * spec_float),
       eventLoop (map (fun t => TimerFires (fst t) (snd t)) ticks) w' = w'.
Proof.
  destruct (C8_timer_stopped_before_callback ([] : Demo.Log)
              Demo.controller Demo.abc (Some Demo.done) Demo.start)
    as (HE & Hts & Hown & Hus & Hticks & _);
    [apply reach_start | reflexivity | reflexivity | exact abc_return|].
  split; [exact HE|]. split; [exact Hts|]. split; [exact Hown|].
  split; [exact Hus|]. exact (Hticks eq_refl).
Defined.

(** C8 as stated fails: after a run in which a step throws, a run that
    completes calls its callback while the interval of the failed run is
    alive, and the next firing of that interval writes a tip. *)
Lemma C8_counterexample :
  let failed := runTask (CallInit Demo.controller Demo.aFailsC None)
                  Demo.start in
  let w' := runTask (CallInit Demo.controller Demo.abc (Some Demo.done))
              failed in
  let later := runTask (TimerFires 1 (S754_zero false)) w' in
  reachable anyTask [] failed
  /\ microtasks failed = []
  /\ last (eventsSince failed w') = Some CallbackCalled
  /\ map timer_id (timers (page w')) = [1%positive]
  /\ eventsSince w' later
     = [SetTextContent LoadingTips
          "In some levels, you can jump using the spacebar."]
  /\ ~ (forall e, In e (eventsSince w' later) -> isTipWrite e = false).
Proof.
  cbv zeta. split.
  { apply reachable_runTask; [apply reach_start|reflexivity|exact I]. }
  vm_compute. repeat split.
  intros H. specialize (H _ (or_introl eq_refl)). discriminate H.
Qed.

Section StartupFacts.

Import Startup.

Lemma checkCompatibility_returns (b : Browser) (r : Report) :
  compatible b = true ->
  exists r', checkCompatibility b r = (r', Normal VUndefined).
Proof.
  unfold compatible, checkCompatibility. intros H.
  apply andb_true_iff in H as [H Hg]. apply andb_true_iff in H as [Hgl Hws].
  rewrite Hgl, Hws. unfold callGetGamepads.
  destruct (getGamepads b) as [[|]|]; try discriminate.
  unfold bind, ret, consoleWarn. cbn.
  destruct (includes (userAgent b) "MSIE" || includes (userAgent b) "Trident/");
    eauto.
Qed.

Lemma checkCompatibility_throws (b : Browser) (r : Report) :
  compatible b = false ->
  exists r' e, checkCompatibility b r = (r', Throw e).
Proof.
  unfold compatible, checkCompatibility, callGetGamepads,
    setNoSupportDisplay, assignToConst, consoleWarn, bind, ret, throw.
  intros H.
  destruct (isTruthy (webGLSupported b)); cbn in *.
  - destruct (webSocketsSupported b); cbn in *; [|eauto].
    destruct (getGamepads b) as [[|]|]; try discriminate; cbn; eauto.
  - destruct (noSupport b); eauto.
Qed.

(** X5.  [webGLSupported] is truthy exactly when [WebGLRenderingContext] is
    defined and the canvas hands out a "webgl" context or, having answered
    [null] to that, an "experimental-webgl" context; an exception counts as
    no support, and with [null] for both the result is [null], not [false]. *)
Theorem webGLSupported_truthy_iff (b : Browser) :
  (isTruthy (webGLSupported b) = true
   <-> webGLRenderingContext b = true
       /\ ((exists c, getContext b "webgl" = Normal (Some c))
           \/ (getContext b "webgl" = Normal None
               /\ exists c,
                    getContext b "experimental-webgl" = Normal (Some c))))
  /\ (webGLSupported b = SupportNull
      <-> webGLRenderingContext b = true
          /\ getContext b "webgl" = Normal None
          /\ getContext b "experimental-webgl" = Normal None).
Proof.
  unfold webGLSupported.
  destruct (webGLRenderingContext b);
    destruct (getContext b "webgl") as [[c|]|e];
    destruct (getContext b "experimental-webgl") as [[c'|]|e']; cbn;
    repeat split; intros;
    repeat match goal with
           | H : _ /\ _ |- _ => destruct H
           | H : _ \/ _ |- _ => destruct H
           | H : exists _, _ |- _ => destruct H
           end;
    try discriminate; try congruence; eauto 6.
Qed.

(** X6.  The compatibility check returns only on a browser that has WebGL,
    WebSockets and gamepads. With WebGL but no WebSockets it warns that the
    game will still be playable and then throws a [TypeError], the flag it
    means to clear being a constant. *)
Theorem compatibility_check_returns_iff (b : Browser) (r : Report) :
  ((exists v, snd (checkCompatibility b r) = Normal v)
   <-> compatible b = true)
  /\ (isTruthy (webGLSupported b) = true ->
      webSocketsSupported b = false ->
      checkCompatibility b r
      = (warn "The current browser does not support WebSockets. The game will still be playable, but online play is disabled." r,
         Throw (TypeError "Assignment to constant variable."))).
Proof.
  split; [split|].
  - intros [v Hv]. destruct (compatible b) eqn:Hc; [reflexivity|].
    destruct (checkCompatibility_throws b r Hc) as (r' & e & He).
    rewrite He in Hv. discriminate.
  - intros Hc. destruct (checkCompatibility_returns b r Hc) as [r' Hr].
    exists VUndefined. now rewrite Hr.
  - intros Hgl Hws. unfold checkCompatibility. rewrite Hgl, Hws.
    reflexivity.
Qed.

(** X7.  On a browser that lacks one of the three, the start-up run of
    [window.onload] stops at its first step: the check is the only function
    called, its error is left unhandled, no later step runs, nothing is set
    to 100%, the loading screen is not hidden and the tip timer is not
    stopped. *)
Theorem startup_stops_when_a_feature_is_missing
    (this : MB_AsyncLoadController) (b : Browser)
    (others : list (MB_AsyncLoadOperation Report))
    (cb : option (JsFunction Report)) (w : World Report) :
  microtasks w = [] ->
  stepSinksPresent this = true ->
  compatible b = false ->
  let fl := onloadOperations b others in
  let w' := runTask (CallInit this fl cb) w in
  exists e,
    snd (checkCompatibility b (user (page w))) = Throw e
    /\ eventsSince w w'
       = startEvents this (nextTimerId (page w))
           ++ [SetTextContent LoadingText "Checking compatibility...";
               SetStyleWidth LoadingProgressBar
                 (progressText (length fl) 0);
               SetTextContent LoadingPercentage
                 (progressText (length fl) 0);
               FuncCalled 0; FuncThrew 0 e; UnhandledRejection e]
    /\ user (page w') = fst (checkCompatibility b (user (page w)))
    /\ timers (page w') = timers (startPage this (page w)).
Proof.
  intros Hq Hs Hc fl w'.
  destruct (checkCompatibility_throws b (user (page w)) Hc)
    as (r' & e & He).
  exists e. rewrite He. split; [reflexivity|].
  pose proof (run_failure this []
                (mkOperation "Checking compatibility..."
                   (checkCompatibility b))
                others cb w r' e Hq Hs ltac:(constructor) He) as Hrun.
  cbn zeta in Hrun. cbn [app] in Hrun.
  change (runTask _ w) with w' in Hrun.
  split; [|rewrite Hrun; split; reflexivity].
  apply eventsSince_app. rewrite Hrun. reflexivity.
Qed.

End StartupFacts.


(** The start-up run on a browser without WebSockets. *)
Lemma startup_stops_when_a_feature_is_missing_witness :
  let b := Startup.withoutWebSockets in
  let w := initialWorld (Startup.mkReport [] None) in
  let fl := Startup.onloadOperations b [] in
  let w' := runTask (CallInit Demo.controller fl None) w in
  exists e,
    snd (Startup.checkCompatibility b (user (page w))) = Throw e
    /\ eventsSince w w'
       = startEvents Demo.controller (nextTimerId (page w))
           ++ [SetTextContent LoadingText "Checking compatibility...";
               SetStyleWidth LoadingProgressBar
                 (progressText (length fl) 0);
               SetTextContent LoadingPercentage
                 (progressText (length fl) 0);
               FuncCalled 0; FuncThrew 0 e; UnhandledRejection e]
    /\ user (page w')
       = fst (Startup.checkCompatibility b (user (page w)))
    /\ timers (page w') = timers (startPage Demo.controller (page w)).
Proof.
  exact (startup_stops_when_a_feature_is_missing Demo.controller
           Startup.withoutWebSockets [] None
           (initialWorld (Startup.mkReport [] None))
           eq_refl eq_refl eq_refl).
Defined.

Section StringUtilityFacts.

Import MB_StringUtility.
Local Open Scope Z_scope.

Lemma charAt_empty (i : Number.Integral) : charAt "" i = "".
Proof.
  destruct i as [z| |s]; cbn; [|reflexivity..].
  destruct (0 <=? z)%Z; [|reflexivity]. now destruct (Z.to_nat z).
Qed.

(** *** The loop counter

    The counter of the loop takes the values 0, 1, 2, ... exactly up to
    2^53, and stays there: 2^53 + 1 is halfway between two binary64
    numbers and is rounded back to 2^53. *)

Lemma binary_normalize_scaled (Y : positive) (t E : Z) :
  Z.pos (digits2_pos Y) = 53 -> 0 <= t -> -1074 <= E + t <= 971 ->
  binary_normalize 53 1024 (Z.pos Y * 2 ^ t) E false
  = S754_finite false Y (E + t).
Proof.
  intros HdY Ht HE.
  assert (0 < 2 ^ t) as Hpt by (apply Z.pow_pos_nonneg; lia).
  destruct (Z.pos Y * 2 ^ t) as [|X|X] eqn:HX; try lia.
  pose proof (digits2_pos_bounds Y) as HY. rewrite HdY in HY.
  assert (Z.pos (digits2_pos X) = 53 + t) as HdX.
  { apply digits2_pos_unique. rewrite <- HX.
    replace (53 + t - 1) with (52 + t) by lia.
    rewrite !Z.pow_add_r by lia. change (53 - 1) with 52 in HY. nia. }
  cbn [binary_normalize]. unfold binary_round, shl_align.
  rewrite fexp64, HdX.
  replace (Z.max (53 + t + E - 53) (-1074)) with (E + t) by lia.
  destruct (E + t - E) as [|d|d] eqn:Hd; try lia;
    apply binary_round_aux_exact; lia.
Qed.

Lemma ofZ_one : Number.ofZ 1 = S754_finite false 4503599627370496 (-52).
Proof. reflexivity. Qed.

Lemma ofZ_2p53 :
  Number.ofZ (2 ^ 53) = S754_finite false 4503599627370496 1.
Proof. reflexivity. Qed.

(** An integer from 1 to 2^53 as a binary64 number. *)
Lemma ofZ_canonical (k : Z) :
  1 <= k <= 2 ^ 53 ->
  exists Y t,
    Number.ofZ k = S754_finite false Y (t - 52)
    /\ 0 <= t <= 53 /\ Z.pos Y * 2 ^ t = k * 2 ^ 52
    /\ Z.pos (digits2_pos Y) = 53.
Proof.
  intros Hk. destruct (Z.eq_dec k (2 ^ 53)) as [->|Hne].
  - exists 4503599627370496%positive, 53. rewrite ofZ_2p53.
    repeat split; lia.
  - destruct (binary_normalize_exact k) as (ml & j & Hml & Hj & Hv & Hd);
      [lia|].
    pose proof (digits2_pos_bounds ml) as Hb. rewrite Hd in Hb.
    assert (j <= 52) as Hj52.
    { assert (2 ^ j < 2 ^ 53) as Hlt.
      { assert (0 < 2 ^ j) by (apply Z.pow_pos_nonneg; lia). nia. }
      apply Z.pow_lt_mono_r_iff in Hlt; lia. }
    exists ml, (52 - j). unfold Number.ofZ, Number.prec, Number.emax.
    rewrite Hml. replace (52 - j - 52) with (- j) by lia.
    repeat split; try lia.
    rewrite Hv, <- Z.mul_assoc, <- Z.pow_add_r by lia.
    now replace (j + (52 - j)) with 52 by lia.
Qed.

(** [i++] below 2^53 is exact. *)
Lemma ofZ_succ (k : Z) :
  0 <= k < 2 ^ 53 ->
  Float64.add (Number.ofZ k) (Number.ofZ 1) = Number.ofZ (k + 1).
Proof.
  intros Hk. destruct (Z.eq_dec k 0) as [->|Hk0]; [reflexivity|].
  destruct (ofZ_canonical k) as (Y & t & HY & Ht & Hv & Hd); [lia|].
  destruct (ofZ_canonical (k + 1)) as (Y' & t' & HY' & Ht' & Hv' & Hd');
    [lia|].
  rewrite HY, HY', ofZ_one.
  assert (t <= 52) as Ht52.
  { destruct (Z.eq_dec t 53) as [->|]; [|lia].
    pose proof (digits2_pos_bounds Y) as Hb. rewrite Hd in Hb.
    change (53 - 1) with 52 in Hb. lia. }
  unfold Float64.add, Number.prec, Number.emax. cbn [SFadd cond_Zopp].
  replace (Z.min (t - 52) (-52)) with (-52) by lia.
  assert (Z.pos (fst (shl_align Y (t - 52) (-52))) = Z.pos Y * 2 ^ t)
    as ->.
  { unfold shl_align. destruct (-52 - (t - 52)) as [|d|d] eqn:Hdd;
      try lia; cbn [fst].
    - replace t with 0 by lia. lia.
    - rewrite shift_pos_value. now replace (Z.pos d) with t by lia. }
  change (Z.pos (fst (shl_align 4503599627370496 (-52) (-52))))
    with (2 ^ 52).
  replace (Z.pos Y * 2 ^ t + 2 ^ 52) with (Z.pos Y' * 2 ^ t') by lia.
  rewrite binary_normalize_scaled by lia.
  now replace (-52 + t') with (t' - 52) by lia.
Qed.

(** [i++] at 2^53 leaves the counter where it is. *)
Lemma ofZ_stuck :
  Float64.add (Number.ofZ (2 ^ 53)) (Number.ofZ 1) = Number.ofZ (2 ^ 53).
Proof. reflexivity. Qed.

(** A length above 2^53 is above every value the counter takes. *)
Lemma ofZ_below_length (k : Z) (length : spec_float) :
  0 <= k < 2 ^ 53 ->
  Float64.ltb (Number.ofZ (2 ^ 53)) length = true ->
  Float64.ltb (Number.ofZ k) length = true.
Proof.
  intros Hk. rewrite ofZ_2p53.
  destruct (Z.eq_dec k 0) as [->|Hk0].
  - change (Number.ofZ 0) with (S754_zero false).
    unfold Float64.ltb, SFltb, SFcompare.
    destruct length as [s|[]| |[] m e]; try discriminate; reflexivity.
  - destruct (ofZ_canonical k) as (Y & t & HY & Ht & Hv & Hd); [lia|].
    assert (t <= 52) as Ht52.
    { destruct (Z.eq_dec t 53) as [->|]; [|lia].
      pose proof (digits2_pos_bounds Y) as Hb. rewrite Hd in Hb.
      change (53 - 1) with 52 in Hb. lia. }
    rewrite HY. unfold Float64.ltb, SFltb, SFcompare.
    destruct length as [s|[]| |[] m e]; try discriminate; try reflexivity.
    destruct (Z.compare_spec 1 e) as [He|He|He]; try discriminate;
      intros _; destruct (Z.compare_spec (t - 52) e); try lia; reflexivity.
Qed.

(** *** The loop on the empty character set *)

Lemma append_empty (result : string) : (result ++ "")%string = result.
Proof.
  induction result as [|c r IHr]; [reflexivity|].
  change (String c r ++ "")%string with (String c (r ++ "")%string).
  now rewrite IHr.
Qed.

(** Whatever the loop returns is what it started with. *)
Lemma appendRandomChars_empty random length fuel :
  forall i n result r,
    appendRandomChars fuel "" random length i n result = Some r ->
    r = result.
Proof.
  induction fuel as [|fuel IH]; intros i n result r; cbn [appendRandomChars];
    [discriminate|].
  rewrite charAt_empty, append_empty.
  destruct (Float64.ltb i length); [apply IH|congruence].
Qed.

(** The loop ends when the length is not above 2^53 ... *)
Lemma appendRandomChars_ends random length result :
  Float64.ltb (Number.ofZ (2 ^ 53)) length = false ->
  forall (m : nat) (k : Z) (n fuel : nat),
    0 <= k <= 2 ^ 53 -> 2 ^ 53 - k < Z.of_nat m -> (m <= fuel)%nat ->
    appendRandomChars fuel "" random length (Number.ofZ k) n result
    = Some result.
Proof.
  intros Hlen. induction m as [|m IH]; intros k n fuel Hk Hm Hfuel; [lia|].
  destruct fuel as [|fuel]; [lia|]. cbn [appendRandomChars].
  rewrite charAt_empty, append_empty.
  destruct (Float64.ltb (Number.ofZ k) length) eqn:Hlt; [|reflexivity].
  assert (k < 2 ^ 53) as Hk'.
  { destruct (Z.eq_dec k (2 ^ 53)) as [->|]; [congruence|lia]. }
  rewrite ofZ_succ by lia. apply IH; lia.
Qed.

(** ... and never otherwise. *)
Lemma appendRandomChars_runs_on random length result :
  Float64.ltb (Number.ofZ (2 ^ 53)) length = true ->
  forall (fuel : nat) (k : Z) (n : nat),
    0 <= k <= 2 ^ 53 ->
    appendRandomChars fuel "" random length (Number.ofZ k) n result = None.
Proof.
  intros Hlen. induction fuel as [|fuel IH]; intros k n Hk; [reflexivity|].
  cbn [appendRandomChars]. rewrite charAt_empty, append_empty.
  destruct (Z.eq_dec k (2 ^ 53)) as [->|Hne].
  - rewrite Hlen, ofZ_stuck. apply IH. lia.
  - rewrite ofZ_below_length by (lia || assumption).
    rewrite ofZ_succ by lia. apply IH. lia.
Qed.

(** X8.  [randomString] never returns a character: [charset] is a constant
    empty string, so with any of the four flags on (two are on by default)
    the call throws a [TypeError] before the loop, and with all of them off
    the loop appends nothing. With the flags off the call returns, and
    returns the empty string, exactly when the length is not above 2^53
    ([NaN] and negative lengths included); for a greater length, [Infinity]
    included, the counter stops growing at 2^53 and the call never returns.
    [openRoom], which asks for ten characters with two flags on, therefore
    throws before the data channel is created and leaves the manager as it
    was. *)
Theorem randomString_never_returns_a_character (length : spec_float)
    (useUppercase useNumbers useLowercase useSpecialChars : option bool)
    (random : nat -> spec_float) :
  let anyFlag :=
    default false useUppercase || default true useNumbers
    || default true useLowercase || default false useSpecialChars in
  let call fuel :=
    randomString fuel length useUppercase useNumbers useLowercase
      useSpecialChars random in
  (anyFlag = true ->
   forall fuel,
     call fuel = Some (Throw (TypeError "Assignment to constant variable.")))
  /\ (forall fuel s, call fuel = Some (Normal s) -> s = "")
  /\ (anyFlag = false ->
      Float64.ltb (Number.ofZ (2 ^ 53)) length = false ->
      exists rounds, forall fuel,
        (rounds <= fuel)%nat -> call fuel = Some (Normal ""))
  /\ (anyFlag = false ->
      Float64.ltb (Number.ofZ (2 ^ 53)) length = true ->
      forall fuel, call fuel = None)
  /\ forall fuel this,
       MB_NetworkManager.openRoom fuel this random
       = Some (this, Throw (TypeError "Assignment to constant variable.")).
Proof.
  intros anyFlag call. subst anyFlag call.
  unfold randomString, appendToConst.
  split; [|split; [|split; [|split]]].
  - intros Hany fuel.
    destruct (default false useUppercase), (default true useNumbers),
      (default true useLowercase), (default false useSpecialChars);
      try reflexivity; discriminate Hany.
  - intros fuel s.
    destruct (default false useUppercase), (default true useNumbers),
      (default true useLowercase), (default false useSpecialChars);
      try discriminate.
    destruct (appendRandomChars fuel "" random length (Number.ofZ 0) 0 "")
      as [r|] eqn:Hr; [|discriminate].
    apply appendRandomChars_empty in Hr. congruence.
  - intros Hany Hlen. exists (Z.to_nat (2 ^ 53 + 1)). intros fuel Hfuel.
    destruct (default false useUppercase), (default true useNumbers),
      (default true useLowercase), (default false useSpecialChars);
      try discriminate Hany.
    rewrite (appendRandomChars_ends random length "" Hlen
               (Z.to_nat (2 ^ 53 + 1)) 0 0 fuel); [reflexivity|lia|lia|lia].
  - intros Hany Hlen fuel.
    destruct (default false useUppercase), (default true useNumbers),
      (default true useLowercase), (default false useSpecialChars);
      try discriminate Hany.
    rewrite (appendRandomChars_runs_on random length "" Hlen fuel 0 0);
      [reflexivity|lia].
  - reflexivity.
Qed.

End StringUtilityFacts.

(** Ten characters asked for with every flag off: the empty string; and
    with [Infinity] for the length the call is still running after any
    number of rounds. *)
Lemma randomString_never_returns_a_character_witness :
  let random : nat -> spec_float := fun _ => S754_zero false in
  (exists rounds, forall fuel,
      (rounds <= fuel)%nat ->
      MB_StringUtility.randomString fuel (Number.ofZ 10) (Some false)
        (Some false) (Some false) (Some false) random
      = Some (Normal ""))
  /\ (forall fuel,
        MB_StringUtility.randomString fuel (S754_infinity false) (Some false)
          (Some false) (Some false) (Some false) random
        = None).
Proof.
  split.
  - apply (randomString_never_returns_a_character (Number.ofZ 10)
             (Some false) (Some false) (Some false) (Some false)
             (fun _ => S754_zero false)); reflexivity.
  - apply (randomString_never_returns_a_character (S754_infinity false)
             (Some false) (Some false) (Some false) (Some false)
             (fun _ => S754_zero false)); reflexivity.
Defined.

Section HTMLElementUtilityFacts.

Import MB_HTMLElementUtility.

Lemma forOf_setStyleDisplay (display : string) :
  forall (elements : list (option Element)) (σ : Styles),
    let r := forOf elements
               (fun element => setStyleDisplay element display) σ in
    snd r = (if noNull elements then Normal tt
             else Throw (TypeError "Cannot read properties of null"))
    /\ forall e, fst r e = if listed e (beforeNull elements)
                           then display else σ e.
Proof.
  induction elements as [|[x|] rest IH]; intros σ; cbn zeta.
  - split; reflexivity.
  - cbn [forOf]. unfold bind. cbn [setStyleDisplay].
    destruct (IH (fun e' => if Nat.eqb e' x then display else σ e'))
      as [Hr Hs]. cbn zeta in Hr, Hs.
    split; [exact Hr|]. intros e. rewrite Hs.
    cbn [beforeNull listed List.existsb orb].
    unfold listed. destruct (List.existsb (Nat.eqb e) (beforeNull rest));
      [now rewrite orb_true_r|]. rewrite orb_false_r. reflexivity.
  - split; reflexivity.
Qed.

(** X9.  [hideElements] sets the display of the elements up to the first
    [null] of the array to "none" and leaves every other element as it was;
    it returns when the array holds no [null] and throws a [TypeError] at
    the first one otherwise. *)
Theorem hideElements_hides_up_to_the_first_null
    (elements : list (option Element)) (σ : Styles) :
  snd (hideElements elements σ)
  = (if noNull elements then Normal tt
     else Throw (TypeError "Cannot read properties of null"))
  /\ forall e,
       fst (hideElements elements σ) e
       = if listed e (beforeNull elements) then "none" else σ e.
Proof. apply (forOf_setStyleDisplay "none"). Qed.


End HTMLElementUtilityFacts.


Section TreeViewFacts.

Import TreeView.

(** Induction on an item, its children included. *)
Lemma MB_TreeViewItem_induction (P : MB_TreeViewItem -> Prop) :
  (forall text oc od ox, P (mkTreeViewItem text None oc od ox)) ->
  (forall text cs oc od ox,
      Forall P cs -> P (mkTreeViewItem text (Some cs) oc od ox)) ->
  forall item, P item.
Proof.
  intros Hleaf Hnode.
  fix IH 1. intros [text [cs|] oc od ox]; [|apply Hleaf].
  apply Hnode. induction cs as [|c cs IHcs]; constructor;
    [apply IH|exact IHcs].
Qed.

Lemma createElement_spec tag (d : Document) :
  exists d',
    createElement tag d = (d', Normal (length d))
    /\ length d' = S (length d)
    /\ d' !! length d = Some (mkNode tag "" [] [])
    /\ forall e, (e < length d)%nat -> d' !! e = d !! e.
Proof.
  exists (d ++ [mkNode tag "" [] []]).
  split; [reflexivity|]. split; [|split].
  - rewrite length_app. simpl. lia.
  - now apply list_lookup_middle.
  - intros e He. now apply lookup_app_l.
Qed.

Lemma update_spec e f n (d : Document) :
  d !! e = Some n ->
  exists d',
    update e f d = (d', Normal tt)
    /\ length d' = length d
    /\ d' !! e = Some (f n)
    /\ forall e', e' <> e -> d' !! e' = d !! e'.
Proof.
  intros He. unfold update. rewrite He. exists (<[e := f n]> d).
  split; [reflexivity|]. split; [|split].
  - apply length_insert.
  - rewrite list_lookup_insert. apply lookup_lt_Some in He.
    destruct (decide _) as [|Hn]; [reflexivity|]. exfalso. apply Hn. now split.
  - intros e' Hne. now apply list_lookup_insert_ne.
Qed.

Lemma addIfGiven_spec li type (l : option Listener) n (d : Document) :
  d !! li = Some n ->
  exists d',
    addIfGiven li type l d = (d', Normal tt)
    /\ length d' = length d
    /\ d' !! li
       = Some (mkNode (tagName n) (textContent n) (childNodes n)
                 (listeners n
                    ++ match l with Some l => [(type, l)] | None => [] end))
    /\ forall e', e' <> li -> d' !! e' = d !! e'.
Proof.
  intros Hli. destruct l as [l|]; cbn [addIfGiven].
  - unfold addEventListener.
    exact (update_spec li
             (fun n => mkNode (tagName n) (textContent n) (childNodes n)
                         (listeners n ++ [(type, l)])) n d Hli).
  - exists d. rewrite app_nil_r. destruct n. repeat split; assumption.
Qed.

Lemma sizes_cons c cs : sizes (c :: cs) = (size c + sizes cs)%nat.
Proof. reflexivity. Qed.

Lemma size_children text cs oc od ox :
  size (mkTreeViewItem text (Some cs) oc od ox) = S (S (sizes cs)).
Proof. reflexivity. Qed.

Lemma length_place base items : length (place base items) = length items.
Proof.
  revert base. induction items as [|c cs IH]; intros base; cbn;
    [reflexivity|now rewrite IH].
Qed.

Lemma place_range items : forall base e,
  e ∈ place base items -> (base <= e < base + sizes items)%nat.
Proof.
  induction items as [|c cs IH]; intros base e He; cbn in He.
  - inversion He.
  - rewrite sizes_cons.
    assert (1 <= size c)%nat by (destruct c; cbn [size]; lia).
    apply elem_of_cons in He as [->|He]; [lia|].
    apply IH in He. lia.
Qed.

(** The elements of an item lie in a range of their own. *)
Lemma laidOut_frame (d d2 : Document) : forall item li,
  (forall e, (li <= e < li + size item)%nat -> d2 !! e = d !! e) ->
  laidOut d li item -> laidOut d2 li item.
Proof.
  induction item as [text oc od ox|text cs oc od ox IH]
    using MB_TreeViewItem_induction; intros li Hsame; cbn [laidOut].
  - intros H. rewrite Hsame; [exact H|cbn; lia].
  - intros (Hli & Hul & Hcs). rewrite size_children in Hsame.
    split; [rewrite Hsame; [exact Hli|lia]|].
    split; [rewrite Hsame; [exact Hul|lia]|].
    assert (forall base,
               (forall e, (base <= e < base + sizes cs)%nat ->
                          d2 !! e = d !! e) ->
               pairwise (laidOut d) (place base cs) cs ->
               pairwise (laidOut d2) (place base cs) cs) as Hall.
    { clear Hli Hul Hcs Hsame.
      induction cs as [|c cs IHcs]; intros base Hsame; [intros; exact I|].
      apply Forall_cons in IH as [IHc IHrest].
      cbn [place pairwise]. rewrite sizes_cons in Hsame.
      intros [Hc Hrest]. split.
      - apply IHc; [|exact Hc]. intros e He. apply Hsame. lia.
      - apply IHcs; [exact IHrest| |exact Hrest].
        intros e He. apply Hsame. lia. }
    apply Hall; [|exact Hcs]. intros e He. apply Hsame. lia.
Qed.

Lemma pairwise_laidOut_frame (d d2 : Document) items : forall base,
  (forall e, (base <= e < base + sizes items)%nat -> d2 !! e = d !! e) ->
  pairwise (laidOut d) (place base items) items ->
  pairwise (laidOut d2) (place base items) items.
Proof.
  induction items as [|c cs IH]; intros base Hsame; [intros; exact I|].
  cbn [place pairwise]. rewrite sizes_cons in Hsame.
  intros [Hc Hrest]. split.
  - apply (laidOut_frame d); [|exact Hc]. intros e He. apply Hsame. lia.
  - apply IH; [|exact Hrest]. intros e He. apply Hsame. lia.
Qed.

Lemma laidOut_shows (d : Document) : forall item li,
  laidOut d li item -> shows d li item.
Proof.
  induction item as [text oc od ox|text cs oc od ox IH]
    using MB_TreeViewItem_induction; intros li; cbn [laidOut shows].
  - trivial.
  - intros (Hli & Hul & Hcs). exists (S li), (place (S (S li)) cs).
    split; [exact Hli|]. split; [exact Hul|].
    clear Hli Hul. revert Hcs. generalize (S (S li)).
    induction cs as [|c cs IHcs]; intros base; [trivial|].
    apply Forall_cons in IH as [IHc IHrest].
    cbn [place pairwise]. intros [Hc Hrest]. split; [now apply IHc|].
    now apply IHcs.
Qed.

Lemma pairwise_laidOut_shows (d : Document) items : forall base,
  pairwise (laidOut d) (place base items) items ->
  pairwise (shows d) (place base items) items.
Proof.
  induction items as [|c cs IH]; intros base; [trivial|].
  cbn [place pairwise]. intros [Hc Hrest].
  split; [now apply laidOut_shows|now apply IH].
Qed.

(** What one round of the loop does, given what it does for the
    children. *)
Definition itemBuilt (item : MB_TreeViewItem) : Prop :=
  forall (d : Document) target n,
    d !! target = Some n ->
    exists d',
      createTreeViewItem target item d = (d', Normal tt)
      /\ length d' = (length d + size item)%nat
      /\ d' !! target
         = Some (mkNode (tagName n) (textContent n)
                   (childNodes n ++ [length d]) (listeners n))
      /\ (forall e, (e < length d)%nat -> e <> target -> d' !! e = d !! e)
      /\ laidOut d' (length d) item.

Definition itemsBuilt (items : list MB_TreeViewItem) : Prop :=
  forall (d : Document) target n,
    d !! target = Some n ->
    exists d',
      forEach (createTreeViewItem target) items d = (d', Normal tt)
      /\ length d' = (length d + sizes items)%nat
      /\ d' !! target
         = Some (mkNode (tagName n) (textContent n)
                   (childNodes n ++ place (length d) items) (listeners n))
      /\ (forall e, (e < length d)%nat -> e <> target -> d' !! e = d !! e)
      /\ pairwise (laidOut d') (place (length d) items) items.

Lemma itemsBuilt_of_items items : Forall itemBuilt items -> itemsBuilt items.
Proof.
  induction items as [|c cs IH]; intros Hall d target n Htarget.
  - exists d. cbn. rewrite app_nil_r, Nat.add_0_r.
    destruct n. repeat split; trivial.
  - apply Forall_cons in Hall as [Hc Hcs].
    destruct (Hc d target n Htarget) as (d1 & Hrun1 & Hlen1 & Ht1 & Hfr1 & Hlo1).
    destruct (IH Hcs d1 target _ Ht1)
      as (d2 & Hrun2 & Hlen2 & Ht2 & Hfr2 & Hlo2).
    pose proof (lookup_lt_Some _ _ _ Htarget) as Hlt.
    exists d2. cbn [forEach]. unfold bind.
    change ((fix go (l : list MB_TreeViewItem) : St Document unit :=
               match l with
               | [] => ret tt
               | x :: l' => bind (createTreeViewItem target x) (fun _ => go l')
               end) cs)
      with (forEach (createTreeViewItem target) cs).
    rewrite Hrun1, Hrun2. split; [reflexivity|].
    rewrite sizes_cons.
    split; [lia|]. split.
    + rewrite Ht2. cbn [tagName textContent childNodes listeners place].
      rewrite <- app_assoc, Hlen1. reflexivity.
    + split.
      * intros e He Hne. rewrite Hfr2 by lia. now apply Hfr1.
      * cbn [place pairwise]. rewrite <- Hlen1. split; [|exact Hlo2].
        apply (laidOut_frame d1); [|exact Hlo1].
        intros e He. apply Hfr2; lia.
Qed.

Lemma itemBuilt_all : forall item, itemBuilt item.
Proof.
  induction item as [text oc od ox|text cs oc od ox IH]
    using MB_TreeViewItem_induction; intros d target n Htarget;
    pose proof (lookup_lt_Some _ _ _ Htarget) as Hlt;
    cbn [createTreeViewItem]; unfold bind.
  - (* no children *)
    destruct (createElement_spec "li" d) as (d1 & -> & Hl1 & Hli1 & Hf1).
    unfold setTextContent.
    destruct (update_spec (length d)
                (fun n => mkNode (tagName n) text [] (listeners n)) _ d1 Hli1)
      as (d2 & -> & Hl2 & Hli2 & Hf2).
    unfold appendChild.
    destruct (update_spec target
                (fun n => mkNode (tagName n) (textContent n)
                            (childNodes n ++ [length d]) (listeners n)) n d2)
      as (d3 & -> & Hl3 & Ht3 & Hf3).
    { rewrite Hf2 by lia. rewrite Hf1 by lia. exact Htarget. }
    cbn [ret].
    assert (d3 !! length d = Some (mkNode "li" text [] [])) as Hli3.
    { rewrite Hf3 by lia. exact Hli2. }
    destruct (addIfGiven_spec (length d) "click" oc _ d3 Hli3)
      as (d4 & -> & Hl4 & Hli4 & Hf4).
    destruct (addIfGiven_spec (length d) "dblclick" od _ d4 Hli4)
      as (d5 & -> & Hl5 & Hli5 & Hf5).
    destruct (addIfGiven_spec (length d) "contextmenu" ox _ d5 Hli5)
      as (d6 & -> & Hl6 & Hli6 & Hf6).
    exists d6. split; [reflexivity|]. cbn [size]. split; [lia|]. split.
    + rewrite Hf6, Hf5, Hf4 by lia. exact Ht3.
    + split.
      * intros e He Hne. rewrite Hf6, Hf5, Hf4, Hf3, Hf2 by lia.
        now apply Hf1.
      * cbn [laidOut]. rewrite Hli6.
        cbn [tagName textContent childNodes listeners app].
        unfold givenListeners. now rewrite <- app_assoc.
  - (* a children array *)
    destruct (createElement_spec "li" d) as (d1 & -> & Hl1 & Hli1 & Hf1).
    unfold setTextContent.
    destruct (update_spec (length d)
                (fun n => mkNode (tagName n) text [] (listeners n)) _ d1 Hli1)
      as (d2 & -> & Hl2 & Hli2 & Hf2).
    unfold appendChild at 1.
    destruct (update_spec target
                (fun n => mkNode (tagName n) (textContent n)
                            (childNodes n ++ [length d]) (listeners n)) n d2)
      as (d3 & -> & Hl3 & Ht3 & Hf3).
    { rewrite Hf2 by lia. rewrite Hf1 by lia. exact Htarget. }
    destruct (createElement_spec "ul" d3) as (d4 & -> & Hl4 & Hul4 & Hf4).
    assert (length d3 = S (length d)) as Hlen3 by lia.
    rewrite Hlen3 in *.
    destruct (itemsBuilt_of_items cs IH d4 (S (length d)) _ Hul4)
      as (d5 & -> & Hl5 & Hul5 & Hf5 & Hlo5).
    cbn [tagName textContent childNodes listeners app] in Hul5.
    assert (d5 !! length d = Some (mkNode "li" text [] [])) as Hli5.
    { rewrite Hf5 by lia. rewrite Hf4 by lia. rewrite Hf3 by lia.
      exact Hli2. }
    unfold appendChild.
    destruct (update_spec (length d)
                (fun n => mkNode (tagName n) (textContent n)
                            (childNodes n ++ [S (length d)]) (listeners n))
                _ d5 Hli5)
      as (d6 & -> & Hl6 & Hli6 & Hf6).
    cbn [tagName textContent childNodes listeners app] in Hli6.
    destruct (addIfGiven_spec (length d) "click" oc _ d6 Hli6)
      as (d7 & -> & Hl7 & Hli7 & Hf7).
    destruct (addIfGiven_spec (length d) "dblclick" od _ d7 Hli7)
      as (d8 & -> & Hl8 & Hli8 & Hf8).
    destruct (addIfGiven_spec (length d) "contextmenu" ox _ d8 Hli8)
      as (d9 & -> & Hl9 & Hli9 & Hf9).
    exists d9. split; [reflexivity|]. rewrite size_children.
    split; [lia|]. split.
    + rewrite Hf9, Hf8, Hf7, Hf6, Hf5, Hf4 by lia. exact Ht3.
    + split.
      * intros e He Hne.
        rewrite Hf9, Hf8, Hf7, Hf6, Hf5, Hf4, Hf3, Hf2 by lia.
        now apply Hf1.
      * cbn [laidOut]. rewrite Hli9.
        cbn [tagName textContent childNodes listeners app].
        split; [unfold givenListeners; now rewrite <- app_assoc|].
        rewrite Hl4 in Hul5, Hlo5.
        split.
        -- rewrite Hf9, Hf8, Hf7, Hf6 by lia. exact Hul5.
        -- apply (pairwise_laidOut_frame d5); [|exact Hlo5].
           intros e He. rewrite Hf9, Hf8, Hf7, Hf6 by lia. reflexivity.
Qed.

(** X11.  [createTreeView] on an element of the document returns, and the
    document then mirrors the items: the target has one new child per item,
    after the children it had and in the items' order; each of them shows
    its item, that is, it is an [li] with the item's text and exactly the
    listeners the item gives, and it holds one [ul] with its children's
    elements when the item has a [children] array (an empty [ul] for an
    empty array) and nothing otherwise. One [li] is made per item and one
    [ul] per [children] array, and no other element of the document is
    changed. *)
Theorem createTreeView_mirrors_the_items
    (items : list MB_TreeViewItem) (d : Document) (target : nat)
    (n : Node) :
  d !! target = Some n ->
  exists d' lis,
    createTreeView target items d = (d', Normal tt)
    /\ d' !! target
       = Some (mkNode (tagName n) (textContent n) (childNodes n ++ lis)
                 (listeners n))
    /\ pairwise (shows d') lis items
    /\ length d' = (length d + sizes items)%nat
    /\ (forall e, (e < length d)%nat -> e <> target -> d' !! e = d !! e).
Proof.
  intros Htarget.
  assert (Forall itemBuilt items) as Hall
    by (apply Forall_forall; intros; apply itemBuilt_all).
  destruct (itemsBuilt_of_items items Hall d target n Htarget)
    as (d' & Hrun & Hlen & Ht & Hfr & Hlo).
  exists d', (place (length d) items).
  split; [exact Hrun|]. split; [exact Ht|].
  split; [now apply pairwise_laidOut_shows|]. split; assumption.
Qed.

End TreeViewFacts.

(** The menu of the level editor, with a folder added: three items with
    a click listener, one with an empty [children] array. *)
Lemma createTreeView_mirrors_the_items_witness :
  let items :=
    [TreeView.mkTreeViewItem "Close" None (Some "close") None None;
     TreeView.mkTreeViewItem "Save" None (Some "save") None None;
     TreeView.mkTreeViewItem "Recent" (Some []) None None None;
     TreeView.mkTreeViewItem "Exit" None (Some "exit") None None] in
  let d := [TreeView.mkNode "ul" "" [] []] in
  exists d' lis,
    TreeView.createTreeView 0 items d = (d', Normal tt)
    /\ d' !! 0%nat = Some (TreeView.mkNode "ul" "" ([] ++ lis) [])
    /\ TreeView.pairwise (TreeView.shows d') lis items
    /\ length d' = (1 + 5)%nat
    /\ (forall e, (e < 1)%nat -> e <> 0%nat -> d' !! e = d !! e).
Proof.
  exact (createTreeView_mirrors_the_items
           [TreeView.mkTreeViewItem "Close" None (Some "close") None None;
            TreeView.mkTreeViewItem "Save" None (Some "save") None None;
            TreeView.mkTreeViewItem "Recent" (Some []) None None None;
            TreeView.mkTreeViewItem "Exit" None (Some "exit") None None]
           [TreeView.mkNode "ul" "" [] []] 0
           (TreeView.mkNode "ul" "" [] []) eq_refl).
Defined.

Section LevelManagerFacts.

Import MB_HTMLElementUtility MB_LevelManager.

Context {U : Type}.

(** X12.  [playLevel] never gets past the loading screen: its one step reads
    [this.networkManager], which the class never sets, and throws a
    [TypeError]; the label and 0% are on display, the screen is not hidden
    and the tip timer is not stopped. *)
Theorem playLevel_never_completes (this : MB_LevelManager)
    (level : MB_Level) (c : MB_AsyncLoadController) (w : World U) :
  asyncLoadController this = Some c ->
  microtasks w = [] ->
  stepSinksPresent c = true ->
  let w' := runMicrotasks (fst (playLevel this level w)) in
  let e := TypeError "Cannot read properties of undefined" in
  eventsSince w w'
  = startEvents c (nextTimerId (page w))
      ++ [SetTextContent LoadingText "Loading level...";
          SetStyleWidth LoadingProgressBar "0%";
          SetTextContent LoadingPercentage "0%";
          FuncCalled 0; FuncThrew 0 e; UnhandledRejection e]
  /\ user (page w') = user (page w)
  /\ timers (page w') = timers (startPage c (page w)).
Proof.
  intros Hc Hq Hs w' e.
  pose proof (run_failure c []
                (mkOperation "Loading level..." (loadLevel this level))
                [] None w _ _ Hq Hs ltac:(constructor) eq_refl) as Hrun.
  cbn zeta in Hrun. cbn [app] in Hrun.
  assert (w' = runTask (CallInit c (playLevelOperations this level) None) w)
    as Hw'.
  { subst w'. unfold playLevel. rewrite Hc. reflexivity. }
  unfold playLevelOperations in Hw'. rewrite <- Hw' in Hrun.
  split; [|rewrite Hrun; split; reflexivity].
  apply eventsSince_app. rewrite Hrun. reflexivity.
Qed.

End LevelManagerFacts.

Section DisplayLevelFacts.

Import MB_HTMLElementUtility MB_LevelManager.

(** X13.  [displayLevel] with the screen, the image and the info container
    in place. When none of the six multiplayer elements and not the play
    button is missing, it returns: the level's thumbnail and info are shown,
    the six elements are hidden (the level screen too, should it be one of
    them), the level screen is displayed, and the play button plays this
    level. When one of the six is missing it throws a [TypeError] after
    having shown the new level, and the play button still plays what it
    played before. *)
Theorem displayLevel_shows_then_wires (this : MB_LevelManager)
    (level : MB_Level) (s : Screen) (screen image info : Element) :
  levelScreen this = Some screen ->
  levelImageHolder this = Some image ->
  levelInfoContainer this = Some info ->
  let s' := fst (displayLevel this level s) in
  let hidden e := listed e (beforeNull (multiplayerElements this)) in
  src s' image = thumbnail_url level
  /\ innerHTML s' info = levelInfo level
  /\ (forall e,
        styles s' e
        = if hidden e then "none"
          else if Nat.eqb e screen then "block" else styles s e)
  /\ (forall play,
        noNull (multiplayerElements this) = true ->
        levelPlayBtn this = Some play ->
        snd (displayLevel this level s) = Normal tt
        /\ onclick s' play = Some level)
  /\ (noNull (multiplayerElements this) = false ->
      snd (displayLevel this level s)
      = Throw (TypeError "Cannot read properties of null")
      /\ forall e, onclick s' e = onclick s e).
Proof.
  intros Hscreen Himage Hinfo s' hidden. subst s' hidden.
  unfold displayLevel, write, bind, onStyles.
  rewrite Hscreen, Himage, Hinfo. cbn [styles src innerHTML onclick].
  destruct (forOf_setStyleDisplay "none" (multiplayerElements this)
              (assign screen "block" (styles s))) as [Hr Hσ].
  cbn zeta in Hr, Hσ. fold (hideElements (multiplayerElements this)) in Hr, Hσ.
  destruct (hideElements (multiplayerElements this)
              (assign screen "block" (styles s))) as [σ r].
  cbn [fst snd] in Hr, Hσ. subst r.
  destruct (noNull (multiplayerElements this)) eqn:Hn.
  - destruct (levelPlayBtn this) as [play|]; cbn;
      (split; [unfold assign; now rewrite Nat.eqb_refl|]);
      (split; [unfold assign; now rewrite Nat.eqb_refl|]);
      (split; [intros e; rewrite Hσ; reflexivity|]);
      (split; [|discriminate]).
    + intros play' _ [= <-]. split; [reflexivity|].
      unfold assign. now rewrite Nat.eqb_refl.
    + intros play' _ [=].
  - cbn.
    split; [unfold assign; now rewrite Nat.eqb_refl|].
    split; [unfold assign; now rewrite Nat.eqb_refl|].
    split; [intros e; rewrite Hσ; reflexivity|].
    split; [discriminate|]. intros _. split; reflexivity.
Qed.

End DisplayLevelFacts.

(** [playLevel] on the demo page. *)
Lemma playLevel_never_completes_witness :
  let this := MB_LevelManager.levelManager in
  let level := MB_LevelManager.mkLevel "First" "first.png" "1" "" "race" "" in
  let w' :=
    runMicrotasks (fst (MB_LevelManager.playLevel this level Demo.start)) in
  let e := TypeError "Cannot read properties of undefined" in
  eventsSince Demo.start w'
  = startEvents Demo.controller 1
      ++ [SetTextContent LoadingText "Loading level...";
          SetStyleWidth LoadingProgressBar "0%";
          SetTextContent LoadingPercentage "0%";
          FuncCalled 0; FuncThrew 0 e; UnhandledRejection e]
  /\ user (page w') = []
  /\ timers (page w') = timers (startPage Demo.controller (page Demo.start)).
Proof.
  exact (playLevel_never_completes MB_LevelManager.levelManager
           (MB_LevelManager.mkLevel "First" "first.png" "1" "" "race" "")
           Demo.controller Demo.start eq_refl eq_refl eq_refl).
Defined.

(** [displayLevel] on the level manager of the page. *)
Lemma displayLevel_shows_then_wires_witness :
  let this := MB_LevelManager.levelManager in
  let level := MB_LevelManager.mkLevel "First" "first.png" "1" "" "race" "" in
  let s :=
    MB_LevelManager.mkScreen (fun _ => "") (fun _ => "") (fun _ => "")
      (fun _ => None) in
  let s' := fst (MB_LevelManager.displayLevel this level s) in
  let hidden e :=
    MB_HTMLElementUtility.listed e
      (MB_HTMLElementUtility.beforeNull
         (MB_LevelManager.multiplayerElements this)) in
  MB_LevelManager.src s' 1%nat = "first.png"
  /\ MB_LevelManager.innerHTML s' 2%nat = MB_LevelManager.levelInfo level
  /\ (forall e,
        MB_LevelManager.styles s' e
        = if hidden e then "none"
          else if Nat.eqb e 0 then "block" else MB_LevelManager.styles s e)
  /\ (forall play,
        MB_HTMLElementUtility.noNull
          (MB_LevelManager.multiplayerElements this) = true ->
        MB_LevelManager.levelPlayBtn this = Some play ->
        snd (MB_LevelManager.displayLevel this level s) = Normal tt
        /\ MB_LevelManager.onclick s' play = Some level)
  /\ (MB_HTMLElementUtility.noNull
        (MB_LevelManager.multiplayerElements this) = false ->
      snd (MB_LevelManager.displayLevel this level s)
      = Throw (TypeError "Cannot read properties of null")
      /\ forall e, MB_LevelManager.onclick s' e = MB_LevelManager.onclick s e).
Proof.
  exact (displayLevel_shows_then_wires MB_LevelManager.levelManager
           (MB_LevelManager.mkLevel "First" "first.png" "1" "" "race" "")
           (MB_LevelManager.mkScreen (fun _ => "") (fun _ => "")
              (fun _ => "") (fun _ => None))
           0%nat 1%nat 2%nat eq_refl eq_refl eq_refl).
Defined.

Section StorageManagerFacts.

Import stdpp.strings stdpp.gmap.
Import MB_StorageManager.

(** X14.  The probe leaves every item but its own alone: whatever the host
    does, the items stored under keys other than "__storage_test__" are the
    same afterwards; and when the probe write is accepted, nothing is stored
    under "__storage_test__" afterwards, so a storage that did not use that
    key is exactly as it was, and one that did has lost that item. *)
Theorem localStorageAvailable_leaves_the_items (h : Host) (items : Items) :
  let items' := fst (localStorageAvailable h items) in
  (forall key, key <> "__storage_test__" -> items' !! key = items !! key)
  /\ (access h = Granted ->
      accepts h items "__storage_test__" "__storage_test__" = true ->
      items' = delete "__storage_test__" items
      /\ (items !! "__storage_test__" = None -> items' = items)).
Proof.
  cbn zeta. unfold localStorageAvailable, storageAvailable, windowStorage,
    setItem, removeItem, x.
  split.
  - intros key Hkey.
    destruct (access h); cbn; try reflexivity.
    destruct (accepts h items _ _); cbn; [|reflexivity].
    rewrite lookup_delete_ne by congruence.
    now rewrite lookup_insert_ne by congruence.
  - intros -> ->. cbn. split.
    + apply delete_insert_eq.
    + intros Hnone. rewrite delete_insert_eq. now apply delete_id.
Qed.

(** X15.  The answer of the probe: [true] when the host hands out a storage
    that accepts the write, and also when it refuses the write while
    something is stored; [false] when access is denied, when there is no
    storage object, and when an empty storage refuses the write. *)
Theorem localStorageAvailable_answer (h : Host) (items : Items) :
  snd (localStorageAvailable h items)
  = match access h with
    | Granted =>
        accepts h items "__storage_test__" "__storage_test__"
        || negb (size items =? 0)%nat
    | _ => false
    end.
Proof.
  unfold localStorageAvailable, storageAvailable, windowStorage, setItem, x.
  destruct (access h); cbn; try reflexivity.
  destruct (accepts h items _ _); reflexivity.
Qed.

(** A storage that holds the settings and accepts the probe write is
    exactly as it was after the probe. *)
Lemma localStorageAvailable_leaves_the_items_witness :
  let h := mkHost Granted (fun _ _ _ => true) in
  let items : Items := {[ "MB_Settings" := "{}" ]} in
  fst (localStorageAvailable h items) = items.
Proof.
  cbv zeta.
  pose proof (localStorageAvailable_leaves_the_items
                (mkHost Granted (fun _ _ _ => true))
                {[ "MB_Settings" := "{}" ]}) as H.
  cbv zeta in H. destruct H as [_ H].
  destruct (H eq_refl eq_refl) as [_ Hsame].
  apply Hsame. reflexivity.
Defined.

End StorageManagerFacts.

Section PerformanceManagerFacts.

Import MB_PerformanceManager.



End PerformanceManagerFacts.


Section InputManagerFacts.

Import THREE MB_InputManager.

Lemma keydown_threshold event this :
  inputThreshold (keydown event this) = inputThreshold this.
Proof.
  unfold keydown. repeat (case_match; try reflexivity).
Qed.

Lemma keydown_x event this :
  let t := inputThreshold this in
  x (playerMovementInput (keydown event this))
  = (if horizontalKey event
     then (if isOneOf (key event) ["A"; "a"; "ArrowLeft"]
           then Float64.neg t else t)
     else x (playerMovementInput this)).
Proof.
  cbn zeta. unfold keydown, horizontalKey, isOneOf.
  destruct (inField event); [reflexivity|]. cbn [negb andb List.existsb].
  destruct (String.eqb_spec (key event) "W") as [Heq|];
    [rewrite ?Heq; reflexivity|].
  destruct (String.eqb_spec (key event) "w") as [Heq|];
    [rewrite ?Heq; reflexivity|].
  destruct (String.eqb_spec (key event) "ArrowUp") as [Heq|];
    [rewrite ?Heq; reflexivity|].
  destruct (String.eqb_spec (key event) "A") as [Heq|];
    [rewrite ?Heq; reflexivity|].
  destruct (String.eqb_spec (key event) "a") as [Heq|];
    [rewrite ?Heq; reflexivity|].
  destruct (String.eqb_spec (key event) "ArrowLeft") as [Heq|];
    [rewrite ?Heq; reflexivity|].
  destruct (String.eqb_spec (key event) "S") as [Heq|];
    [rewrite ?Heq; reflexivity|].
  destruct (String.eqb_spec (key event) "s") as [Heq|];
    [rewrite ?Heq; reflexivity|].
  destruct (String.eqb_spec (key event) "ArrowDown") as [Heq|];
    [rewrite ?Heq; reflexivity|].
  destruct (String.eqb_spec (key event) "D") as [Heq|];
    [rewrite ?Heq; reflexivity|].
  destruct (String.eqb_spec (key event) "d") as [Heq|];
    [rewrite ?Heq; reflexivity|].
  destruct (String.eqb_spec (key event) "ArrowRight") as [Heq|];
    rewrite ?Heq; reflexivity.
Qed.

Lemma keydown_y event this :
  let t := inputThreshold this in
  y (playerMovementInput (keydown event this))
  = (if verticalKey event
     then (if isOneOf (key event) ["S"; "s"; "ArrowDown"]
           then Float64.neg t else t)
     else y (playerMovementInput this)).
Proof.
  cbn zeta. unfold keydown, verticalKey, isOneOf.
  destruct (inField event); [reflexivity|]. cbn [negb andb List.existsb].
  destruct (String.eqb_spec (key event) "W") as [Heq|];
    [rewrite ?Heq; reflexivity|].
  destruct (String.eqb_spec (key event) "w") as [Heq|];
    [rewrite ?Heq; reflexivity|].
  destruct (String.eqb_spec (key event) "ArrowUp") as [Heq|];
    [rewrite ?Heq; reflexivity|].
  destruct (String.eqb_spec (key event) "A") as [Heq|];
    [rewrite ?Heq; reflexivity|].
  destruct (String.eqb_spec (key event) "a") as [Heq|];
    [rewrite ?Heq; reflexivity|].
  destruct (String.eqb_spec (key event) "ArrowLeft") as [Heq|];
    [rewrite ?Heq; reflexivity|].
  destruct (String.eqb_spec (key event) "S") as [Heq|];
    [rewrite ?Heq; reflexivity|].
  destruct (String.eqb_spec (key event) "s") as [Heq|];
    [rewrite ?Heq; reflexivity|].
  destruct (String.eqb_spec (key event) "ArrowDown") as [Heq|];
    [rewrite ?Heq; reflexivity|].
  destruct (String.eqb_spec (key event) "D") as [Heq|];
    [rewrite ?Heq; reflexivity|].
  destruct (String.eqb_spec (key event) "d") as [Heq|];
    [rewrite ?Heq; reflexivity|].
  destruct (String.eqb_spec (key event) "ArrowRight") as [Heq|];
    rewrite ?Heq; reflexivity.
Qed.

Lemma keydowns_snoc events event this :
  keydowns (events ++ [event]) this = keydown event (keydowns events this).
Proof. unfold keydowns. now rewrite fold_left_app. Qed.

Lemma keydowns_threshold events : forall this,
  inputThreshold (keydowns events this) = inputThreshold this.
Proof.
  induction events as [|e events IH]; intros this; [reflexivity|].
  cbn [keydowns fold_left]. fold (keydowns events (keydown e this)).
  now rewrite IH, keydown_threshold.
Qed.

(** X17.  Key presses never bring a component of the movement input back to
    rest: once a key of an axis has been pressed (outside a text field), the
    component of that axis is the threshold or its negative after every
    later series of key presses; before that it has the value it started
    with. Keys pressed in a text field change nothing. *)
Theorem keydowns_never_release (events : list KeyboardEvent)
    (this : MB_InputManager) :
  let t := inputThreshold this in
  let after := playerMovementInput (keydowns events this) in
  (if List.existsb horizontalKey events
   then x after = t \/ x after = Float64.neg t
   else x after = x (playerMovementInput this))
  /\ (if List.existsb verticalKey events
      then y after = t \/ y after = Float64.neg t
      else y after = y (playerMovementInput this)).
Proof.
  cbn zeta. induction events as [|event events IH] using rev_ind.
  - split; reflexivity.
  - rewrite keydowns_snoc, !List.existsb_app. cbn [List.existsb].
    rewrite !orb_false_r.
    pose proof (keydown_x event (keydowns events this)) as Hx.
    pose proof (keydown_y event (keydowns events this)) as Hy.
    cbn zeta in Hx, Hy. rewrite keydowns_threshold in Hx, Hy.
    rewrite Hx, Hy. clear Hx Hy. destruct IH as [IHx IHy]. split.
    + destruct (horizontalKey event).
      * rewrite orb_true_r.
        destruct (isOneOf (key event) ["A"; "a"; "ArrowLeft"]);
          [right|left]; reflexivity.
      * rewrite orb_false_r. exact IHx.
    + destruct (verticalKey event).
      * rewrite orb_true_r.
        destruct (isOneOf (key event) ["S"; "s"; "ArrowDown"]);
          [right|left]; reflexivity.
      * rewrite orb_false_r. exact IHy.
Qed.

End InputManagerFacts.

Section GamepadManagerFacts.

Import THREE MB_GamepadManager.

(** X18.  [getRightTrigger] reads the second button behind a guard that asks
    for one: on a first gamepad with exactly one button it throws a
    [TypeError] where [getLeftTrigger] returns that button's value; with two
    or more it returns the value of the second, and with none it logs an
    error and returns [undefined]. *)
Theorem getRightTrigger_needs_two_buttons (gamepad : Gamepad)
    (others : Gamepads) (console : Console) :
  getRightTrigger (Some gamepad :: others) console
  = match buttons gamepad with
    | [] => (console ++ ["Gamepad buttons are not available."], Normal None)
    | [_] => (console, Throw (TypeError "Cannot read properties of undefined"))
    | _ :: b :: _ => (console, Normal (Some (value b)))
    end
  /\ getLeftTrigger (Some gamepad :: others) console
     = match buttons gamepad with
       | [] =>
           (console ++ ["Gamepad buttons are not available."], Normal None)
       | b :: _ => (console, Normal (Some (value b)))
       end.
Proof.
  unfold getRightTrigger, getLeftTrigger.
  destruct gamepad as [ax [|b0 [|b1 bs]]]; split; reflexivity.
Qed.

(** X19.  [getRightStick] reads axes 2 and 3 behind a guard that asks for
    one axis: on a first gamepad with at least one axis it returns a vector
    and logs nothing, and a component whose axis the gamepad does not have
    is [NaN]; so it returns two numbers, each an axis times the threshold,
    only from a gamepad with four axes. *)
Theorem getRightStick_needs_four_axes (t : spec_float) (gamepad : Gamepad)
    (others : Gamepads) (console : Console) :
  axes gamepad <> [] ->
  exists v,
    getRightStick t (Some gamepad :: others) console
    = (console, Normal (Some v))
    /\ ((length (axes gamepad) <= 2)%nat -> x v = S754_nan)
    /\ ((length (axes gamepad) <= 3)%nat -> y v = S754_nan)
    /\ (forall a2 a3,
          axes gamepad !! 2%nat = Some a2 ->
          axes gamepad !! 3%nat = Some a3 ->
          v = mkVector2 (Number.mul a2 t) (Number.mul a3 t)).
Proof.
  intros Hne. unfold getRightStick.
  destruct gamepad as [ax bs]. cbn [axes] in *.
  assert ((0 <? length ax)%nat = true) as Hlen0
    by (destruct ax; [contradiction|reflexivity]).
  change (0 <? length (Some (mkGamepad ax bs) :: others))%nat with true.
  change ((Some (mkGamepad ax bs) :: others) !! 0%nat)
    with (Some (Some (mkGamepad ax bs))).
  cbn [axes]. rewrite Hlen0.
  eexists. split; [reflexivity|]. cbn [x y]. unfold scaled.
  split; [|split].
  - intros Hlen. rewrite lookup_ge_None_2; [reflexivity|exact Hlen].
  - intros Hlen. rewrite lookup_ge_None_2; [reflexivity|exact Hlen].
  - intros a2 a3 -> ->. reflexivity.
Qed.

End GamepadManagerFacts.

(** A gamepad with two axes: the right stick is (NaN, NaN). *)
Lemma getRightStick_needs_four_axes_witness :
  let gamepad :=
    MB_GamepadManager.mkGamepad [Number.ofZ 1; Number.ofZ 0] [] in
  exists v,
    MB_GamepadManager.getRightStick (Number.ofZ 2) [Some gamepad] []
    = ([], Normal (Some v))
    /\ ((length (MB_GamepadManager.axes gamepad) <= 2)%nat
        -> THREE.x v = S754_nan)
    /\ ((length (MB_GamepadManager.axes gamepad) <= 3)%nat
        -> THREE.y v = S754_nan)
    /\ (forall a2 a3,
          MB_GamepadManager.axes gamepad !! 2%nat = Some a2 ->
          MB_GamepadManager.axes gamepad !! 3%nat = Some a3 ->
          v = THREE.mkVector2 (Number.mul a2 (Number.ofZ 2))
                (Number.mul a3 (Number.ofZ 2))).
Proof.
  apply (getRightStick_needs_four_axes (Number.ofZ 2)
           (MB_GamepadManager.mkGamepad [Number.ofZ 1; Number.ofZ 0] [])
           [] []).
  discriminate.
Defined.

Section MathUtilityFacts.

Import MB_MathUtility.

Lemma sub_self (a : spec_float) :
  isFinite a = true -> Float64.sub a a = S754_zero false.
Proof.
  destruct a as [[|]| | |s m e]; try discriminate; intros _;
    try reflexivity.
  unfold Float64.sub, SFsub. rewrite Z.sub_diag. reflexivity.
Qed.

Lemma mul_zero_l (s : bool) (t : spec_float) :
  isFinite t = true -> isZero (Number.mul (S754_zero s) t) = true.
Proof. destruct t as [[|]| | |st m e]; try discriminate; reflexivity. Qed.

Lemma mul_zero_r (s : bool) (d : spec_float) :
  isFinite d = true -> isZero (Number.mul d (S754_zero s)) = true.
Proof. destruct d as [[|]| | |st m e]; try discriminate; reflexivity. Qed.

Lemma add_zero_r (a z : spec_float) :
  isFinite a = true -> isZero a = false -> isZero z = true ->
  Float64.add a z = a.
Proof.
  destruct a as [[|]| | |s m e]; try discriminate.
  destruct z as [[|]| | |]; try discriminate; reflexivity.
Qed.

Lemma add_zero_l (a z : spec_float) :
  isFinite a = true -> isZero a = false -> isZero z = true ->
  Float64.add z a = a.
Proof.
  destruct a as [[|]| | |s m e]; try discriminate.
  destruct z as [[|]| | |]; try discriminate; reflexivity.
Qed.

(** X20.  [lerp] is exact at its start and not at its end: for a finite [a]
    other than zero, [lerp(a, b, 0)] is [a] whenever [b - a] does not
    overflow, and [lerp(a, a, t)] is [a] for every finite [t]; but [lerp(a,
    b, 1)] need not be [b]: [lerp(1, 2^-60, 1)] is 0. *)
Theorem lerp_at_the_start (a b t : spec_float) (s : bool) :
  isFinite a = true -> isZero a = false ->
  (isFinite (Float64.sub b a) = true -> lerp a b (S754_zero s) = a)
  /\ (isFinite t = true -> lerp a a t = a)
  /\ lerp (Number.ofZ 1) (S754_finite false 4503599627370496 (-112))
       (Number.ofZ 1)
     = S754_zero false.
Proof.
  intros Ha Hnz. unfold lerp. split; [|split].
  - intros Hd. apply add_zero_r; [assumption..|].
    now apply mul_zero_r.
  - intros Ht. rewrite sub_self by assumption.
    apply add_zero_r; [assumption..|]. now apply mul_zero_l.
  - vm_compute. reflexivity.
Qed.

(** X21.  [randomArbitrary(min, max)] with a finite [min] other than zero:
    when [max] equals [min] every draw gives [min], and the draw 0 gives
    [min] whenever [max - min] does not overflow. *)
Theorem randomArbitrary_at_the_minimum (min max u : spec_float) :
  isFinite min = true -> isZero min = false ->
  (Number.unitDraw u = true -> randomArbitrary min min u = min)
  /\ (isFinite (Float64.sub max min) = true ->
      randomArbitrary min max (S754_zero false) = min).
Proof.
  intros Hm Hnz. unfold randomArbitrary. split.
  - intros Hu. rewrite sub_self by assumption.
    apply add_zero_l; [assumption..|]. apply mul_zero_r.
    destruct u as [[|]| | |[|] m e]; try discriminate; reflexivity.
  - intros Hd. apply add_zero_l; [assumption..|]. now apply mul_zero_l.
Qed.

End MathUtilityFacts.

(** From 3 to 7. *)
Lemma lerp_at_the_start_witness :
  (MB_MathUtility.isFinite (Float64.sub (Number.ofZ 7) (Number.ofZ 3)) = true
   -> MB_MathUtility.lerp (Number.ofZ 3) (Number.ofZ 7) (S754_zero false)
      = Number.ofZ 3)
  /\ (MB_MathUtility.isFinite (Number.ofZ 2) = true
      -> MB_MathUtility.lerp (Number.ofZ 3) (Number.ofZ 3) (Number.ofZ 2)
         = Number.ofZ 3)
  /\ MB_MathUtility.lerp (Number.ofZ 1)
       (S754_finite false 4503599627370496 (-112)) (Number.ofZ 1)
     = S754_zero false.
Proof.
  exact (lerp_at_the_start (Number.ofZ 3) (Number.ofZ 7) (Number.ofZ 2)
           false eq_refl eq_refl).
Defined.

(** Between 3 and 7. *)
Lemma randomArbitrary_at_the_minimum_witness :
  (Number.unitDraw Demo.threeQuarters = true
   -> MB_MathUtility.randomArbitrary (Number.ofZ 3) (Number.ofZ 3)
        Demo.threeQuarters
      = Number.ofZ 3)
  /\ (MB_MathUtility.isFinite (Float64.sub (Number.ofZ 7) (Number.ofZ 3))
      = true
      -> MB_MathUtility.randomArbitrary (Number.ofZ 3) (Number.ofZ 7)
           (S754_zero false)
         = Number.ofZ 3).
Proof.
  exact (randomArbitrary_at_the_minimum (Number.ofZ 3) (Number.ofZ 7)
           Demo.threeQuarters eq_refl eq_refl).
Defined.
